(** * Adversarial training on CIFAR-10: a shallow embedding of [adv_train_cifar.py]

    The development follows the script top to bottom: Python's exceptions and
    numbers, the command line, the learning-rate schedules, mixup, the
    assembly of the adversarial sets, the optimiser, the training step, the
    epoch loop and [main].  Python floats are IEEE binary64 numbers and are
    modelled by Rocq's primitive floats; tensor entries are binary32 numbers
    and are modelled by [spec_float] with the binary32 parameters.  The
    classifier, the loss, automatic differentiation, numpy's interpolation and
    the random generators are collaborators of the script: they are the
    fields of the class [Collaborators]. *)

From Stdlib Require Import ZArith Reals Lra Lia List Bool String Ascii Permutation
  DecimalString Floats.
Import ListNotations.

#[local] Set Warnings "-inexact-float".
#[local] Open Scope Z_scope.

(** ** Exceptions *)

Inductive py_exception : Type :=
| ValueError (msg : string)
| ZeroDivisionError
| OverflowError
| IndexError
| TypeError
| UnboundLocalError (name : string)
| KeyError (key : string)
| FileNotFoundError (path : string)
| RuntimeError (msg : string).

Inductive result (A : Type) : Type :=
| Ok (a : A)
| Raise (e : py_exception).

Arguments Ok {A} a.
Arguments Raise {A} e.

Definition rbind {A B : Type} (r : result A) (k : A -> result B) : result B :=
  match r with
  | Ok a => k a
  | Raise e => Raise e
  end.

Declare Scope result_scope.
Delimit Scope result_scope with result.
Notation "x <- r ;; k" := (rbind r (fun x => k))
  (at level 61, r at next level, right associativity) : result_scope.

Definition is_ok {A : Type} (r : result A) : bool :=
  match r with Ok _ => true | Raise _ => false end.

(** ** Python numbers *)

Module Py.

(** [float(z)] for an int [z]: the nearest binary64 number, ties to even;
    [OverflowError] when that is not finite. *)
Definition SF_of_int (z : Z) : spec_float :=
  binary_normalize prec emax z 0 false.

Definition is_finite_SF (x : spec_float) : bool :=
  match x with
  | S754_zero _ | S754_finite _ _ _ => true
  | S754_infinity _ | S754_nan => false
  end.

Definition float_of_int (z : Z) : result float :=
  let x := SF_of_int z in
  if is_finite_SF x then Ok (SF2Prim x) else Raise OverflowError.

(** [a / b] on floats raises on a zero divisor. *)
Definition truediv (a b : float) : result float :=
  if (b =? 0)%float then Raise ZeroDivisionError else Ok (a / b)%float.

(** [a / n], [a * n], [a < n] with a float [a] and an int [n]: [n] is
    converted first. *)
Definition truediv_fi (a : float) (n : Z) : result float :=
  (b <- float_of_int n ;; truediv a b)%result.

Definition truediv_if (n : Z) (b : float) : result float :=
  (a <- float_of_int n ;; truediv a b)%result.

Definition mul_fi (a : float) (n : Z) : result float :=
  (b <- float_of_int n ;; Ok (a * b)%float)%result.

Definition mul_if (n : Z) (b : float) : result float :=
  (a <- float_of_int n ;; Ok (a * b)%float)%result.

Definition add_if (n : Z) (b : float) : result float :=
  (a <- float_of_int n ;; Ok (a + b)%float)%result.

(** [m / n] on ints: the correctly rounded quotient. *)
Definition SF_of_int_exact (z : Z) : spec_float :=
  match z with
  | Z0 => S754_zero false
  | Zpos p => S754_finite false p 0
  | Zneg p => S754_finite true p 0
  end.

Definition truediv_ii (m n : Z) : result float :=
  if n =? 0 then Raise ZeroDivisionError
  else
    let q := SFdiv prec emax (SF_of_int_exact m) (SF_of_int_exact n) in
    if is_finite_SF q then Ok (SF2Prim q) else Raise OverflowError.

(** Comparison of a float with an int is exact in Python: no conversion
    of the int takes place. *)
Definition compare_SF_int (x : spec_float) (n : Z) : option comparison :=
  match x with
  | S754_nan => None
  | S754_infinity s => Some (if s then Lt else Gt)
  | S754_zero _ => Some (0 ?= n)
  | S754_finite s m e =>
      let v := cond_Zopp s (Zpos m) in
      Some (if 0 <=? e then (v * 2 ^ e ?= n) else (v ?= n * 2 ^ (- e)))
  end.

Definition lt_fi (a : float) (n : Z) : bool :=
  match compare_SF_int (Prim2SF a) n with Some Lt => true | _ => false end.

Definition gt_fi (a : float) (n : Z) : bool :=
  match compare_SF_int (Prim2SF a) n with Some Gt => true | _ => false end.

Definition ne_fi (a : float) (n : Z) : bool :=
  match compare_SF_int (Prim2SF a) n with Some Eq => false | _ => true end.

(** [int(x)] truncates towards zero; [math.floor(x)] rounds down. *)
Definition int_of_SF (x : spec_float) : result Z :=
  match x with
  | S754_zero _ => Ok 0
  | S754_finite s m e => Ok (cond_Zopp s (Z.shiftl (Zpos m) e))
  | S754_infinity _ => Raise OverflowError
  | S754_nan => Raise (ValueError "cannot convert float NaN to integer")
  end.

Definition floor_of_SF (x : spec_float) : result Z :=
  match x with
  | S754_zero _ => Ok 0
  | S754_finite s m e => Ok (Z.shiftl (cond_Zopp s (Zpos m)) e)
  | S754_infinity _ => Raise OverflowError
  | S754_nan => Raise (ValueError "cannot convert float NaN to integer")
  end.

Definition int (x : float) : result Z := int_of_SF (Prim2SF x).
Definition floor (x : float) : result Z := floor_of_SF (Prim2SF x).

(** Truthiness of a float ([if args.l2:]). *)
Definition truthy (x : float) : bool := negb (x =? 0)%float.

End Py.

(** ** Strings *)

(** [s.split("_")]: the pieces between underscores; an empty string gives one
    empty piece. *)
Fixpoint split_underscore_aux (s : string) (cur : string) : list string :=
  match s with
  | EmptyString => [cur]
  | String c rest =>
      if Ascii.eqb c "_"%char
      then cur :: split_underscore_aux rest EmptyString
      else split_underscore_aux rest (cur ++ String c EmptyString)
  end.

Definition split_underscore (s : string) : list string :=
  split_underscore_aux s EmptyString.

Definition in_strings (s : string) (l : list string) : bool :=
  existsb (String.eqb s) l.

(** ** The command line ([get_args]) *)

Record Args : Type := {
  model : string;
  attack : string;
  sample : float;
  attack_names : string;            (* --list *)
  balanced : option string;
  l2 : float;
  l1 : float;
  batch_size : Z;
  data_dir : string;
  epochs : Z;
  lr_schedule_name : string;        (* --lr-schedule *)
  lr_max : float;
  lr_one_drop : float;
  lr_drop_epoch : Z;
  epsilon : Z;
  attack_iters : Z;
  restarts : Z;
  pgd_alpha : float;
  fgsm_alpha : float;
  norm : string;
  fgsm_init : string;
  fname : string;
  seed : Z;
  half : bool;
  width_factor : Z;
  resume : Z;
  cutout : bool;
  cutout_len : option Z;
  mixup : bool;
  mixup_alpha : option float;
  eval_only : bool;                 (* --eval *)
  val : bool;
  chkpt_iters : Z
}.

Definition lr_schedule_choices : list string :=
  ["superconverge"; "piecewise"; "linear"; "piecewisesmoothed";
   "piecewisezoom"; "onedrop"; "multipledecay"; "cosine"]%string.

Definition default_args : Args := {|
  model := "ResNet18";
  attack := "pgd";
  sample := 100;
  attack_names := "newtonfool_pixelattack_spatialtransformation";
  balanced := None;
  l2 := 0;
  l1 := 0;
  batch_size := 128;
  data_dir := "../cifar-data";
  epochs := 110;
  lr_schedule_name := "piecewise";
  lr_max := 0.1;
  lr_one_drop := 0.01;
  lr_drop_epoch := 100;
  epsilon := 8;
  attack_iters := 10;
  restarts := 1;
  pgd_alpha := 2;
  fgsm_alpha := 1.25;
  norm := "l_inf";
  fgsm_init := "random";
  fname := "../trained_models/";
  seed := 0;
  half := false;
  width_factor := 10;
  resume := 0;
  cutout := false;
  cutout_len := None;
  mixup := false;
  mixup_alpha := None;
  eval_only := false;
  val := false;
  chkpt_iters := 20
|}.

(** ** Learning-rate schedules *)

Section Schedules.

(** [numpy.interp(x, xp, fp)], [numpy.cos] and the floor division of
    floats are library code. *)
Variable np_interp : float -> list float -> list float -> float.
Variable np_cos : float -> float.
Variable float_floordiv : float -> float -> float.

Definition np_pi : float := 0x1.921fb54442d18p+1.

Variable args : Args.

Definition superconverge (t : float) : result float :=
  (x0 <- Py.float_of_int 0 ;;
   x1 <- Py.float_of_int (epochs args * 2 / 5) ;;
   x2 <- Py.float_of_int (epochs args) ;;
   Ok (np_interp t [x0; x1; x2] [0%float; lr_max args; 0%float]))%result.

Definition piecewise (t : float) : result float :=
  (q <- Py.truediv_fi t (epochs args) ;;
   if (q <? 0.5)%float then Ok (lr_max args)
   else
     q' <- Py.truediv_fi t (epochs args) ;;
     if (q' <? 0.75)%float then Ok (lr_max args / 10)%float
     else Ok (lr_max args / 100)%float)%result.

Definition linear (t : float) : result float :=
  (x0 <- Py.float_of_int 0 ;;
   x1 <- Py.float_of_int (epochs args / 3) ;;
   x2 <- Py.float_of_int (epochs args * 2 / 3) ;;
   x3 <- Py.float_of_int (epochs args) ;;
   y2 <- Py.truediv_fi (lr_max args) 10 ;;
   y3 <- Py.truediv_fi (lr_max args) 100 ;;
   Ok (np_interp t [x0; x1; x2; x3] [lr_max args; lr_max args; y2; y3]))%result.

Definition onedrop (t : float) : result float :=
  if Py.lt_fi t (lr_drop_epoch args) then Ok (lr_max args)
  else Ok (lr_one_drop args).

Definition multipledecay (t : float) : result float :=
  (d <- Py.float_of_int (epochs args / 10) ;;
   k <- (if (d =? 0)%float then Raise ZeroDivisionError
         else Ok (float_floordiv t d)) ;;
   s <- Py.truediv_fi (lr_max args) 10 ;;
   Ok (lr_max args - k * s)%float)%result.

Definition cosine (t : float) : result float :=
  (q <- Py.truediv_fi t (epochs args) ;;
   one <- Py.float_of_int 1 ;;
   Ok (lr_max args * 0.5 * (one + np_cos (q * np_pi)))%float)%result.

(** The [if]/[elif] chain of [main] that binds the local name
    [lr_schedule]; no branch binds it for the two remaining choices. *)
Definition lr_schedule : option (float -> result float) :=
  if String.eqb (lr_schedule_name args) "superconverge" then Some superconverge
  else if String.eqb (lr_schedule_name args) "piecewise" then Some piecewise
  else if String.eqb (lr_schedule_name args) "linear" then Some linear
  else if String.eqb (lr_schedule_name args) "onedrop" then Some onedrop
  else if String.eqb (lr_schedule_name args) "multipledecay" then Some multipledecay
  else if String.eqb (lr_schedule_name args) "cosine" then Some cosine
  else None.

(** A use of the local name [lr_schedule]: reading an unbound local
    raises, and does so before the arguments of the call are evaluated. *)
Definition lookup_lr_schedule : result (float -> result float) :=
  match lr_schedule with
  | Some f => Ok f
  | None => Raise (UnboundLocalError "lr_schedule")
  end.

End Schedules.

(** ** Tensors *)

(** Entries of image tensors are binary32 numbers. *)
Module F32.

Definition prec : Z := 24.
Definition emax : Z := 128.

Definition mul : spec_float -> spec_float -> spec_float := SFmul prec emax.
Definition add : spec_float -> spec_float -> spec_float := SFadd prec emax.
Definition eqb : spec_float -> spec_float -> bool := SFeqb.

Definition of_int (z : Z) : spec_float := binary_normalize prec emax z 0 false.

(** A binary64 number rounded to binary32. *)
Definition of_SF64 (x : spec_float) : spec_float :=
  match x with
  | S754_finite s m e => binary_round prec emax s m e
  | _ => x
  end.

Definition of_float (x : float) : spec_float := of_SF64 (Prim2SF x).

Definition is_finite (x : spec_float) : bool :=
  match x with
  | S754_zero _ | S754_finite _ _ _ => true
  | S754_infinity _ | S754_nan => false
  end.

Definition valid (x : spec_float) : bool := SpecFloat.valid_binary prec emax x.

End F32.

(** A Python scalar: [lam] is the int [1] or a float. *)
Inductive py_num : Type :=
| PyInt (z : Z)
| PyFloat (f : float).

Definition one_minus (lam : py_num) : result py_num :=
  match lam with
  | PyInt z => Ok (PyInt (1 - z))
  | PyFloat f => (one <- Py.float_of_int 1 ;; Ok (PyFloat (one - f)%float))%result
  end.

Definition f32_of_num (c : py_num) : spec_float :=
  match c with
  | PyInt z => F32.of_int z
  | PyFloat f => F32.of_float f
  end.

(** A batch of images is a list of rows, one flattened image per row; a batch
    of labels is a list of class indices. *)
Definition Tensor : Type := list (list spec_float).
Definition Labels : Type := list Z.

(** [c * x] for a Python scalar [c]. *)
Definition tensor_scale (c : py_num) (x : Tensor) : Tensor :=
  map (map (F32.mul (f32_of_num c))) x.

Fixpoint row_add (a b : list spec_float) : result (list spec_float) :=
  match a, b with
  | [], [] => Ok []
  | u :: a', v :: b' => (r <- row_add a' b' ;; Ok (F32.add u v :: r))%result
  | _, _ => Raise (RuntimeError "The size of tensor a must match the size of tensor b")
  end.

(** [x + y] on tensors of one shape; other shapes make torch broadcast or
    raise, which does not occur in this script: they raise here. *)
Fixpoint tensor_add (x y : Tensor) : result Tensor :=
  match x, y with
  | [], [] => Ok []
  | a :: x', b :: y' =>
      (r <- row_add a b ;; t <- tensor_add x' y' ;; Ok (r :: t))%result
  | _, _ => Raise (RuntimeError "The size of tensor a must match the size of tensor b")
  end.

(** [x[index]]: the rows (or labels) at the given positions. *)
Fixpoint gather {A : Type} (x : list A) (index : list nat) : result (list A) :=
  match index with
  | [] => Ok []
  | i :: rest =>
      match nth_error x i with
      | Some a => (t <- gather x rest ;; Ok (a :: t))%result
      | None => Raise IndexError
      end
  end.

(** Equality of tensors entry by entry, as [==] on floats. *)
Definition row_eqb (a b : list spec_float) : bool :=
  Nat.eqb (List.length a) (List.length b) && forallb (fun p => F32.eqb (fst p) (snd p)) (combine a b).

Definition tensor_eqb (x y : Tensor) : bool :=
  Nat.eqb (List.length x) (List.length y) && forallb (fun p => row_eqb (fst p) (snd p)) (combine x y).

Definition tensor_finite (x : Tensor) : Prop :=
  Forall (Forall (fun v => F32.is_finite v = true /\ F32.valid v = true)) x.

Definition rectangular (x : Tensor) : Prop :=
  exists d : nat, Forall (fun row => List.length row = d) x.

(** ** Mixup *)

Section Mixup.

(** The random generators: [np.random.beta(a, b)] and
    [torch.randperm(n)], each reading and advancing a generator state. *)
Variable Rng : Type.
Variable random_beta : float -> float -> Rng -> float * Rng.
Variable randperm : nat -> Rng -> list nat * Rng.

(** [alpha] is [args.mixup_alpha], which is [None] when the option is not
    given; [None > 0] is a type error. *)
Definition mixup_data (x : Tensor) (y : Labels) (alpha : option float) (g : Rng)
  : result (Tensor * Labels * Labels * py_num * Rng) :=
  match alpha with
  | None => Raise TypeError
  | Some alpha =>
      let '(lam, g1) :=
        if Py.gt_fi alpha 0
        then let '(l, g') := random_beta alpha alpha g in (PyFloat l, g')
        else (PyInt 1, g) in
      let batch_size := List.length x in
      let '(index, g2) := randperm batch_size g1 in
      (picked <- gather x index ;;
       w <- one_minus lam ;;
       mixed_x <- tensor_add (tensor_scale lam x) (tensor_scale w picked) ;;
       y_b <- gather y index ;;
       Ok (mixed_x, y, y_b, lam, g2))%result
  end.

End Mixup.

(** ** Sizes of the balanced resampling *)

Definition total : Z := 50000.

(** [[float(x)/float(sum_proportion) for x in proportion]] *)
Fixpoint normalise_by (sum_proportion : Z) (proportion : list Z) : result (list float) :=
  match proportion with
  | [] => Ok []
  | x :: rest =>
      (a <- Py.float_of_int x ;;
       b <- Py.float_of_int sum_proportion ;;
       p <- Py.truediv a b ;;
       ps <- normalise_by sum_proportion rest ;;
       Ok (p :: ps))%result
  end.

Definition sum_ints (l : list Z) : Z := fold_left Z.add l 0.

Definition normalise (proportion : list Z) : result (list float) :=
  normalise_by (sum_ints proportion) proportion.

(** One pass of the loop body that fixes [n_samples] for attack number [i]
    out of [n_attacks] (lines 309 to 316 of the script); returns [n_samples]
    and the updated [sum_samples]. *)
Definition n_samples_at (proportion : list float) (n_attacks i : nat) (sum_samples : Z)
  : result (Z * Z) :=
  if negb (Nat.eqb i (n_attacks - 1)) then
    match nth_error proportion i with
    | None => Raise IndexError
    | Some p =>
        (scaled <- Py.mul_fi p total ;;
         n_samples <- Py.int scaled ;;
         Ok (n_samples, sum_samples + n_samples))%result
    end
  else Ok (total - sum_samples, sum_samples).

(** ** Data sets and batches *)

Definition Image : Type := list spec_float.
Definition Sample : Type := (Image * Z)%type.

Record Batch : Type := { input : Tensor; target : Labels }.

(** [str(n)] and the paths built from it. *)
Definition str_of_int (z : Z) : string := NilZero.string_of_int (Z.to_int z).

(** [np.tile(data, (k, 1, 1, 1))] on the first axis. *)
Fixpoint tile {A : Type} (k : nat) (l : list A) : list A :=
  match k with
  | O => []
  | S k' => l ++ tile k' l
  end.

(** [l[:k]] *)
Definition slice_to {A : Type} (l : list A) (k : Z) : list A :=
  if 0 <=? k then firstn (Z.to_nat k) l
  else firstn (Z.to_nat (Z.of_nat (List.length l) + k)) l.

(** The batches a [DataLoader] without shuffling yields: consecutive runs of
    [batch_size] samples, the last one possibly shorter. *)
Fixpoint chunks_aux {A : Type} (bs : nat) (cur : list A) (room : nat) (l : list A)
  : list (list A) :=
  match l with
  | [] => match cur with [] => [] | _ => [rev cur] end
  | x :: rest =>
      match room with
      | O => rev cur :: chunks_aux bs [x] (bs - 1) rest
      | S r => chunks_aux bs (x :: cur) r rest
      end
  end.

Definition chunks {A : Type} (bs : nat) (l : list A) : list (list A) :=
  chunks_aux bs [] bs l.

Definition batch_of (samples : list Sample) : Batch :=
  {| input := map fst samples; target := map snd samples |}.

(** [Batches(dataset, batch_size, shuffle=False)]: the loader refuses a batch
    size that is not positive. *)
Definition Batches (dataset : list Sample) (batch_size : Z) : result (list Batch) :=
  if batch_size <=? 0
  then Raise (ValueError "batch_size should be a positive integer value")
  else Ok (map batch_of (chunks (Z.to_nat batch_size) dataset)).

(** ['bn' not in name and 'bias' not in name] *)
Fixpoint contains (sub s : string) : bool :=
  String.prefix sub s ||
  match s with
  | EmptyString => false
  | String _ rest => contains sub rest
  end.

Definition decays (name : string) : bool :=
  negb (contains "bn" name) && negb (contains "bias" name).

(** ** The optimiser *)

Record ParamGroup : Type := {
  pg_params : list string;
  pg_lr : float;
  pg_momentum : float;
  pg_weight_decay : float
}.

(** [group.update(lr=lr)] *)
Definition update_lr (lr : float) (g : ParamGroup) : ParamGroup :=
  {| pg_params := pg_params g; pg_lr := lr;
     pg_momentum := pg_momentum g; pg_weight_decay := pg_weight_decay g |}.

(** [opt.param_groups[0].update(lr=lr)] *)
Definition set_lr_of_first_group (lr : float) (groups : list ParamGroup)
  : result (list ParamGroup) :=
  match groups with
  | [] => Raise IndexError
  | g :: rest => Ok (update_lr lr g :: rest)
  end.

(** The parameter groups handed to [torch.optim.SGD(params, lr=args.lr_max,
    momentum=0.9, weight_decay=5e-4)]. *)
Definition sgd_param_groups (args : Args) (names : list string) : result (list ParamGroup) :=
  if (lr_max args <? 0)%float then Raise (ValueError "Invalid learning rate")
  else if Py.truthy (l2 args) then
    Ok [ {| pg_params := filter decays names; pg_lr := lr_max args;
            pg_momentum := 0.9; pg_weight_decay := l2 args |};
         {| pg_params := filter (fun n => negb (decays n)) names; pg_lr := lr_max args;
            pg_momentum := 0.9; pg_weight_decay := 0 |} ]
  else
    match names with
    | [] => Raise (ValueError "optimizer got an empty parameter list")
    | _ => Ok [ {| pg_params := names; pg_lr := lr_max args;
                   pg_momentum := 0.9; pg_weight_decay := 5e-4 |} ]
    end.

Definition ATTACK_LIST : list string :=
  ["pixelattack"; "spatialtransformation"; "squareattack"; "fgsm"; "deepfool";
   "bim"; "cw"; "pgd"; "autoattack"; "autopgd"; "newtonfool"]%string.

Definition TUPLE_ATTACKS : list string := ["ffgsm"; "mifgsm"; "tpgd"]%string.

Definition adv_dir (name : string) : string := ("adv_examples/" ++ name ++ "/")%string.
Definition train_path (name : string) : string := (adv_dir name ++ "train.pth")%string.
Definition test_path (name : string) : string := (adv_dir name ++ "test.pth")%string.

(** What the script does that can be seen from outside, in order. *)
Inductive event : Type :=
| EnsureDir (dir : string)
| OpenLog (path : string)
| LogInfo (msg : string)
| LogRow (epoch : Z) (lr : float) (cells : list float)
| Print (msg : string)
| PrintInt (n : Z)
| Seed (seed : Z)
| LoadCifar (train : bool)
| TorchLoad (path : string)
| CreateModel
| CreateOptimizer
| SetMode (training : bool)
| Forward (training : bool)
| OptStep
| TorchSave (path : string).

(** ** The script

    The classifier with its state, the loss with its graph, the optimiser's
    update, numpy and the random generators are used, not defined, by the
    script: they form its interface to the libraries. *)

Class Collaborators : Type := {
  Params : Type;                (* the classifier's parameters and buffers *)
  OptState : Type;              (* the optimiser's momentum buffers *)
  Logits : Type;
  Loss : Type;                  (* a scalar tensor with its graph *)
  Rng : Type;

  np_interp : float -> list float -> list float -> float;
  np_cos : float -> float;
  float_floordiv : float -> float -> float;
  str_of_float : float -> string;
  int_of_string : string -> result Z;

  seed_rng : Z -> Rng;
  random_beta : float -> float -> Rng -> float * Rng;
  randperm : nat -> Rng -> list nat * Rng;
  shuffle : list Sample -> Rng -> list Sample * Rng;
  resample : forall A : Type, list A -> Z -> result (list A);

  cifar_train : list Sample;
  cifar_test : list Sample;

  pretrained : Params;          (* resnet18(pretrained=True) *)
  init_opt_state : OptState;
  param_names : list string;    (* model.named_parameters() *)
  normalize : Tensor -> Tensor;
  forward : bool -> Params -> Tensor -> Logits * Params;
  criterion : Logits -> Labels -> Loss;
  loss_scale : py_num -> Loss -> Loss;
  loss_add : Loss -> Loss -> Loss;
  l1_term : float -> Params -> string -> Loss;
  item : Loss -> float;
  count_correct : Logits -> Labels -> Z;
  (* opt.zero_grad(); loss.backward(); opt.step() *)
  backward_step : list ParamGroup -> OptState -> Params -> Loss -> Params * OptState
}.

Section Script.

Context {C : Collaborators}.

(** *** State of the outside world *)

Record Optimizer : Type := { param_groups : list ParamGroup; opt_state : OptState }.

Record BestSnapshot : Type := {
  state_dict : Params;
  test_robust_acc : float;
  test_robust_loss : float;
  test_loss : float;
  test_acc : float
}.

Inductive file : Type :=
| AdvFile (adv : Tensor) (label : Labels)
| ModelFile (p : Params)
| OptFile (o : Optimizer)
| BestFile (b : BestSnapshot)
| ValFile (val_robust_acc : float).

(** The world: the files written by [torch.save] and read by [torch.load]
    ([fs]; directories, the log file and the downloaded data set are not
    part of it, creating them shows as events), what the run did so far,
    and the state of the random generators as the draws of the script
    itself advance it (the seed, the shuffles, [np.random.beta] and
    [torch.randperm]; what the iterators of the loaders take from the
    generator is not followed). *)
Record World : Type := {
  fs : string -> option file;
  trace : list event;
  rng : Rng
}.

(** Computations that read and change the world and may raise; the world
    reached when an exception is raised is kept. *)
Definition M (A : Type) : Type := World -> result A * World.

Definition ret {A : Type} (a : A) : M A := fun w => (Ok a, w).

Definition raise {A : Type} (e : py_exception) : M A := fun w => (Raise e, w).

Definition bind {A B : Type} (m : M A) (k : A -> M B) : M B :=
  fun w =>
    match m w with
    | (Ok a, w') => k a w'
    | (Raise e, w') => (Raise e, w')
    end.

Definition lift {A : Type} (r : result A) : M A := fun w => (r, w).

Notation "x <- m ;; k" := (bind m (fun x => k))
  (at level 61, m at next level, right associativity).
Notation "' p <- m ;; k" := (bind m (fun x => let p := x in k))
  (at level 61, p pattern, m at next level, right associativity).

Definition emit (e : event) : M unit :=
  fun w => (Ok tt, {| fs := fs w; trace := trace w ++ [e]; rng := rng w |}).

Definition torch_load (path : string) : M file :=
  fun w =>
    match fs w path with
    | Some f => (Ok f, {| fs := fs w; trace := trace w ++ [TorchLoad path]; rng := rng w |})
    | None => (Raise (FileNotFoundError path), w)
    end.

Definition torch_save (f : file) (path : string) : M unit :=
  fun w =>
    (Ok tt, {| fs := fun p => if String.eqb p path then Some f else fs w p;
               trace := trace w ++ [TorchSave path]; rng := rng w |}).

Definition with_rng {A : Type} (draw : Rng -> A * Rng) : M A :=
  fun w => let '(a, g) := draw (rng w) in
           (Ok a, {| fs := fs w; trace := trace w; rng := g |}).

Definition set_rng (g : Rng) : M unit :=
  fun w => (Ok tt, {| fs := fs w; trace := trace w; rng := g |}).

(** [for x in l: s = body(x, s)] *)
Fixpoint for_each {A S : Type} (l : list A) (body : A -> S -> M S) (s : S) : M S :=
  match l with
  | [] => ret s
  | x :: rest => s' <- body x s ;; for_each rest body s'
  end.

(** *** Assembly of the adversarial sets (lines 216 to 333) *)

Definition load_adv (path : string) : M (Tensor * Labels) :=
  f <- torch_load path ;;
  match f with
  | AdvFile adv label => ret (adv, label)
  | _ => raise (KeyError "adv")
  end.

(** The four arrays: train images and labels, test images and labels. *)
Definition AdvSets : Type := (Tensor * Labels * Tensor * Labels)%type.

(** [np.concatenate] onto what was gathered so far; the first attack
    initialises the arrays. *)
Definition concat_sets (acc : option AdvSets) (tr te : Tensor * Labels) : option AdvSets :=
  match acc with
  | None => Some (fst tr, snd tr, fst te, snd te)
  | Some (a, b, c, d) => Some (a ++ fst tr, b ++ snd tr, c ++ fst te, d ++ snd te)
  end.

Definition load_and_concat (name : string) (acc : option AdvSets) : M (option AdvSets) :=
  tr <- load_adv (train_path name) ;;
  te <- load_adv (test_path name) ;;
  ret (concat_sets acc tr te).

(** The loop of the balanced policy; the state is the index, [sum_samples]
    and the arrays. *)
Definition balanced_body (proportion : list float) (n_attacks : nat) (name : string)
  (st : nat * Z * option AdvSets) : M (nat * Z * option AdvSets) :=
  let '(i, sum_samples, acc) := st in
  tr <- load_adv (train_path name) ;;
  te <- load_adv (test_path name) ;;
  r <- lift (n_samples_at proportion n_attacks i sum_samples) ;;
  let n_samples := fst r in
  _ <- emit (Print "Sample") ;;
  _ <- emit (PrintInt n_samples) ;;
  a <- lift (resample _ (fst tr) n_samples) ;;
  b <- lift (resample _ (snd tr) n_samples) ;;
  c <- lift (resample _ (fst te) n_samples) ;;
  d <- lift (resample _ (snd te) n_samples) ;;
  ret (S i, snd r, concat_sets acc (a, b) (c, d)).

Fixpoint ints_of_strings (l : list string) : result (list Z) :=
  match l with
  | [] => Ok []
  | x :: rest =>
      (n <- int_of_string x ;; ns <- ints_of_strings rest ;; Ok (n :: ns))%result
  end.

Definition unwrap_sets (acc : option AdvSets) : M AdvSets :=
  match acc with
  | Some s => ret s
  | None => raise TypeError   (* zip(None, None) *)
  end.

Definition assemble_adv (args : Args) : M AdvSets :=
  if in_strings (attack args) ATTACK_LIST then
    tr <- load_adv (train_path (attack args)) ;;
    te <- load_adv (test_path (attack args)) ;;
    ret (fst tr, snd tr, fst te, snd te)
  else if in_strings (attack args) TUPLE_ATTACKS then
    tr <- load_adv (train_path (attack args)) ;;
    te <- load_adv (test_path (attack args)) ;;
    ret (fst tr, snd tr, fst te, snd te)
  else if String.eqb (attack args) "all" then
    acc <- for_each ATTACK_LIST load_and_concat None ;;
    unwrap_sets acc
  else if String.eqb (attack args) "combine" then
    _ <- emit (Print "Attacks") ;;
    let attacks := split_underscore (attack_names args) in
    _ <- emit (Print (attack_names args)) ;;
    match balanced args with
    | None =>
        acc <- for_each attacks load_and_concat None ;;
        unwrap_sets acc
    | Some ratios =>
        proportion <- lift (ints_of_strings (split_underscore ratios)) ;;
        proportion <- lift (normalise proportion) ;;
        st <- for_each attacks (balanced_body proportion (List.length attacks))
                (O, 0, None) ;;
        unwrap_sets (snd st)
    end
  else raise (ValueError "Unknown adversarial data").

(** *** The training step (lines 489 to 529) *)

Record TrainState : Type := {
  params : Params;
  opt : Optimizer;
  lr : option float;                 (* the local [lr], unbound before the first step *)
  best_test_robust_acc : float;
  best_val_robust_acc : float
}.

(** The running sums of an epoch's training loop. *)
Record TrainSums : Type := {
  train_loss : float;
  train_acc : Z;
  train_robust_loss : float;
  train_robust_acc : Z;
  train_n : Z
}.

Definition zero_sums : TrainSums :=
  {| train_loss := 0; train_acc := 0; train_robust_loss := 0;
     train_robust_acc := 0; train_n := 0 |}.

Definition size0 (y : Labels) : Z := Z.of_nat (List.length y).

Definition model_forward (training : bool) (p : Params) (x : Tensor) : M (Logits * Params) :=
  _ <- emit (Forward training) ;;
  ret (forward training p x).

(** [criterion(out, y)] with [criterion = nn.CrossEntropyLoss()]: the loss
    refuses an output and a target of different batch sizes; the output of
    the classifier has one row per row of its input, [rows] of them. *)
Definition apply_criterion (rows : nat) (out : Logits) (y : Labels) : result Loss :=
  if Nat.eqb rows (List.length y) then Ok (criterion out y)
  else Raise (ValueError ("Expected input batch_size (" ++ str_of_int (Z.of_nat rows)
                          ++ ") to match target batch_size ("
                          ++ str_of_int (Z.of_nat (List.length y)) ++ ")."))%string.

(** [lam * criterion(pred, y_a) + (1 - lam) * criterion(pred, y_b)] *)
Definition mixup_criterion (rows : nat) (pred : Logits) (y_a y_b : Labels) (lam : py_num)
  : result Loss :=
  (a <- apply_criterion rows pred y_a ;;
   w <- one_minus lam ;;
   b <- apply_criterion rows pred y_b ;;
   Ok (loss_add (loss_scale lam a) (loss_scale w b)))%result.

(** [robust_loss += args.l1*param.abs().sum()] over the parameters that are
    neither batch-norm nor bias. *)
Definition add_l1 (args : Args) (p : Params) (loss : Loss) : Loss :=
  if Py.truthy (l1 args)
  then fold_left (fun acc name => if decays name then loss_add acc (l1_term (l1 args) p name)
                                  else acc) param_names loss
  else loss.

(** The loss of a batch's output, with or without mixup. *)
Definition batch_loss (args : Args) (rows : nat) (out : Logits) (y : Labels)
  (mixed : option (Labels * Labels * py_num)) : result Loss :=
  match mixed with
  | Some (y_a, y_b, lam) => mixup_criterion rows out y_a y_b lam
  | None => apply_criterion rows out y
  end.

(** [lr_schedule(epoch + (i + 1) / len(train_batches))] *)
Definition scheduled_lr (args : Args) (epoch : Z) (n_batches : Z) (i : nat) : result float :=
  (schedule <- lookup_lr_schedule np_interp np_cos float_floordiv args ;;
   frac <- Py.truediv_ii (Z.of_nat i + 1) n_batches ;;
   t <- Py.add_if epoch frac ;;
   schedule t)%result.

Definition train_step (args : Args) (epoch : Z) (n_batches : Z) (i : nat)
  (batch adv_batch : Batch) (st : TrainState * TrainSums) : M (TrainState * TrainSums) :=
  let '(ts, sums) := st in
  let y := target batch in
  (* mixup replaces X and yields the two label sets *)
  xm <- (if mixup args then
           fun w =>
             match mixup_data Rng random_beta randperm (input batch) y (mixup_alpha args) (rng w) with
             | Ok (mixed_x, y_a, y_b, lam, g) =>
                 (Ok (mixed_x, Some (y_a, y_b, lam)),
                  {| fs := fs w; trace := trace w; rng := g |})
             | Raise e => (Raise e, w)
             end
         else ret (input batch, None)) ;;
  let X := fst xm in
  let mixed := snd xm in
  new_lr <- lift (scheduled_lr args epoch n_batches i) ;;
  groups <- lift (set_lr_of_first_group new_lr (param_groups (opt ts))) ;;
  (* the adversarial batch *)
  let adv_input := normalize (input adv_batch) in
  let y_adv := target adv_batch in
  ro <- model_forward true (params ts) adv_input ;;
  let robust_output := fst ro in
  robust_loss <- lift (batch_loss args (List.length (input adv_batch))
                         robust_output y mixed) ;;
  let robust_loss := add_l1 args (snd ro) robust_loss in
  (* opt.zero_grad(); robust_loss.backward(); opt.step() *)
  let stepped := backward_step groups (opt_state (opt ts)) (snd ro) robust_loss in
  _ <- emit OptStep ;;
  (* the clean batch, on the updated weights *)
  co <- model_forward true (fst stepped) (normalize X) ;;
  let output := fst co in
  loss <- lift (batch_loss args (List.length X) output y mixed) ;;
  rl <- lift (Py.mul_fi (item robust_loss) (size0 y_adv)) ;;
  cl <- lift (Py.mul_fi (item loss) (size0 y)) ;;
  ret ({| params := snd co;
          opt := {| param_groups := groups; opt_state := snd stepped |};
          lr := Some new_lr;
          best_test_robust_acc := best_test_robust_acc ts;
          best_val_robust_acc := best_val_robust_acc ts |},
       {| train_loss := (train_loss sums + cl)%float;
          train_acc := train_acc sums + count_correct output y;
          train_robust_loss := (train_robust_loss sums + rl)%float;
          train_robust_acc := train_robust_acc sums + count_correct robust_output y_adv;
          train_n := train_n sums + size0 y |}).

(** [for i, (batch, adv_batch) in enumerate(zip(train_batches,
    train_robust_batches))], with its [break] under [--eval]. *)
Fixpoint train_loop (args : Args) (epoch : Z) (n_batches : Z) (i : nat)
  (pairs : list (Batch * Batch)) (st : TrainState * TrainSums)
  : M (TrainState * TrainSums) :=
  match pairs with
  | [] => ret st
  | (batch, adv_batch) :: rest =>
      if eval_only args then ret st
      else
        st' <- train_step args epoch n_batches i batch adv_batch st ;;
        train_loop args epoch n_batches (S i) rest st'
  end.

(** The training part of one epoch. *)
Definition train_epoch (args : Args) (epoch : Z) (train_batches train_robust_batches : list Batch)
  (ts : TrainState) : M (TrainState * TrainSums) :=
  _ <- emit (SetMode true) ;;
  train_loop args epoch (Z.of_nat (List.length train_batches)) O
    (combine train_batches train_robust_batches) (ts, zero_sums).



(** *** Evaluation (lines 536 to 566) *)

Record TestSums : Type := {
  sum_test_loss : float;
  sum_test_acc : Z;
  test_n : Z;
  sum_test_robust_loss : float;
  sum_test_robust_acc : Z;
  test_robust_n : Z
}.

(** One pass over clean or adversarial test batches: loss sum, correct
    count and sample count. *)
Definition eval_batch (b : Batch) (st : Params * (float * Z * Z)) : M (Params * (float * Z * Z)) :=
  let '(p, (loss_sum, acc, n)) := st in
  o <- model_forward false p (normalize (input b)) ;;
  loss <- lift (apply_criterion (List.length (input b)) (fst o) (target b)) ;;
  l <- lift (Py.mul_fi (item loss) (size0 (target b))) ;;
  ret (snd o, ((loss_sum + l)%float, acc + count_correct (fst o) (target b),
               n + size0 (target b))).

Definition evaluate (test_batches test_robust_batches : list Batch) (p : Params)
  : M (Params * TestSums) :=
  _ <- emit (SetMode false) ;;
  c <- for_each test_batches eval_batch (p, (0%float, 0, 0)) ;;
  r <- for_each test_robust_batches eval_batch (fst c, (0%float, 0, 0)) ;;
  let '(cl, ca, cn) := snd c in
  let '(rl, ra, rn) := snd r in
  ret (fst r, {| sum_test_loss := cl; sum_test_acc := ca; test_n := cn;
                 sum_test_robust_loss := rl; sum_test_robust_acc := ra;
                 test_robust_n := rn |}).

(** The accuracy pass before the first epoch (lines 450 to 478). *)
Definition initial_batch (b : Batch) (st : Params * (Z * Z)) : M (Params * (Z * Z)) :=
  let '(p, (acc, n)) := st in
  o <- model_forward false p (normalize (input b)) ;;
  ret (snd o, (acc + count_correct (fst o) (target b), n + size0 (target b))).

Definition initial_evaluation (test_batches test_robust_batches : list Batch) (p : Params)
  : M Params :=
  _ <- emit (SetMode false) ;;
  c <- for_each test_batches initial_batch (p, (0, 0)) ;;
  _ <- lift (Py.truediv_ii (fst (snd c)) (snd (snd c))) ;;
  _ <- emit (LogInfo "Intial Accuracy on Original Test Data: %.4f (Test Acc)") ;;
  r <- for_each test_robust_batches initial_batch (fst c, (0, 0)) ;;
  _ <- lift (Py.truediv_ii (fst (snd r)) (snd (snd r))) ;;
  _ <- emit (LogInfo "Intial Accuracy on Adversarial Test Data: %.4f (Test Robust Acc)") ;;
  ret (fst r).

(** *** The epoch's log row, checkpoint and best snapshot (lines 571 to 590) *)

Definition log_row (epoch : Z) (ts : TrainState) (sums : TrainSums) (te : TestSums) : M unit :=
  lr_now <- match lr ts with
            | Some v => ret v
            | None => raise (UnboundLocalError "lr")
            end ;;
  c1 <- lift (Py.truediv_fi (train_loss sums) (train_n sums)) ;;
  c2 <- lift (Py.truediv_ii (train_acc sums) (train_n sums)) ;;
  c3 <- lift (Py.truediv_fi (train_robust_loss sums) (train_n sums)) ;;
  c4 <- lift (Py.truediv_ii (train_robust_acc sums) (train_n sums)) ;;
  c5 <- lift (Py.truediv_fi (sum_test_loss te) (test_n te)) ;;
  c6 <- lift (Py.truediv_ii (sum_test_acc te) (test_n te)) ;;
  c7 <- lift (Py.truediv_fi (sum_test_robust_loss te) (test_robust_n te)) ;;
  c8 <- lift (Py.truediv_ii (sum_test_robust_acc te) (test_robust_n te)) ;;
  emit (LogRow epoch lr_now [c1; c2; c3; c4; c5; c6; c7; c8]).

Definition save_checkpoint (args : Args) (dirname : string) (epochs_ epoch : Z)
  (ts : TrainState) : M unit :=
  due <- (if chkpt_iters args =? 0 then raise ZeroDivisionError
          else ret (((epoch + 1) mod chkpt_iters args =? 0) || (epoch + 1 =? epochs_))) ;;
  if (due : bool) then
    _ <- torch_save (ModelFile (params ts))
           (dirname ++ "model_" ++ str_of_int epoch ++ ".pth") ;;
    torch_save (OptFile (opt ts)) (dirname ++ "opt_" ++ str_of_int epoch ++ ".pth")
  else ret tt.

Definition best_path (dirname : string) : string := (dirname ++ "model_best.pth")%string.

(** [# save best] *)
Definition save_best (dirname : string) (te : TestSums) (ts : TrainState) : M TrainState :=
  acc <- lift (Py.truediv_ii (sum_test_robust_acc te) (test_robust_n te)) ;;
  if (best_test_robust_acc ts <? acc)%float then
    a <- lift (Py.truediv_ii (sum_test_robust_acc te) (test_robust_n te)) ;;
    b <- lift (Py.truediv_fi (sum_test_robust_loss te) (test_robust_n te)) ;;
    c <- lift (Py.truediv_fi (sum_test_loss te) (test_n te)) ;;
    d <- lift (Py.truediv_ii (sum_test_acc te) (test_n te)) ;;
    _ <- torch_save (BestFile {| state_dict := params ts; test_robust_acc := a;
                                 test_robust_loss := b; test_loss := c; test_acc := d |})
           (best_path dirname) ;;
    new_best <- lift (Py.truediv_ii (sum_test_robust_acc te) (test_n te)) ;;
    ret {| params := params ts; opt := opt ts; lr := lr ts;
           best_test_robust_acc := new_best;
           best_val_robust_acc := best_val_robust_acc ts |}
  else ret ts.

(** The body of [for epoch in range(start_epoch, epochs)]. *)
Definition epoch_body (args : Args) (dirname : string) (epochs_ : Z)
  (train_batches train_robust_batches test_batches test_robust_batches : list Batch)
  (epoch : Z) (ts : TrainState) : M TrainState :=
  tr <- train_epoch args epoch train_batches train_robust_batches ts ;;
  let '(ts1, sums) := tr in
  ev <- evaluate test_batches test_robust_batches (params ts1) ;;
  let ts2 := {| params := fst ev; opt := opt ts1; lr := lr ts1;
                best_test_robust_acc := best_test_robust_acc ts1;
                best_val_robust_acc := best_val_robust_acc ts1 |} in
  _ <- log_row epoch ts2 sums (snd ev) ;;
  _ <- save_checkpoint args dirname epochs_ epoch ts2 ;;
  save_best dirname (snd ev) ts2.

(** [range(a, b)] *)
Definition range (a b : Z) : list Z :=
  map (fun k => a + Z.of_nat k) (seq 0 (Z.to_nat (b - a))).

(** *** [main] *)

Definition dirname_of (args : Args) : string :=
  (fname args
   ++ (if Py.ne_fi (sample args) 100 then str_of_float (sample args) ++ "/" else "default/")
   ++ attack args ++ "/")%string.

(** Shuffle and keep [int(n * args.sample / 100)] samples, unless
    [--sample] is 100. *)
Definition subsample (args : Args) (set : list Sample) : M (list Sample) :=
  if Py.ne_fi (sample args) 100 then
    prod <- lift (Py.mul_if (Z.of_nat (List.length set)) (sample args)) ;;
    q <- lift (Py.truediv_fi prod 100) ;;
    n_sample <- lift (Py.int q) ;;
    shuffled <- with_rng (shuffle set) ;;
    ret (slice_to shuffled n_sample)
  else ret set.

Definition clean_train_set (args : Args) : M (list Sample) :=
  if String.eqb (attack args) "all" then ret (tile 11 cifar_train)
  else if String.eqb (attack args) "combine" then
    _ <- emit (LogInfo "Attacks") ;;
    _ <- emit (LogInfo (attack_names args)) ;;
    ret (tile (List.length (split_underscore (attack_names args))) cifar_train)
  else ret cifar_train.

Record Data : Type := {
  dirname : string;
  train_batches : list Batch;
  test_batches : list Batch
}.

(** Lines 113 to 223: directories, logging, seeds, the clean sets and
    their batches. *)
Definition setup (args : Args) : M Data :=
  let dir := dirname_of args in
  _ <- emit (EnsureDir dir) ;;
  _ <- emit (OpenLog (dir ++ (if eval_only args then "eval.log" else "output.log"))) ;;
  _ <- emit (LogInfo "args") ;;
  _ <- (if (seed args <? 0) || (2 ^ 32 <=? seed args)
        then raise (ValueError "Seed must be between 0 and 2**32 - 1")
        else ret tt) ;;
  _ <- emit (Seed (seed args)) ;;
  _ <- set_rng (seed_rng (seed args)) ;;
  _ <- emit (LoadCifar true) ;;
  _ <- emit (LoadCifar false) ;;
  train_set <- clean_train_set args ;;
  train_set <- subsample args train_set ;;
  _ <- emit (Print "Train Original Data: ") ;;
  _ <- emit (PrintInt (Z.of_nat (List.length train_set))) ;;
  trb <- lift (Batches train_set (batch_size args)) ;;
  teb <- lift (Batches cifar_test (batch_size args)) ;;
  ret {| dirname := dir; train_batches := trb; test_batches := teb |}.

Record Context : Type := {
  data : Data;
  train_robust_batches : list Batch;
  test_robust_batches : list Batch;
  n_epochs : Z;
  start_epoch : Z;
  state : TrainState
}.

(** [int(math.ceil(args.epochs / args.attack_iters))] *)
Definition free_epochs (args : Args) : result Z :=
  (q <- Py.truediv_ii (epochs args) (attack_iters args) ;;
   n <- Py.floor (- q)%float ;;
   Ok (- n))%result.

Definition resume_state (args : Args) (dir : string) (ts : TrainState) : M (Z * TrainState) :=
  if resume args =? 0 then ret (0, ts)
  else
    let k := str_of_int (resume args - 1) in
    mf <- torch_load (dir ++ "model_" ++ k ++ ".pth") ;;
    p <- match mf with ModelFile p => ret p | _ => raise (RuntimeError "load_state_dict") end ;;
    opf <- torch_load (dir ++ "opt_" ++ k ++ ".pth") ;;
    o <- match opf with OptFile o => ret o | _ => raise (RuntimeError "load_state_dict") end ;;
    _ <- emit (LogInfo "Resuming at epoch") ;;
    bf <- torch_load (best_path dir) ;;
    best <- match bf with
            | BestFile b => ret (test_robust_acc b)
            | _ => raise (KeyError "test_robust_acc")
            end ;;
    bv <- (if val args then
             vf <- torch_load (dir ++ "model_val.pth") ;;
             match vf with
             | ValFile v => ret v
             | _ => raise (KeyError "val_robust_acc")
             end
           else ret (best_val_robust_acc ts)) ;;
    ret (resume args,
         {| params := p; opt := o; lr := lr ts;
            best_test_robust_acc := best; best_val_robust_acc := bv |}).

(** Lines 338 to 442: the adversarial batches, the classifier, the
    optimiser, the number of epochs and the resumed state. *)
Definition prepare (args : Args) (d : Data) (sets : AdvSets) : M Context :=
  let '(train_adv_images, train_adv_labels, test_adv_images, test_adv_labels) := sets in
  train_adv_set <- subsample args (combine train_adv_images train_adv_labels) ;;
  _ <- emit (Print "Train Adv Attack Data: ") ;;
  _ <- emit (PrintInt (Z.of_nat (List.length train_adv_set))) ;;
  trb <- lift (Batches train_adv_set (batch_size args)) ;;
  teb <- lift (Batches (combine test_adv_images test_adv_labels) (batch_size args)) ;;
  _ <- emit CreateModel ;;
  _ <- emit (SetMode true) ;;
  groups <- lift (sgd_param_groups args param_names) ;;
  _ <- emit CreateOptimizer ;;
  n <- lift (if String.eqb (attack args) "free" then free_epochs args
             else Ok (epochs args)) ;;
  rs <- resume_state args (dirname d)
          {| params := pretrained;
             opt := {| param_groups := groups; opt_state := init_opt_state |};
             lr := None;
             best_test_robust_acc := 0;
             best_val_robust_acc := 0 |} ;;
  ret {| data := d; train_robust_batches := trb; test_robust_batches := teb;
         n_epochs := n; start_epoch := fst rs; state := snd rs |}.

(** Lines 450 to 590: the first accuracy pass and the epochs. *)
Definition train_and_test (args : Args) (c : Context) : M unit :=
  p <- initial_evaluation (test_batches (data c)) (test_robust_batches c)
         (params (state c)) ;;
  _ <- emit (LogInfo "Epoch Train Time Test Time LR ...") ;;
  _ <- for_each (range (start_epoch c) (n_epochs c))
         (epoch_body args (dirname (data c)) (n_epochs c)
            (train_batches (data c)) (train_robust_batches c)
            (test_batches (data c)) (test_robust_batches c))
         {| params := p; opt := opt (state c); lr := lr (state c);
            best_test_robust_acc := best_test_robust_acc (state c);
            best_val_robust_acc := best_val_robust_acc (state c) |} ;;
  ret tt.

(** Lines 444 to 448 and what follows them. *)
Definition run (args : Args) (c : Context) : M unit :=
  if eval_only args then
    if resume args =? 0 then
      emit (LogInfo "No model loaded to evaluate, specify with --resume FNAME")
    else
      _ <- emit (LogInfo "[Evaluation mode]") ;;
      train_and_test args c
  else train_and_test args c.

(** Everything up to line 442. *)
Definition preparation (args : Args) : M Context :=
  d <- setup args ;;
  sets <- assemble_adv args ;;
  prepare args d sets.

Definition main (args : Args) : M unit :=
  c <- preparation args ;;
  run args c.

End Script.

(** * Definitions used in the statements and proofs *)

(** The number of places [shr_fexp] shifts a mantissa [m] given at exponent
    [e]. *)
Definition shift (prec emax m e : Z) : Z :=
  Z.max 0 (SpecFloat.fexp prec emax (Zdigits2 m + e) - e).

(** Powers of two and the real value of a float. *)
Definition bpow (e : Z) : R := powerRZ 2 e.

Definition SF2R (x : spec_float) : R :=
  match x with
  | S754_finite s m e => ((if s then -1 else 1) * IZR (Zpos m) * bpow e)%R
  | _ => 0%R
  end.

(** The relative error of one rounding. *)
Definition eps (prec : Z) : R := bpow (1 - prec).

(** A float that is finite and positive, with its value. *)
Definition pos_finite (x : float) (v : R) : Prop :=
  exists M E, Prim2SF x = S754_finite false M E /\
              bounded prec emax M E = true /\ v = (IZR (Zpos M) * bpow E)%R.

Definition eps64 : R := eps prec.

(** A proportion: a positive finite float of moderate size. *)
Definition proportion_ok (p : float) : Prop :=
  exists v, pos_finite p v /\ (bpow (-1010) <= v <= 2)%R.

(** [p] is [float(x)/float(S)]. *)
Definition normalised_from (S : Z) (x : Z) (p : float) : Prop :=
  exists a b, Py.float_of_int x = Ok a /\ Py.float_of_int S = Ok b /\ p = (a / b)%float.

(** The binary64 product of a proportion and the total, rounded down: a
    step of the proofs between the loop and the exact shares below. *)
Definition floor_share (p : float) (n : Z) : Prop :=
  exists scaled, Py.mul_fi p total = Ok scaled /\ Py.floor scaled = Ok n.

(** The values that [n_samples_at] takes over [todo] iterations of the loop,
    from iteration [i] on. *)
Fixpoint balanced_counts_from (proportion : list float) (n_attacks : nat)
  (todo i : nat) (sum_samples : Z) : result (list Z) :=
  match todo with
  | O => Ok []
  | S todo' =>
      (r <- n_samples_at proportion n_attacks i sum_samples ;;
       rest <- balanced_counts_from proportion n_attacks todo' (S i) (snd r) ;;
       Ok (fst r :: rest))%result
  end.

(** A finite binary32 entry. *)
Definition entry_ok (v : spec_float) : Prop :=
  F32.is_finite v = true /\ F32.valid v = true.

(** Events of the phases of [main]: those of the data setup and assembly,
    and those of the whole preparation. *)
Definition data_event (e : event) : bool :=
  match e with
  | EnsureDir _ | OpenLog _ | LogInfo _ | Print _ | PrintInt _ | Seed _
  | LoadCifar _ | TorchLoad _ => true
  | _ => false
  end.

Definition prep_event (e : event) : bool :=
  match e with
  | CreateModel | CreateOptimizer | SetMode true => true
  | _ => data_event e
  end.

(** A computation that writes no file and emits only events of a given
    kind. *)
Definition quiet {C : Collaborators} {A : Type} (P : event -> bool) (m : M A) : Prop :=
  forall w : World,
    fs (snd (m w)) = fs w /\
    exists evs, trace (snd (m w)) = trace w ++ evs /\ forallb P evs = true.

Definition known_attack (name : string) : bool :=
  in_strings name ATTACK_LIST || in_strings name TUPLE_ATTACKS
  || String.eqb name "all" || String.eqb name "combine".

(** Test sums of a run whose adversarial test set is eleven times the clean
    one ([--attack all]): half of the adversarial samples are classified
    correctly in one epoch, nine tenths in the next. *)
Definition sums_epoch_1 : TestSums :=
  {| sum_test_loss := 0; sum_test_acc := 500; test_n := 1000;
     sum_test_robust_loss := 0; sum_test_robust_acc := 5500; test_robust_n := 11000 |}.

Definition sums_epoch_2 : TestSums :=
  {| sum_test_loss := 0; sum_test_acc := 500; test_n := 1000;
     sum_test_robust_loss := 0; sum_test_robust_acc := 9900; test_robust_n := 11000 |}.

(** The default command line with some options given: [--attack],
    [--lr-schedule], [--l2] and [--eval]. *)
Definition with_options (attack' schedule' : string) (l2' : float) (eval' : bool) : Args := {|
  model := model default_args; attack := attack';
  sample := sample default_args; attack_names := attack_names default_args;
  balanced := balanced default_args;
  l2 := l2';
  l1 := l1 default_args; batch_size := batch_size default_args;
  data_dir := data_dir default_args; epochs := epochs default_args;
  lr_schedule_name := schedule'; lr_max := lr_max default_args;
  lr_one_drop := lr_one_drop default_args; lr_drop_epoch := lr_drop_epoch default_args;
  epsilon := epsilon default_args; attack_iters := attack_iters default_args;
  restarts := restarts default_args; pgd_alpha := pgd_alpha default_args;
  fgsm_alpha := fgsm_alpha default_args; norm := norm default_args;
  fgsm_init := fgsm_init default_args; fname := fname default_args;
  seed := seed default_args; half := half default_args;
  width_factor := width_factor default_args; resume := resume default_args;
  cutout := cutout default_args; cutout_len := cutout_len default_args;
  mixup := mixup default_args; mixup_alpha := mixup_alpha default_args;
  eval_only := eval'; val := val default_args;
  chkpt_iters := chkpt_iters default_args
|}.

Definition args_l2 : Args := with_options "pgd" "piecewise" 0.0005 false.
Definition args_bogus : Args := with_options "bogus" "piecewise" 0 false.
Definition args_eval : Args := with_options "pgd" "piecewise" 0 true.
Definition args_zoom : Args := with_options "pgd" "piecewisezoom" 0 false.

(** A batch of one black pixel with label 0. *)
Definition tiny_batch : Batch := {| input := [[S754_zero false]]; target := [0] |}.

(** The same pixel labelled 1. *)
Definition tiny_batch_1 : Batch := {| input := [[S754_zero false]]; target := [1] |}.

(** The events of a training step that returns. *)
Definition step_events : list event := [Forward true; OptStep; Forward true].



(** ** A small instance of the interface

    A classifier that answers class 0 whatever it is shown and counts the
    updates it received, the 0-1 loss, generators that return the identity
    permutation, and data sets of two samples. *)
Definition zero_one_loss (out : Labels) (y : Labels) : float :=
  if forallb (fun p => fst p =? snd p) (combine out y) then 0%float else 1%float.

(** A decimal numeral as [int] reads it: digits, after a sign or not. *)
Fixpoint digits_value (s : string) (acc : Z) : option Z :=
  match s with
  | EmptyString => Some acc
  | String c rest =>
      let d := Z.of_nat (nat_of_ascii c) - 48 in
      if (0 <=? d) && (d <=? 9) then digits_value rest (10 * acc + d) else None
  end.

Definition int_of_decimal (s : string) : result Z :=
  let bad := Raise (ValueError "invalid literal for int() with base 10") in
  let digits (d : string) (sign : Z) :=
    match d with
    | EmptyString => bad
    | _ => match digits_value d 0 with Some n => Ok (sign * n) | None => bad end
    end in
  match s with
  | String c rest =>
      if Ascii.eqb c "-" then digits rest (-1)
      else if Ascii.eqb c "+" then digits rest 1
      else digits s 1
  | EmptyString => bad
  end.

(** [n] samples drawn from [l] by going round it, where [resample] draws
    them at random (with replacement, from the seed it is given). *)
Fixpoint go_round {A : Type} (l cur : list A) (n : nat) : list A :=
  match n with
  | O => []
  | S n' =>
      match cur with
      | x :: rest => x :: go_round l rest n'
      | [] => match l with
              | x :: rest => x :: go_round l rest n'
              | [] => []
              end
      end
  end.

Definition draw_samples (A : Type) (l : list A) (n : Z) : result (list A) :=
  match l with
  | [] => Raise (ValueError "high <= 0")
  | _ => if n <? 0 then Raise (ValueError "negative dimensions are not allowed")
         else Ok (go_round l l (Z.to_nat n))
  end.

Definition toy : Collaborators := {|
  Params := Z;
  OptState := unit;
  Logits := Labels;
  Loss := float;
  Rng := Z;
  np_interp := fun _ _ ys => hd 0%float ys;
  np_cos := fun _ => 1%float;
  float_floordiv := fun a b => (a / b)%float;
  str_of_float := fun _ => "x"%string;
  int_of_string := int_of_decimal;
  seed_rng := fun z => z;
  random_beta := fun _ _ g => (0.5%float, g + 1);
  randperm := fun n g => (seq 0 n, g + 1);
  shuffle := fun l g => (l, g + 1);
  resample := draw_samples;
  cifar_train := [([S754_zero false], 0); ([S754_zero false], 1)];
  cifar_test := [([S754_zero false], 0); ([S754_zero false], 1)];
  pretrained := 0;
  init_opt_state := tt;
  param_names := ["conv1.weight"; "bn1.weight"; "linear.bias"]%string;
  normalize := fun x => x;
  forward := fun _ p x => (map (fun _ => 0) x, p);
  criterion := zero_one_loss;
  loss_scale := fun _ l => l;
  loss_add := fun a b => (a + b)%float;
  l1_term := fun _ _ _ => 0%float;
  item := fun l => l;
  count_correct := fun out y =>
    Z.of_nat (List.length (filter (fun p => fst p =? snd p) (combine out y)));
  backward_step := fun _ o p _ => (p + 1, o)
|}.

(** A world with no file, and one with the adversarial examples of pgd. *)
Definition empty_world : @World toy :=
  @Build_World toy (fun _ => None) [] 0.

Definition pgd_files (path : string) : option (@file toy) :=
  if String.eqb path (train_path "pgd")
  then Some (AdvFile [[S754_zero false]; [S754_zero false]] [0; 1])
  else if String.eqb path (test_path "pgd")
  then Some (AdvFile [[S754_zero false]; [S754_zero false]] [0; 1])
  else None.

Definition pgd_world : @World toy :=
  @Build_World toy pgd_files [] 0.

(** The state before the first epoch, with the parameter groups of the
    command line. *)
Definition first_state (groups : list ParamGroup) : @TrainState toy :=
  @Build_TrainState toy 0 (@Build_Optimizer toy groups tt) None 0 0.

Definition one_group : list ParamGroup :=
  [ {| pg_params := ["conv1.weight"; "bn1.weight"; "linear.bias"]%string; pg_lr := 0.1;
       pg_momentum := 0.9; pg_weight_decay := 5e-4 |} ].

Definition two_groups : list ParamGroup :=
  [ {| pg_params := ["conv1.weight"]%string; pg_lr := 0.1;
       pg_momentum := 0.9; pg_weight_decay := 0.0005 |};
    {| pg_params := ["bn1.weight"; "linear.bias"]%string; pg_lr := 0.1;
       pg_momentum := 0.9; pg_weight_decay := 0 |} ].

(** A clean and an adversarial batch that can be paired: the adversarial
    batch has as many inputs as the clean batch has labels, and the clean
    batch as many inputs as labels. *)
Definition matched (batch adv_batch : Batch) : Prop :=
  List.length (input adv_batch) = List.length (target batch) /\
  List.length (input batch) = List.length (target batch).

(** The share of [total] that a ratio [r] out of a sum [S] stands for, in
    exact arithmetic, and a count [c] that is this share rounded down: [c]
    is [floor(r * total / S)], or one less, which can only be when
    [r * total / S] is a whole number. *)
Definition share_of (S r c : Z) : Prop :=
  r * total / S - 1 <= c <= r * total / S /\
  ((r * total) mod S <> 0 -> c = r * total / S).

(** What [resample] returned, for a call that returned. *)
Definition resampled {C : Collaborators} {A : Type} (l : list A) (n : Z) : list A :=
  match resample A l n with
  | Ok r => r
  | Raise _ => []
  end.

(** The events of the balanced loop over the attacks [names] when the sizes
    are [counts], and the arrays it builds from the files' arrays. *)
Definition balanced_events (names : list string) (counts : list Z) : list event :=
  flat_map (fun nc => [TorchLoad (train_path (fst nc)); TorchLoad (test_path (fst nc));
                       Print "Sample"; PrintInt (snd nc)])
           (combine names counts).

Definition balanced_sets {C : Collaborators}
  (tr_x : string -> Tensor) (tr_y : string -> Labels)
  (te_x : string -> Tensor) (te_y : string -> Labels)
  (names : list string) (counts : list Z) : AdvSets :=
  (flat_map (fun nc => resampled (tr_x (fst nc)) (snd nc)) (combine names counts),
   flat_map (fun nc => resampled (tr_y (fst nc)) (snd nc)) (combine names counts),
   flat_map (fun nc => resampled (te_x (fst nc)) (snd nc)) (combine names counts),
   flat_map (fun nc => resampled (te_y (fst nc)) (snd nc)) (combine names counts)).

(** ** Concrete inputs and the results expected of them *)

(** A batch of two rows and a generator whose permutation swaps them. *)
Definition two_rows : Tensor :=
  [[F32.of_int 1; F32.of_int 2]; [F32.of_int 3; F32.of_int 4]].

Definition swapping (n : nat) (g : Z) : list nat * Z := (rev (seq 0 n), g + 1).

(** The first step of the default command line, on a clean batch labelled 0
    and an adversarial batch labelled 1; the classifier answers 0. *)
Definition first_step : result (@TrainState toy * TrainSums) * @World toy :=
  @train_step toy default_args 0 1 0 tiny_batch tiny_batch_1
    (first_state one_group, zero_sums) empty_world.

Definition after_first_step : @TrainState toy :=
  @Build_TrainState toy 1 (@Build_Optimizer toy one_group tt) (Some 0.1%float) 0 0.

Definition sums_first_step : TrainSums :=
  {| train_loss := 0; train_acc := 1; train_robust_loss := 0; train_robust_acc := 0;
     train_n := 1 |}.

Definition world_first_step : @World toy := @Build_World toy (fun _ => None) step_events 0.

(** The first step of epoch 100 with [--l2 0.0005]: the schedule gives
    0.001. *)
Definition l2_step : result (@TrainState toy * TrainSums) * @World toy :=
  @train_step toy args_l2 100 1 0 tiny_batch tiny_batch
    (first_state two_groups, zero_sums) empty_world.

Definition after_l2_step : @TrainState toy :=
  @Build_TrainState toy 1
    (@Build_Optimizer toy
       [ {| pg_params := ["conv1.weight"%string]; pg_lr := 0.001;
            pg_momentum := 0.9; pg_weight_decay := 0.0005 |};
         {| pg_params := ["bn1.weight"; "linear.bias"]%string; pg_lr := 0.1;
            pg_momentum := 0.9; pg_weight_decay := 0 |} ] tt)
    (Some 0.001%float) 0 0.

Definition sums_l2_step : TrainSums :=
  {| train_loss := 0; train_acc := 1; train_robust_loss := 0; train_robust_acc := 1;
     train_n := 1 |}.

Definition prepared : result (@Context toy) * @World toy := @preparation toy args_eval pgd_world.

Definition prepared_context : @Context toy :=
  {| data := {| dirname := "../trained_models/default/pgd/";
                train_batches := [batch_of (@cifar_train toy)];
                test_batches := [batch_of (@cifar_test toy)] |};
     train_robust_batches := [batch_of (@cifar_train toy)];
     test_robust_batches := [batch_of (@cifar_test toy)];
     n_epochs := 110;
     start_epoch := 0;
     state := first_state one_group |}.

Definition prepared_trace : list event :=
  [EnsureDir "../trained_models/default/pgd/";
   OpenLog "../trained_models/default/pgd/eval.log";
   LogInfo "args"; Seed 0; LoadCifar true; LoadCifar false;
   Print "Train Original Data: "; PrintInt 2;
   TorchLoad "adv_examples/pgd/train.pth";
   TorchLoad "adv_examples/pgd/test.pth";
   Print "Train Adv Attack Data: "; PrintInt 2; CreateModel;
   SetMode true; CreateOptimizer].

Definition prepared_world : @World toy := @Build_World toy pgd_files prepared_trace 0.

(** ** The balanced assembly at concrete inputs *)

(** The command line [--attack combine --list names --balanced ratios
    --batch-size size]. *)
Definition combine_args (names ratios : string) (size : Z) : Args := {|
  model := model default_args; attack := "combine";
  sample := sample default_args; attack_names := names;
  balanced := Some ratios;
  l2 := l2 default_args;
  l1 := l1 default_args; batch_size := size;
  data_dir := data_dir default_args; epochs := epochs default_args;
  lr_schedule_name := lr_schedule_name default_args; lr_max := lr_max default_args;
  lr_one_drop := lr_one_drop default_args; lr_drop_epoch := lr_drop_epoch default_args;
  epsilon := epsilon default_args; attack_iters := attack_iters default_args;
  restarts := restarts default_args; pgd_alpha := pgd_alpha default_args;
  fgsm_alpha := fgsm_alpha default_args; norm := norm default_args;
  fgsm_init := fgsm_init default_args; fname := fname default_args;
  seed := seed default_args; half := half default_args;
  width_factor := width_factor default_args; resume := resume default_args;
  cutout := cutout default_args; cutout_len := cutout_len default_args;
  mixup := mixup default_args; mixup_alpha := mixup_alpha default_args;
  eval_only := eval_only default_args; val := val default_args;
  chkpt_iters := chkpt_iters default_args
|}.

Definition args_9_1_1 : Args := combine_args "pgd_fgsm_bim" "9_1_1" 128.
Definition args_29_71 : Args := combine_args "pgd_fgsm" "29_71" 128.


(** Adversarial examples of two samples for each of the attacks [names]. *)
Definition two_pixels : Tensor := [[S754_zero false]; [S754_zero false]].

Definition attack_files (names : list string) (path : string) : option (@file toy) :=
  if existsb (fun name => String.eqb path (train_path name) || String.eqb path (test_path name))
       names
  then Some (AdvFile two_pixels [0; 1])
  else None.

Definition attacks_world (names : list string) : @World toy :=
  @Build_World toy (attack_files names) [] 0.



(** The sizes a run printed, and the numbers of clean and of adversarial
    training batches of a preparation that returned. *)
Definition printed_counts (events : list event) : list Z :=
  flat_map (fun e => match e with PrintInt n => [n] | _ => [] end) events.


(** ** Further definitions for the statements about the script *)

(** Events of an evaluation pass, and of a training loop. *)
Definition eval_event (e : event) : bool :=
  match e with
  | SetMode false | Forward false => true
  | _ => false
  end.

Definition train_event (e : event) : bool :=
  match e with
  | Forward true | OptStep => true
  | _ => false
  end.

(** The number of samples in some batches. *)
Definition total_size (batches : list Batch) : Z :=
  sum_ints (map (fun b => Z.of_nat (List.length (target b))) batches).

(** The classifier after forward passes in evaluation mode over the batches
    [bs], in order, and a batch with one label for each input. *)
Definition after_batches {C : Collaborators} (p : Params) (bs : list Batch) : Params :=
  fold_left (fun q b => snd (forward false q (normalize (input b)))) bs p.

Definition labelled (b : Batch) : Prop := List.length (input b) = List.length (target b).

(** The world after [model.train()]. *)
Definition in_train_mode {C : Collaborators} (w : World) : World :=
  {| fs := fs w; trace := trace w ++ [SetMode true]; rng := rng w |}.

(** A computation whose events all satisfy [P], and one whose results all
    satisfy [Q]. *)
Definition emits {C : Collaborators} {A : Type} (P : event -> bool) (m : M A) : Prop :=
  forall w : World,
    exists evs, trace (snd (m w)) = trace w ++ evs /\ forallb P evs = true.

Definition returns {C : Collaborators} {A : Type} (Q : A -> Prop) (m : M A) : Prop :=
  forall (w w' : World) (a : A), m w = (Ok a, w') -> Q a.

(** An event that is no [torch.save], or one to a path that starts with
    [dir]. *)
Definition saves_under (dir : string) (e : event) : bool :=
  match e with
  | TorchSave p => String.prefix dir p
  | _ => true
  end.

(** [sub in s] for strings, as a statement. *)
Definition occurs_in (sub s : string) : Prop :=
  exists a b : string, s = (a ++ sub ++ b)%string.

(** The events of loading the two files of each attack, in order. *)
Definition load_events (names : list string) : list event :=
  flat_map (fun name => [TorchLoad (train_path name); TorchLoad (test_path name)]) names.

(** The files of the attacks [names] hold the given arrays. *)
Definition holds_attacks {C : Collaborators} (w : World) (names : list string)
  (tr_x : string -> Tensor) (tr_y : string -> Labels)
  (te_x : string -> Tensor) (te_y : string -> Labels) : Prop :=
  forall name, In name names ->
    fs w (train_path name) = Some (AdvFile (tr_x name) (tr_y name)) /\
    fs w (test_path name) = Some (AdvFile (te_x name) (te_y name)).

(** Events that change neither the classifier nor a file: everything but an
    optimiser step, a forward pass in training mode and a save. *)
Definition calm_event (e : event) : bool :=
  match e with
  | OptStep | Forward true | TorchSave _ => false
  | _ => true
  end.

(** ** Further concrete inputs *)

(** A command line with [--mixup] or [--resume] given. *)
Definition with_training (base : Args) (mixup' : bool) (resume' : Z) : Args := {|
  model := model base; attack := attack base;
  sample := sample base; attack_names := attack_names base;
  balanced := balanced base;
  l2 := l2 base;
  l1 := l1 base; batch_size := batch_size base;
  data_dir := data_dir base; epochs := epochs base;
  lr_schedule_name := lr_schedule_name base; lr_max := lr_max base;
  lr_one_drop := lr_one_drop base; lr_drop_epoch := lr_drop_epoch base;
  epsilon := epsilon base; attack_iters := attack_iters base;
  restarts := restarts base; pgd_alpha := pgd_alpha base;
  fgsm_alpha := fgsm_alpha base; norm := norm base;
  fgsm_init := fgsm_init base; fname := fname base;
  seed := seed base; half := half base;
  width_factor := width_factor base; resume := resume';
  cutout := cutout base; cutout_len := cutout_len base;
  mixup := mixup'; mixup_alpha := mixup_alpha base;
  eval_only := eval_only base; val := val base;
  chkpt_iters := chkpt_iters base
|}.

Definition args_mixup : Args := with_training default_args true 0.
Definition args_decay : Args := with_options "pgd" "multipledecay" 0 false.

(** A world that holds a best snapshot in the directory [run/], and the
    world after the checkpoint of epoch 19 was written there. *)
Definition a_best_snapshot : @BestSnapshot toy :=
  @Build_BestSnapshot toy 7 0.25 0 0 0.5.



Definition trained_state : @TrainState toy :=
  @Build_TrainState toy 3 (@Build_Optimizer toy one_group tt) (Some 0.1%float) 0.25 0.


(** The sums of an evaluation of the tiny batches, and the world after it. *)
Definition tiny_test_sums : TestSums :=
  {| sum_test_loss := 0; sum_test_acc := 2; test_n := 2;
     sum_test_robust_loss := 1; sum_test_robust_acc := 0; test_robust_n := 1 |}.

Definition evaluated_world : @World toy :=
  @Build_World toy (fun _ => None)
    [SetMode false; Forward false; Forward false; Forward false] 0.

(** The world after an epoch of one step. *)
Definition world_first_epoch : @World toy :=
  @Build_World toy (fun _ => None) (SetMode true :: step_events) 0.

(** An evaluation run that resumes at epoch 20, and a world that holds the
    checkpoint of epoch 19 in its directory. *)
Definition args_eval_resume : Args := with_training args_eval false 20.

Definition resumable_files (path : string) : option (@file toy) :=
  if String.eqb path "../trained_models/default/pgd/model_19.pth"
  then Some (@ModelFile toy 3)
  else if String.eqb path "../trained_models/default/pgd/opt_19.pth"
  then Some (OptFile (@Build_Optimizer toy one_group tt))
  else if String.eqb path (best_path "../trained_models/default/pgd/")
  then Some (BestFile a_best_snapshot)
  else pgd_files path.

Definition resumable_world : @World toy := @Build_World toy resumable_files [] 0.

(** The paths of the saves among some events. *)
Definition saved_paths (events : list event) : list string :=
  flat_map (fun e => match e with TorchSave p => [p] | _ => [] end) events.

(** * Proofs *)

(** ** Rounding: mantissas *)

Section Rounding.
Variables prec emax : Z.
Hypothesis Hprec : 0 < prec.
Hypothesis Hmax : prec < emax.

Abbreviation fexp := (SpecFloat.fexp prec emax).
Abbreviation emin := (SpecFloat.emin prec emax).

Lemma pow2_pred (d : Z) : 0 < d -> 2 ^ d = 2 * 2 ^ (d - 1).
Proof.
  intros H. replace d with (Z.succ (d - 1)) at 1 by lia.
  apply Z.pow_succ_r. lia.
Qed.

Lemma digits2_pos_bounds (p : positive) :
  2 ^ (Zpos (digits2_pos p) - 1) <= Zpos p < 2 ^ Zpos (digits2_pos p).
Proof.
  induction p as [p IH | p IH |]; cbn [digits2_pos].
  - rewrite Pos2Z.inj_succ.
    replace (Z.succ (Zpos (digits2_pos p)) - 1) with (Zpos (digits2_pos p)) by lia.
    rewrite (pow2_pred (Z.succ _)) by lia.
    replace (Z.succ (Zpos (digits2_pos p)) - 1) with (Zpos (digits2_pos p)) by lia.
    rewrite (pow2_pred (Zpos (digits2_pos p))) in * by lia. lia.
  - rewrite Pos2Z.inj_succ.
    replace (Z.succ (Zpos (digits2_pos p)) - 1) with (Zpos (digits2_pos p)) by lia.
    rewrite (pow2_pred (Z.succ _)) by lia.
    replace (Z.succ (Zpos (digits2_pos p)) - 1) with (Zpos (digits2_pos p)) by lia.
    rewrite (pow2_pred (Zpos (digits2_pos p))) in * by lia. lia.
  - cbn. lia.
Qed.

Lemma Zdigits2_bounds (m : Z) :
  0 < m -> 2 ^ (Zdigits2 m - 1) <= m < 2 ^ Zdigits2 m.
Proof.
  destruct m as [|p|p]; try lia. intros _. apply digits2_pos_bounds.
Qed.

Lemma Zdigits2_pos (m : Z) : 0 < m -> 0 < Zdigits2 m.
Proof. destruct m; cbn; lia. Qed.

Lemma Zdigits2_unique (m d : Z) :
  2 ^ (d - 1) <= m < 2 ^ d -> 0 < m -> Zdigits2 m = d.
Proof.
  intros H Hm.
  pose proof (Zdigits2_bounds m Hm) as B.
  pose proof (Zdigits2_pos m Hm) as P.
  assert (0 < d) as Hd.
  { destruct (Z.lt_trichotomy d 0) as [L | [E | G]]; auto.
    - rewrite (Z.pow_neg_r 2 d) in H by lia. lia.
    - subst d. cbn in H. lia. }
  destruct (Z.lt_trichotomy (Zdigits2 m) d) as [L | [E | G]]; auto.
  - assert (2 ^ Zdigits2 m <= 2 ^ (d - 1)) by (apply Z.pow_le_mono_r; lia). lia.
  - assert (2 ^ d <= 2 ^ (Zdigits2 m - 1)) by (apply Z.pow_le_mono_r; lia). lia.
Qed.

(** Shifting right. *)

Lemma shr_1_m (r : shr_record) :
  0 <= shr_m r -> shr_m (shr_1 r) = shr_m r / 2.
Proof.
  destruct r as [m r s]. cbn [shr_m shr_1]. intros Hm.
  destruct m as [|p|p]; try lia.
  - reflexivity.
  - destruct p as [p|p|]; cbn [shr_m].
    + rewrite Pos2Z.inj_xI.
      apply (Z.div_unique (2 * Zpos p + 1) 2 (Zpos p) 1); lia.
    + rewrite Pos2Z.inj_xO.
      apply (Z.div_unique (2 * Zpos p) 2 (Zpos p) 0); lia.
    + reflexivity.
Qed.

Lemma pow2_double (a : Z) : 0 <= a -> 2 ^ a * 2 ^ a = 2 ^ (2 * a).
Proof. intros. rewrite <- Z.pow_add_r by lia. f_equal. lia. Qed.

Lemma iter_pos_shr_1_m (p : positive) :
  forall r, 0 <= shr_m r ->
    shr_m (iter_pos shr_1 p r) = shr_m r / 2 ^ Zpos p.
Proof.
  assert (P2 : forall a, 0 <= a -> 0 < 2 ^ a) by (intros; apply Z.pow_pos_nonneg; lia).
  induction p as [p IH | p IH |]; intros r Hr; cbn [iter_pos].
  - assert (0 <= shr_m (shr_1 r)) by (rewrite shr_1_m by lia; apply Z.div_pos; lia).
    assert (0 <= shr_m (iter_pos shr_1 p (shr_1 r)))
      by (rewrite IH by lia; apply Z.div_pos; [lia | apply P2; lia]).
    rewrite IH, IH, shr_1_m by lia.
    pose proof (P2 (Zpos p) ltac:(lia)).
    rewrite !Z.div_div by lia.
    replace (2 ^ Zpos p~1) with (2 * (2 ^ Zpos p * 2 ^ Zpos p)).
    + reflexivity.
    + rewrite pow2_double, Pos2Z.inj_xI, Z.pow_add_r by lia. lia.
  - assert (0 <= shr_m (iter_pos shr_1 p r))
      by (rewrite IH by lia; apply Z.div_pos; [lia | apply P2; lia]).
    rewrite IH, IH by lia.
    pose proof (P2 (Zpos p) ltac:(lia)).
    rewrite !Z.div_div by lia.
    replace (2 ^ Zpos p~0) with (2 ^ Zpos p * 2 ^ Zpos p).
    + reflexivity.
    + rewrite pow2_double, Pos2Z.inj_xO by lia. reflexivity.
  - rewrite shr_1_m by lia. reflexivity.
Qed.

Lemma shr_record_of_loc_m m l : shr_m (shr_record_of_loc m l) = m.
Proof. destruct l as [|[]]; reflexivity. Qed.

Lemma shr_fexp_spec m e l :
  0 <= m ->
  shr_m (fst (shr_fexp prec emax m e l)) = m / 2 ^ shift prec emax m e /\
  snd (shr_fexp prec emax m e l) = e + shift prec emax m e.
Proof.
  intros Hm. unfold shr_fexp, shr, shift.
  destruct (fexp (Zdigits2 m + e) - e) as [|p|p] eqn:E; cbn [fst snd].
  - rewrite shr_record_of_loc_m. cbn. rewrite Z.div_1_r. split; lia.
  - rewrite iter_pos_shr_1_m by (rewrite shr_record_of_loc_m; lia).
    rewrite shr_record_of_loc_m.
    replace (Z.max 0 (Zpos p)) with (Zpos p) by lia. split; lia.
  - rewrite shr_record_of_loc_m.
    replace (Z.max 0 (Zneg p)) with 0 by lia. cbn. rewrite Z.div_1_r. split; lia.
Qed.

Lemma round_nearest_even_cases m l :
  round_nearest_even m l = m \/ round_nearest_even m l = m + 1.
Proof.
  destruct l as [|[]]; cbn; auto. destruct (Z.even m); auto.
Qed.

Lemma pow2_pos (a : Z) : 0 <= a -> 0 < 2 ^ a.
Proof. intros. apply Z.pow_pos_nonneg; lia. Qed.

Lemma pow2_split (a b : Z) : 0 <= b <= a -> 2 ^ a = 2 ^ (a - b) * 2 ^ b.
Proof. intros. rewrite <- Z.pow_add_r by lia. f_equal. lia. Qed.

Lemma div_pow2_bounds (m n : Z) :
  0 <= m -> 0 <= n -> (m / 2 ^ n) * 2 ^ n <= m < (m / 2 ^ n + 1) * 2 ^ n.
Proof.
  intros Hm Hn. pose proof (pow2_pos n Hn) as P.
  pose proof (Z.div_mod m (2 ^ n) ltac:(lia)) as D.
  pose proof (Z.mod_pos_bound m (2 ^ n) P) as B. nia.
Qed.

Lemma Zdigits2_div_pow2 (m n : Z) :
  0 < m -> 0 <= n -> 0 < m / 2 ^ n ->
  Zdigits2 (m / 2 ^ n) = Zdigits2 m - n.
Proof.
  intros Hm Hn Hlo.
  pose proof (Zdigits2_bounds m Hm) as [B1 B2].
  pose proof (Zdigits2_pos m Hm) as Hd.
  pose proof (div_pow2_bounds m n ltac:(lia) Hn) as [Q1 Q2].
  pose proof (pow2_pos n Hn) as P.
  assert (n < Zdigits2 m) as Hnd.
  { destruct (Z.lt_ge_cases n (Zdigits2 m)) as [|G]; auto.
    assert (2 ^ Zdigits2 m <= 2 ^ n) by (apply Z.pow_le_mono_r; lia). nia. }
  apply Zdigits2_unique; auto. split.
  - apply Z.div_le_lower_bound; auto.
    rewrite Z.mul_comm, <- Z.pow_add_r by lia.
    replace (Zdigits2 m - n - 1 + n) with (Zdigits2 m - 1) by lia. exact B1.
  - apply Z.div_lt_upper_bound; auto.
    rewrite <- Z.pow_add_r by lia.
    replace (n + (Zdigits2 m - n)) with (Zdigits2 m) by lia. exact B2.
Qed.

Lemma Zdigits2_succ (k : Z) :
  0 < k ->
  Zdigits2 (k + 1) = Zdigits2 k \/
  (Zdigits2 (k + 1) = Zdigits2 k + 1 /\ k + 1 = 2 ^ Zdigits2 k).
Proof.
  intros Hk. pose proof (Zdigits2_bounds k Hk) as [B1 B2].
  pose proof (Zdigits2_pos k Hk) as Hd.
  destruct (Z.eq_dec (k + 1) (2 ^ Zdigits2 k)) as [E | N].
  - right. split; auto. apply Zdigits2_unique; try lia.
    replace (Zdigits2 k + 1 - 1) with (Zdigits2 k) by lia.
    rewrite (pow2_pred (Zdigits2 k + 1)) by lia.
    replace (Zdigits2 k + 1 - 1) with (Zdigits2 k) by lia. lia.
  - left. apply Zdigits2_unique; lia.
Qed.

(** What [binary_round_aux] returns on a mantissa [m > 0] given with an
    exponent [e] no larger than the canonical one: the mantissa loses
    [n = fexp (digits m + e) - e] bits, is then either kept or incremented,
    and the result carries that integer [k] at the exponent [e + n]. *)
Lemma binary_round_aux_spec (s : bool) (m e : Z) (l : location) :
  0 < m ->
  e <= fexp (Zdigits2 m + e) ->
  let n := fexp (Zdigits2 m + e) - e in
  let lo := m / 2 ^ n in
  exists k : Z,
    (k = lo \/ k = lo + 1) /\
    match binary_round_aux prec emax s m e l with
    | S754_zero s' => s' = s /\ k = 0
    | S754_finite s' M E =>
        s' = s /\ e + n <= E <= e + n + 1 /\
        Zpos M * 2 ^ (E - (e + n)) = k /\
        bounded prec emax M E = true
    | S754_infinity s' => s' = s /\ emax < Zdigits2 k + (e + n)
    | S754_nan => False
    end.
Proof.
  intros Hm He n lo.
  assert (Hn : 0 <= n) by (unfold n; lia).
  assert (Hsh : shift prec emax m e = n) by (unfold shift, n; lia).
  unfold binary_round_aux.
  destruct (shr_fexp_spec m e l ltac:(lia)) as [S1 S2].
  destruct (shr_fexp prec emax m e l) as [mrs' e'] eqn:E1. cbn [fst snd] in S1, S2.
  rewrite Hsh in S1, S2. fold lo in S1.
  set (k := round_nearest_even (shr_m mrs') (loc_of_shr_record mrs')).
  assert (Hlo : 0 <= lo) by (apply Z.div_pos; [lia | apply pow2_pos; lia]).
  assert (Hk : k = lo \/ k = lo + 1)
    by (unfold k; rewrite <- S1; apply round_nearest_even_cases).
  assert (Hk0 : 0 <= k) by lia.
  destruct (shr_fexp_spec k e' loc_Exact Hk0) as [T1 T2].
  destruct (shr_fexp prec emax k e' loc_Exact) as [mrs'' e''] eqn:E2.
  cbn [fst snd] in T1, T2.
  exists k. split; [exact Hk|].
  pose proof (Zdigits2_bounds m Hm) as [B1 B2].
  pose proof (Zdigits2_pos m Hm) as Hd.
  pose proof (div_pow2_bounds m n ltac:(lia) Hn) as [Q1 Q2]. fold lo in Q1, Q2.
  pose proof (pow2_pos n Hn) as P.
  (* the exponent after the first shift is the canonical one *)
  assert (He' : e' = fexp (Zdigits2 m + e)) by (unfold n in S2; lia).
  destruct (Z.eq_dec k 0) as [K0 | K0].
  - (* everything was shifted out and rounded down *)
    subst k. rewrite K0 in *. 
    assert (shift prec emax 0 e' = 0) as Z0.
    { unfold shift. cbn [Zdigits2]. rewrite He'.
      unfold SpecFloat.fexp, SpecFloat.emin in *. lia. }
    rewrite Z0 in T1. cbn in T1. rewrite T1. auto.
  - assert (Hkpos : 0 < k) by lia.
    (* digits of k and the second shift *)
    assert (Hdk : (Zdigits2 k + e' = Zdigits2 m + e /\ shift prec emax k e' = 0) \/
                  (Zdigits2 k + e' = Zdigits2 m + e + 1 /\ shift prec emax k e' = 0 /\
                     fexp (Zdigits2 k + e') = e') \/
                  (Zdigits2 k + e' = Zdigits2 m + e + 1 /\ shift prec emax k e' = 1 /\
                     fexp (Zdigits2 k + e') = e' + 1 /\ k = 2 * (k / 2) /\
                     Zdigits2 (k / 2) = Zdigits2 k - 1) \/
                  (lo = 0 /\ k = 1 /\ shift prec emax k e' = 0 /\ fexp (Zdigits2 k + e') = e' /\ e' = emin)).
    { destruct (Z.eq_dec lo 0) as [L0 | L0].
      - right; right; right.
        assert (k = 1) by lia. subst k. rewrite H in *.
        assert (Zdigits2 m <= n).
        { destruct (Z.lt_ge_cases n (Zdigits2 m)) as [G|]; auto.
          assert (2 ^ n <= 2 ^ (Zdigits2 m - 1)) by (apply Z.pow_le_mono_r; lia).
          nia. }
        assert (fexp (Zdigits2 m + e) = emin)
          by (unfold n, SpecFloat.fexp, SpecFloat.emin in *; lia).
        unfold shift. cbn [Zdigits2 digits2_pos].
        unfold SpecFloat.fexp, SpecFloat.emin in *. repeat split; lia.
      - assert (Hlopos : 0 < lo) by lia.
        pose proof (Zdigits2_div_pow2 m n Hm Hn Hlopos) as Dlo. fold lo in Dlo.
        destruct Hk as [Hk | Hk].
        + left. rewrite Hk, Dlo. unfold shift. rewrite Dlo.
          replace (Zdigits2 m - n + e') with (Zdigits2 m + e) by lia. lia.
        + destruct (Zdigits2_succ lo Hlopos) as [D | [D Epow]].
          * left. rewrite Hk, D, Dlo. unfold shift. rewrite D, Dlo.
            replace (Zdigits2 m - n + e') with (Zdigits2 m + e) by lia. lia.
          * right.
            assert (Zdigits2 k + e' = Zdigits2 m + e + 1) as Dk
              by (rewrite Hk, D, Dlo; lia).
            destruct (Z.eq_dec (fexp (Zdigits2 m + e + 1)) e') as [F | F].
            -- left. unfold shift. rewrite Dk. repeat split; lia.
            -- right. left.
               assert (fexp (Zdigits2 m + e + 1) = e' + 1)
                 by (unfold SpecFloat.fexp, SpecFloat.emin in *; lia).
               pose proof (Zdigits2_pos lo Hlopos) as Hdl.
               assert (k = 2 * 2 ^ (Zdigits2 lo - 1)) as K2
                 by (rewrite Hk, Epow; apply pow2_pred; lia).
               assert (k / 2 = 2 ^ (Zdigits2 lo - 1)) as Kh
                 by (rewrite K2, Z.mul_comm, Z.div_mul; lia).
               unfold shift. rewrite Dk. repeat split; try lia.
               rewrite Kh, Hk, D.
               apply Zdigits2_unique.
               ++ replace (Zdigits2 lo + 1 - 1) with (Zdigits2 lo) by lia.
                  rewrite (pow2_pred (Zdigits2 lo)) by lia.
                  pose proof (pow2_pos (Zdigits2 lo - 1) ltac:(lia)). lia.
               ++ apply pow2_pos. lia. }
    assert (Hbounded : forall M E, Zpos M * 2 ^ (E - e') = k ->
               fexp (Zdigits2 (Zpos M) + E) = E -> E <= emax - prec ->
               bounded prec emax M E = true).
    { intros M E _ C L. unfold bounded, canonical_mantissa.
      cbn [Zdigits2] in C. rewrite C, Z.eqb_refl. cbn. apply Z.leb_le. exact L. }
    destruct Hdk as [[D Sh] | [[D [Sh F]] | [[D [Sh [F [Ev Dh]]]] | [L0 [K1 [Sh [F Em]]]]]]];
      rewrite Sh in T1, T2.
    + (* same number of digits *)
      cbn in T1. rewrite Z.div_1_r in T1. rewrite T1.
      destruct k as [|M|M] eqn:EK; try lia.
      rewrite T2, Z.add_0_r. clear T2.
      destruct (Z.leb_spec e' (emax - prec)) as [L | L].
      * repeat split; try lia.
        -- replace (e' - (e + n)) with 0 by lia. rewrite Z.pow_0_r. lia.
        -- apply Hbounded; try lia.
           ++ replace (e' - e') with 0 by lia. rewrite Z.pow_0_r. lia.
           ++ rewrite D. lia.
      * split; auto. unfold SpecFloat.fexp, SpecFloat.emin in *. lia.
    + cbn in T1. rewrite Z.div_1_r in T1. rewrite T1.
      destruct k as [|M|M] eqn:EK; try lia.
      rewrite T2, Z.add_0_r. clear T2.
      destruct (Z.leb_spec e' (emax - prec)) as [L | L].
      * repeat split; try lia.
        -- replace (e' - (e + n)) with 0 by lia. rewrite Z.pow_0_r. lia.
        -- apply Hbounded; try lia.
           replace (e' - e') with 0 by lia. rewrite Z.pow_0_r. lia.
      * split; auto. unfold SpecFloat.fexp, SpecFloat.emin in *. lia.
    + (* the increment reached the next power of two *)
      change (2 ^ 1) with 2 in T1. rewrite T1.
      assert (0 < k / 2) by lia.
      destruct (k / 2) as [|M|M] eqn:EK; try lia.
      rewrite T2. clear T2.
      destruct (Z.leb_spec (e' + 1) (emax - prec)) as [L | L].
      * repeat split; try lia.
        -- replace (e' + 1 - (e + n)) with 1 by lia. rewrite Z.pow_1_r. lia.
        -- apply Hbounded; try lia.
           ++ replace (e' + 1 - e') with 1 by lia. rewrite Z.pow_1_r. lia.
           ++ rewrite Dh. replace (Zdigits2 k - 1 + (e' + 1)) with (Zdigits2 k + e') by lia.
              lia.
      * split; auto. unfold SpecFloat.fexp, SpecFloat.emin in *. lia.
    + cbn in T1. rewrite Z.div_1_r in T1. rewrite T1.
      destruct k as [|M|M] eqn:EK; try lia.
      rewrite T2, Z.add_0_r. clear T2.
      destruct (Z.leb_spec e' (emax - prec)) as [L | L].
      * repeat split; try lia.
        -- replace (e' - (e + n)) with 0 by lia. rewrite Z.pow_0_r. lia.
        -- apply Hbounded; try lia.
           replace (e' - e') with 0 by lia. rewrite Z.pow_0_r. lia.
      * split; auto.
        inversion K1. subst M. cbn [Zdigits2 digits2_pos] in *.
        unfold SpecFloat.fexp, SpecFloat.emin in *. lia.
Qed.
End Rounding.

(** ** Rounding: real values *)


Lemma bpow_pos (e : Z) : (0 < bpow e)%R.
Proof. apply powerRZ_lt. lra. Qed.

Lemma bpow_add (a b : Z) : bpow (a + b) = (bpow a * bpow b)%R.
Proof. apply powerRZ_add. lra. Qed.

Lemma bpow_IZR (e : Z) : 0 <= e -> bpow e = IZR (2 ^ e).
Proof.
  intros He. unfold bpow. rewrite <- (Z2Nat.id e He) at 1.
  rewrite <- pow_powerRZ, pow_IZR, Z2Nat.id by lia. reflexivity.
Qed.

Lemma bpow_0 : bpow 0 = 1%R.
Proof. reflexivity. Qed.

Lemma bpow_1 : bpow 1 = 2%R.
Proof. rewrite bpow_IZR by lia. reflexivity. Qed.

Lemma bpow_le (a b : Z) : a <= b -> (bpow a <= bpow b)%R.
Proof.
  intros H. replace b with (a + (b - a)) by lia. rewrite bpow_add.
  pose proof (bpow_pos a).
  assert (1 <= bpow (b - a))%R.
  { rewrite bpow_IZR by lia. apply IZR_le.
    pose proof (pow2_pos (b - a) ltac:(lia)). lia. }
  nra.
Qed.

Lemma bpow_lt (a b : Z) : a < b -> (bpow a < bpow b)%R.
Proof.
  intros H. replace b with (a + 1 + (b - a - 1)) by lia. rewrite !bpow_add, bpow_1.
  pose proof (bpow_pos a).
  assert (1 <= bpow (b - a - 1))%R.
  { rewrite bpow_IZR by lia. apply IZR_le.
    pose proof (pow2_pos (b - a - 1) ltac:(lia)). lia. }
  nra.
Qed.

Lemma bpow_lt_inv (a b : Z) : (bpow a < bpow b)%R -> a < b.
Proof.
  intros H. destruct (Z.lt_ge_cases a b) as [|G]; auto.
  pose proof (bpow_le b a G). lra.
Qed.

Lemma IZR_digits (m : Z) :
  0 < m -> (bpow (Zdigits2 m - 1) <= IZR m < bpow (Zdigits2 m))%R.
Proof.
  intros Hm. pose proof (Zdigits2_bounds m Hm) as [B1 B2].
  pose proof (Zdigits2_pos m Hm).
  rewrite !bpow_IZR by lia. split; [apply IZR_le | apply IZR_lt]; assumption.
Qed.


Section RoundingR.
Variables prec emax : Z.
Hypothesis Hprec : 0 < prec.
Hypothesis Hmax : prec < emax.

Abbreviation fexp := (SpecFloat.fexp prec emax).
Abbreviation emin := (SpecFloat.emin prec emax).

Lemma Zdigits2_le_pow (k j : Z) : 0 <= k < 2 ^ j -> 0 <= j -> Zdigits2 k <= j.
Proof.
  intros [H0 H] Hj. destruct (Z.eq_dec k 0) as [->|N]; [cbn; lia|].
  pose proof (Zdigits2_bounds k ltac:(lia)) as [B1 B2].
  destruct (Z.le_gt_cases (Zdigits2 k) j) as [|G]; auto.
  assert (2 ^ j <= 2 ^ (Zdigits2 k - 1)) by (apply Z.pow_le_mono_r; lia). lia.
Qed.

Lemma binary_round_aux_R (s : bool) (m e : Z) (l : location) (y : R) :
  0 < m ->
  e <= fexp (Zdigits2 m + e) ->
  (IZR m <= y < IZR m + 1)%R ->
  let u := bpow (fexp (Zdigits2 m + e)) in
  exists L : R,
    (0 <= L)%R /\ (L <= y * bpow e < L + u)%R /\
    match binary_round_aux prec emax s m e l with
    | S754_zero s' => s' = s /\ L = 0%R
    | S754_finite s' M E =>
        s' = s /\ bounded prec emax M E = true /\
        ((IZR (Zpos M) * bpow E = L)%R \/ (IZR (Zpos M) * bpow E = L + u)%R)
    | S754_infinity s' => s' = s /\ emax < Zdigits2 m + e + 1
    | S754_nan => False
    end.
Proof.
  intros Hm He Hy u.
  destruct (binary_round_aux_spec prec emax Hprec Hmax s m e l Hm He) as [k [Hk Hr]].
  set (n := fexp (Zdigits2 m + e) - e) in *.
  set (lo := m / 2 ^ n) in *.
  assert (Hn : 0 <= n) by (unfold n; lia).
  pose proof (div_pow2_bounds m n ltac:(lia) Hn) as [Q1 Q2]. fold lo in Q1, Q2.
  pose proof (pow2_pos n Hn) as P.
  assert (Hlo : 0 <= lo) by (apply Z.div_pos; lia).
  assert (Eu : u = (bpow n * bpow e)%R).
  { unfold u. rewrite <- bpow_add. f_equal. unfold n. lia. }
  pose proof (bpow_pos e) as Pe. pose proof (bpow_pos n) as Pn.
  exists (IZR lo * u)%R. 
  assert (Hu : (0 < u)%R) by (apply bpow_pos).
  split; [apply Rmult_le_pos; [apply IZR_le; lia | lra]|].
  split.
  - apply IZR_le in Q1. assert (m + 1 <= (lo + 1) * 2 ^ n) as Q3 by lia.
    apply IZR_le in Q3. rewrite mult_IZR, <- bpow_IZR in Q1, Q3 by lia.
    rewrite !plus_IZR in Q3. rewrite Eu. split; nra.
  - destruct (binary_round_aux prec emax s m e l) as [s' | s' | | s' M E]; auto.
    + destruct Hr as [-> K0]. split; auto.
      assert (lo = 0) by lia. rewrite H. lra.
    + destruct Hr as [-> K]. split; auto.
      pose proof (Zdigits2_bounds m Hm) as [B1 B2].
      pose proof (Zdigits2_pos m Hm) as Hd.
      destruct (Z.le_gt_cases n (Zdigits2 m)) as [Hnd | Hnd].
      * assert (lo < 2 ^ (Zdigits2 m - n)).
        { apply Z.div_lt_upper_bound; auto.
          rewrite <- Z.pow_add_r by lia.
          replace (n + (Zdigits2 m - n)) with (Zdigits2 m) by lia. exact B2. }
        assert (Zdigits2 k <= Zdigits2 m - n + 1).
        { apply Zdigits2_le_pow; try lia.
          rewrite (pow2_pred (Zdigits2 m - n + 1)) by lia.
          replace (Zdigits2 m - n + 1 - 1) with (Zdigits2 m - n) by lia.
          lia. }
        lia.
      * assert (lo = 0).
        { apply Z.div_small. split; try lia.
          assert (2 ^ Zdigits2 m <= 2 ^ n) by (apply Z.pow_le_mono_r; lia). lia. }
        assert (Zdigits2 k <= 1) by (apply Zdigits2_le_pow; lia).
        unfold n, SpecFloat.fexp, SpecFloat.emin in *. lia.
    + destruct Hr as [-> [HE [HM HB]]]. split; auto. split; auto.
      assert (IZR (Zpos M) * bpow E = IZR k * u)%R as V.
      { replace E with ((E - (e + n)) + (e + n)) at 1 by lia.
        rewrite bpow_add, (bpow_IZR (E - (e + n))) by lia.
        rewrite <- HM, mult_IZR. unfold u.
        replace (fexp (Zdigits2 m + e)) with (e + n) by (unfold n; lia). ring. }
      rewrite V. destruct Hk as [-> | ->]; [left; reflexivity | right].
      rewrite plus_IZR. ring.
Qed.


Lemma eps_bounds : (0 < eps prec <= 1)%R.
Proof.
  unfold eps. split; [apply bpow_pos|].
  rewrite <- bpow_0. apply bpow_le. lia.
Qed.

(** A real [Y > 0] with [bpow (a - 1) <= Y < bpow a] fixes [a]. *)
Lemma magnitude_lt (Y : R) (a b : Z) :
  (bpow (a - 1) <= Y)%R -> (Y < bpow b)%R -> a <= b.
Proof.
  intros H1 H2. assert (bpow (a - 1) < bpow b)%R as H by lra.
  apply bpow_lt_inv in H. lia.
Qed.

(** In the normal range, without overflow, the result is a finite number
    within a relative error [eps prec] of the exact value. *)
Lemma binary_round_aux_normal (s : bool) (m e : Z) (l : location) (y : R) :
  0 < m ->
  e <= fexp (Zdigits2 m + e) ->
  (IZR m <= y < IZR m + 1)%R ->
  emin + prec <= Zdigits2 m + e ->
  Zdigits2 m + e + 1 <= emax ->
  exists M E,
    binary_round_aux prec emax s m e l = S754_finite s M E /\
    bounded prec emax M E = true /\
    (y * bpow e * (1 - eps prec) <= IZR (Zpos M) * bpow E <= y * bpow e * (1 + eps prec))%R.
Proof.
  intros Hm He Hy Hnorm Hov.
  destruct (binary_round_aux_R s m e l y Hm He Hy) as [L [HL [HY Hr]]].
  set (u := bpow (fexp (Zdigits2 m + e))) in *.
  pose proof (IZR_digits m Hm) as [D1 D2].
  pose proof (bpow_pos e) as Pe.
  pose proof eps_bounds as [E0 E1].
  assert (Hu : (u <= IZR m * bpow e * eps prec)%R).
  { unfold u, eps.
    replace (fexp (Zdigits2 m + e)) with ((Zdigits2 m - 1) + e + (1 - prec))
      by (unfold SpecFloat.fexp, SpecFloat.emin in *; lia).
    rewrite !bpow_add. pose proof (bpow_pos (1 - prec)).
    apply Rmult_le_compat_r; [lra|]. apply Rmult_le_compat_r; lra. }
  assert (HmY : (IZR m * bpow e <= y * bpow e)%R) by (apply Rmult_le_compat_r; lra).
  assert (Hmpos : (0 < IZR m * bpow e)%R).
  { apply Rmult_lt_0_compat; auto. apply IZR_lt. lia. }
  assert (HuY : (u <= y * bpow e * eps prec)%R) by nra.
  assert (Hupos : (0 < u)%R) by apply bpow_pos.
  destruct (binary_round_aux prec emax s m e l) as [s' | s' | | s' M E].
  - destruct Hr as [_ L0]. exfalso. subst L. nra.
  - destruct Hr as [_ K]. lia.
  - contradiction.
  - destruct Hr as [-> [HB HV]]. exists M, E. split; [reflexivity|]. split; [exact HB|].
    destruct HV as [-> | ->]; nra.
Qed.

(** Canonical mantissas. *)
Lemma bounded_canonical (m : positive) (e : Z) :
  bounded prec emax m e = true ->
  fexp (Zdigits2 (Zpos m) + e) = e /\ e <= emax - prec.
Proof.
  unfold bounded, canonical_mantissa. intros H.
  apply andb_prop in H. destruct H as [H1 H2].
  apply Z.eqb_eq in H1. apply Z.leb_le in H2. auto.
Qed.

Lemma Zdigits2_ge (k j : Z) : 0 <= j -> 2 ^ j <= k -> j + 1 <= Zdigits2 k.
Proof.
  intros Hj H. pose proof (pow2_pos j Hj).
  pose proof (Zdigits2_bounds k ltac:(lia)) as [B1 B2].
  destruct (Z.le_gt_cases (j + 1) (Zdigits2 k)) as [|G]; auto.
  assert (2 ^ Zdigits2 k <= 2 ^ j) by (apply Z.pow_le_mono_r; lia). lia.
Qed.

Lemma SF2R_magnitude (m : positive) (e : Z) :
  (bpow (Zdigits2 (Zpos m) + e - 1) <= IZR (Zpos m) * bpow e < bpow (Zdigits2 (Zpos m) + e))%R.
Proof.
  pose proof (IZR_digits (Zpos m) ltac:(lia)) as [D1 D2].
  pose proof (bpow_pos e).
  replace (Zdigits2 (Zpos m) + e - 1) with ((Zdigits2 (Zpos m) - 1) + e) by lia.
  rewrite !bpow_add. split; [apply Rmult_le_compat_r | apply Rmult_lt_compat_r]; lra.
Qed.

(** Multiplication of two positive finite numbers. *)
Lemma SFmul_R (mx my : positive) (ex ey : Z) :
  bounded prec emax mx ex = true ->
  bounded prec emax my ey = true ->
  let Y := (IZR (Zpos mx) * bpow ex * (IZR (Zpos my) * bpow ey))%R in
  (bpow (emin + prec - 1) <= Y < bpow (emax - 1))%R ->
  exists M E,
    SFmul prec emax (S754_finite false mx ex) (S754_finite false my ey)
      = S754_finite false M E /\
    bounded prec emax M E = true /\
    (Y * (1 - eps prec) <= IZR (Zpos M) * bpow E <= Y * (1 + eps prec))%R.
Proof.
  intros Bx By Y [Y1 Y2].
  destruct (bounded_canonical mx ex Bx) as [Cx _].
  destruct (bounded_canonical my ey By) as [Cy _].
  cbn [SFmul xorb].
  set (m := Zpos (mx * my)). set (e := ex + ey).
  assert (EY : Y = (IZR m * bpow e)%R).
  { unfold Y, m, e. rewrite Pos2Z.inj_mul, mult_IZR, bpow_add. ring. }
  pose proof (SF2R_magnitude (mx * my) e) as [M1 M2]. fold m in M1, M2.
  rewrite <- EY in M1, M2.
  assert (Hnorm : emin + prec <= Zdigits2 m + e)
    by (pose proof (magnitude_lt Y _ _ Y1 M2); lia).
  assert (Hov : Zdigits2 m + e + 1 <= emax)
    by (pose proof (magnitude_lt Y _ _ M1 Y2); lia).
  assert (He : e <= fexp (Zdigits2 m + e)).
  { pose proof (Zdigits2_bounds (Zpos mx) ltac:(lia)) as [X1 X2].
    pose proof (Zdigits2_bounds (Zpos my) ltac:(lia)) as [Y1' Y2'].
    pose proof (Zdigits2_pos (Zpos mx) ltac:(lia)).
    pose proof (Zdigits2_pos (Zpos my) ltac:(lia)).
    assert (Zdigits2 (Zpos mx) + Zdigits2 (Zpos my) - 1 <= Zdigits2 m).
    { replace (Zdigits2 (Zpos mx) + Zdigits2 (Zpos my) - 1)
        with ((Zdigits2 (Zpos mx) - 1 + (Zdigits2 (Zpos my) - 1)) + 1) by lia.
      apply Zdigits2_ge; [lia|]. rewrite Z.pow_add_r by lia.
      unfold m. rewrite Pos2Z.inj_mul.
      pose proof (pow2_pos (Zdigits2 (Zpos mx) - 1) ltac:(lia)).
      pose proof (pow2_pos (Zdigits2 (Zpos my) - 1) ltac:(lia)).
      nia. }
    unfold e, SpecFloat.fexp, SpecFloat.emin in *. lia. }
  destruct (binary_round_aux_normal false m e loc_Exact (IZR m) ltac:(unfold m; lia) He
              ltac:(lra) Hnorm Hov) as [M [E [R1 [R2 R3]]]].
  exists M, E. rewrite EY. auto.
Qed.

(** Division of two positive finite numbers. *)
Lemma SFdiv_R (mx my : positive) (ex ey : Z) :
  let Y := (IZR (Zpos mx) * bpow ex / (IZR (Zpos my) * bpow ey))%R in
  (bpow (emin + prec - 1) <= Y < bpow (emax - 1))%R ->
  exists M E,
    SFdiv prec emax (S754_finite false mx ex) (S754_finite false my ey)
      = S754_finite false M E /\
    bounded prec emax M E = true /\
    (Y * (1 - eps prec) <= IZR (Zpos M) * bpow E <= Y * (1 + eps prec))%R.
Proof.
  intros Y [Y1 Y2].
  cbn [SFdiv xorb]. unfold SFdiv_core_binary.
  set (d1 := Zdigits2 (Zpos mx)). set (d2 := Zdigits2 (Zpos my)).
  set (delta := d1 + ex - (d2 + ey)).
  set (e' := Z.min (fexp delta) (ex - ey)).
  set (sh := ex - ey - e').
  assert (Hsh : 0 <= sh) by (unfold sh, e'; lia).
  set (m' := match sh with Zpos _ => Z.shiftl (Zpos mx) sh | Z0 => Zpos mx | Zneg _ => 0 end).
  assert (Em' : m' = Zpos mx * 2 ^ sh).
  { unfold m'. clear m'. clearbody sh. destruct sh as [|p|p]; try lia.
    apply Z.shiftl_mul_pow2. lia. }
  pose proof (pow2_pos sh Hsh) as Psh.
  pose proof (Z_div_mod m' (Zpos my) ltac:(lia)) as DM.
  destruct (Z.div_eucl m' (Zpos my)) as [Q r] eqn:Ediv.
  destruct DM as [DM1 DM2].
  assert (HQ0 : 0 <= Q) by nia.
  set (yr := (IZR m' / IZR (Zpos my))%R).
  assert (Pmy : (0 < IZR (Zpos my))%R) by (apply IZR_lt; lia).
  assert (Pmx : (0 < IZR (Zpos mx))%R) by (apply IZR_lt; lia).
  assert (Hyr : (IZR Q <= yr < IZR Q + 1)%R).
  { unfold yr. assert (IZR m' = IZR (Zpos my) * IZR Q + IZR r)%R as ->
      by (rewrite DM1, plus_IZR, mult_IZR; reflexivity).
    assert (0 <= IZR r < IZR (Zpos my))%R
      by (split; [apply IZR_le | apply IZR_lt]; lia).
    split.
    - apply Rmult_le_reg_r with (IZR (Zpos my)); auto.
      unfold Rdiv. rewrite Rmult_assoc, Rinv_l by lra. lra.
    - apply Rmult_lt_reg_r with (IZR (Zpos my)); auto.
      unfold Rdiv. rewrite Rmult_assoc, Rinv_l by lra. lra. }
  pose proof (bpow_pos ex) as Pex. pose proof (bpow_pos ey) as Pey.
  pose proof (bpow_pos e') as Pe'.
  assert (EY : Y = (yr * bpow e')%R).
  { unfold Y, yr. rewrite Em', mult_IZR, <- bpow_IZR by lia.
    replace ex with (sh + e' + ey) at 1 by (unfold sh; lia).
    rewrite !bpow_add. field. split; lra. }
  (* magnitude of the exact quotient *)
  pose proof (SF2R_magnitude mx ex) as [X1 X2]. fold d1 in X1, X2.
  pose proof (SF2R_magnitude my ey) as [V1 V2]. fold d2 in V1, V2.
  assert (Hdelta : (bpow (delta - 1) < Y)%R).
  { assert (PV : (0 < IZR (Zpos my) * bpow ey)%R) by (apply Rmult_lt_0_compat; lra).
    assert (YV : (Y * (IZR (Zpos my) * bpow ey) = IZR (Zpos mx) * bpow ex)%R)
      by (unfold Y; field; split; lra).
    replace (d1 + ex - 1) with ((delta - 1) + (d2 + ey)) in X1 by (unfold delta; lia).
    rewrite bpow_add in X1. pose proof (bpow_pos (delta - 1)). nra. }
  assert (HQ : 0 < Q).
  { destruct (Z.eq_dec Q 0) as [Q0 | Q0]; [|lia]. exfalso.
    rewrite Q0 in Hyr. assert (Y < bpow e')%R by (rewrite EY; nra).
    assert (e' <= fexp delta) by (unfold e'; lia).
    pose proof (bpow_le _ _ H0).
    destruct (Z.max_spec (delta - prec) emin) as [[_ F] | [_ F]];
      fold (fexp delta) in F; rewrite F in *.
    + assert (bpow (emin + prec - 1) < bpow emin)%R as C by lra.
      apply bpow_lt_inv in C. lia.
    + assert (bpow (delta - 1) < bpow (delta - prec))%R as C by lra.
      apply bpow_lt_inv in C. lia. }
  pose proof (IZR_digits Q HQ) as [D1 D2].
  pose proof (Zdigits2_bounds Q HQ) as [B1 B2].
  pose proof (Zdigits2_pos Q HQ) as HdQ.
  assert (D3 : (IZR Q + 1 <= bpow (Zdigits2 Q))%R).
  { rewrite bpow_IZR by lia. rewrite <- plus_IZR. apply IZR_le. lia. }
  assert (M1 : (bpow (Zdigits2 Q + e' - 1) <= Y)%R).
  { replace (Zdigits2 Q + e' - 1) with ((Zdigits2 Q - 1) + e') by lia.
    rewrite bpow_add, EY. nra. }
  assert (M2 : (Y < bpow (Zdigits2 Q + e'))%R).
  { rewrite bpow_add, EY. nra. }
  assert (Hnorm : emin + prec <= Zdigits2 Q + e')
    by (pose proof (magnitude_lt Y _ _ Y1 M2); lia).
  assert (Hov : Zdigits2 Q + e' + 1 <= emax)
    by (pose proof (magnitude_lt Y _ _ M1 Y2); lia).
  assert (He : e' <= fexp (Zdigits2 Q + e')).
  { assert (delta <= Zdigits2 Q + e').
    { assert (bpow (delta - 1) < bpow (Zdigits2 Q + e'))%R as C by lra.
      apply bpow_lt_inv in C. lia. }
    unfold e', SpecFloat.fexp, SpecFloat.emin in *. lia. }
  destruct (binary_round_aux_normal false Q e' (new_location (Zpos my) r) yr HQ He
              Hyr Hnorm Hov) as [M [E [R1 [R2 R3]]]].
  exists M, E. rewrite EY. auto.
Qed.

(** Conversion of a positive integer. *)
Lemma iter_xO (m d : positive) : Zpos (Pos.iter xO m d) = Zpos m * 2 ^ Zpos d.
Proof.
  induction d as [|d IH] using Pos.peano_ind.
  - cbn. lia.
  - rewrite Pos.iter_succ, Pos2Z.inj_xO, IH, Pos2Z.inj_succ, Z.pow_succ_r by lia. lia.
Qed.

Lemma Zdigits2_mul_pow2 (m k : Z) :
  0 < m -> 0 <= k -> Zdigits2 (m * 2 ^ k) = Zdigits2 m + k.
Proof.
  intros Hm Hk. pose proof (Zdigits2_bounds m Hm) as [B1 B2].
  pose proof (Zdigits2_pos m Hm). pose proof (pow2_pos k Hk).
  apply Zdigits2_unique; [|nia].
  replace (Zdigits2 m + k - 1) with ((Zdigits2 m - 1) + k) by lia.
  rewrite !Z.pow_add_r by lia. split; nia.
Qed.

Lemma binary_normalize_R (z : Z) :
  0 < z < 2 ^ (emax - 1) ->
  exists M E,
    binary_normalize prec emax z 0 false = S754_finite false M E /\
    bounded prec emax M E = true /\
    (IZR z * (1 - eps prec) <= IZR (Zpos M) * bpow E <= IZR z * (1 + eps prec))%R.
Proof.
  intros [Hz Hzmax]. destruct z as [|p|p]; try lia.
  cbn [binary_normalize]. unfold binary_round, shl_align.
  set (d := Zpos (digits2_pos p)).
  assert (Ed : d = Zdigits2 (Zpos p)) by reflexivity.
  pose proof (Zdigits2_pos (Zpos p) Hz) as Hd. rewrite <- Ed in Hd.
  assert (Hdmax : d <= emax - 1).
  { rewrite Ed. apply Zdigits2_le_pow; lia. }
  assert (exists mz ez,
            (match fexp (d + 0) - 0 with
             | Zneg k => (Pos.iter xO p k, fexp (d + 0))
             | _ => (p, 0)
             end) = (mz, ez) /\
            ez <= 0 /\ ez <= fexp d /\ Zpos mz = Zpos p * 2 ^ (- ez)) as [mz [ez [Eq [Hez [Hez' Hmz]]]]].
  { rewrite Z.add_0_r, Z.sub_0_r.
    destruct (fexp d) as [|k|k] eqn:F.
    - exists p, 0. repeat split; try lia.
    - exists p, 0. repeat split; try lia.
    - exists (Pos.iter xO p k), (Zneg k). repeat split; try lia.
      rewrite iter_xO. reflexivity. }
  rewrite Eq.
  assert (Dmz : Zdigits2 (Zpos mz) + ez = d).
  { rewrite Hmz, Zdigits2_mul_pow2 by lia. lia. }
  assert (He : ez <= fexp (Zdigits2 (Zpos mz) + ez)) by (rewrite Dmz; exact Hez').
  assert (Hy : (IZR (Zpos mz) <= IZR (Zpos mz) < IZR (Zpos mz) + 1)%R) by lra.
  destruct (binary_round_aux_normal false (Zpos mz) ez loc_Exact (IZR (Zpos mz))
              ltac:(lia) He Hy) as [M [E [R1 [R2 R3]]]].
  - rewrite Dmz. unfold SpecFloat.emin. lia.
  - rewrite Dmz. lia.
  - exists M, E. split; [exact R1|]. split; [exact R2|].
    assert (IZR (Zpos mz) * bpow ez = IZR (Zpos p))%R as EV.
    { rewrite Hmz, mult_IZR, <- bpow_IZR by lia.
      rewrite Rmult_assoc, <- bpow_add. replace (- ez + ez) with 0 by lia.
      rewrite bpow_0. ring. }
    rewrite EV in R3. exact R3.
Qed.

(** Order of two positive finite numbers. *)
Lemma SFcompare_R (m1 m2 : positive) (e1 e2 : Z) :
  bounded prec emax m1 e1 = true ->
  bounded prec emax m2 e2 = true ->
  match SFcompare (S754_finite false m1 e1) (S754_finite false m2 e2) with
  | Some Lt => (IZR (Zpos m1) * bpow e1 < IZR (Zpos m2) * bpow e2)%R
  | Some Eq => (IZR (Zpos m1) * bpow e1 = IZR (Zpos m2) * bpow e2)%R
  | Some Gt => (IZR (Zpos m2) * bpow e2 < IZR (Zpos m1) * bpow e1)%R
  | None => False
  end.
Proof.
  intros B1 B2.
  destruct (bounded_canonical m1 e1 B1) as [C1 _].
  destruct (bounded_canonical m2 e2 B2) as [C2 _].
  assert (Hlt : forall ma mb ea eb,
             fexp (Zdigits2 (Zpos ma) + ea) = ea ->
             fexp (Zdigits2 (Zpos mb) + eb) = eb -> ea < eb ->
             (IZR (Zpos ma) * bpow ea < IZR (Zpos mb) * bpow eb)%R).
  { intros ma mb ea eb Ca Cb L.
    pose proof (SF2R_magnitude ma ea) as [_ A2].
    pose proof (SF2R_magnitude mb eb) as [A1 _].
    assert (Zdigits2 (Zpos ma) + ea <= Zdigits2 (Zpos mb) + eb - 1)
      by (unfold SpecFloat.fexp, SpecFloat.emin in *; lia).
    pose proof (bpow_le _ _ H). lra. }
  cbn [SFcompare].
  destruct (Z.compare_spec e1 e2) as [E | L | G].
  - subst e2. pose proof (bpow_pos e1).
    rewrite Pos.compare_cont_spec. cbn [Pos.switch_Eq].
    change (Pos.compare m1 m2) with (Z.compare (Zpos m1) (Zpos m2)).
    destruct (Z.compare_spec (Zpos m1) (Zpos m2)) as [E | L | G].
    + rewrite E. reflexivity.
    + apply Rmult_lt_compat_r; [assumption | apply IZR_lt; assumption].
    + apply Rmult_lt_compat_r; [assumption | apply IZR_lt; assumption].
  - apply Hlt; auto.
  - apply Hlt; auto.
Qed.
End RoundingR.

(** ** Binary64 *)

Lemma prec_pos : 0 < prec. Proof. reflexivity. Qed.
Lemma prec_lt_emax : prec < emax. Proof. reflexivity. Qed.



Lemma pos_finite_pos x v : pos_finite x v -> (0 < v)%R.
Proof.
  intros [M [E [_ [_ ->]]]]. apply Rmult_lt_0_compat; [apply IZR_lt; lia | apply bpow_pos].
Qed.


Lemma eps64_val : eps64 = (/ 4503599627370496)%R.
Proof.
  unfold eps64, eps. change (1 - prec) with (- (52)).
  unfold bpow. rewrite powerRZ_neg'. f_equal.
  change (powerRZ 2 52) with (bpow 52). rewrite bpow_IZR by lia. reflexivity.
Qed.

Lemma float_of_int_R (z : Z) :
  0 < z < 2 ^ 1023 ->
  exists f v, Py.float_of_int z = Ok f /\ pos_finite f v /\
    (IZR z * (1 - eps64) <= v <= IZR z * (1 + eps64))%R.
Proof.
  intros Hz.
  destruct (binary_normalize_R prec emax prec_pos prec_lt_emax z Hz) as [M [E [R1 [R2 R3]]]].
  unfold Py.float_of_int, Py.SF_of_int. rewrite R1. cbn [Py.is_finite_SF].
  eexists. eexists. split; [reflexivity|]. split; [|exact R3].
  exists M, E. split; [|split; [exact R2 | reflexivity]].
  apply Prim2SF_SF2Prim. exact R2.
Qed.

Lemma mul_R (x y : float) (vx vy : R) :
  pos_finite x vx -> pos_finite y vy ->
  (bpow (-1022) <= vx * vy < bpow 1023)%R ->
  exists v, pos_finite (x * y) v /\
    (vx * vy * (1 - eps64) <= v <= vx * vy * (1 + eps64))%R.
Proof.
  intros [Mx [Ex [Px [Bx ->]]]] [My [Ey [Py [By ->]]]] HY.
  destruct (SFmul_R prec emax prec_pos prec_lt_emax Mx My Ex Ey Bx By HY)
    as [M [E [R1 [R2 R3]]]].
  eexists. split; [|exact R3].
  exists M, E. split; [|split; [exact R2 | reflexivity]].
  rewrite FloatAxioms.mul_spec, Px, Py. exact R1.
Qed.

Lemma div_R (x y : float) (vx vy : R) :
  pos_finite x vx -> pos_finite y vy ->
  (bpow (-1022) <= vx / vy < bpow 1023)%R ->
  exists v, pos_finite (x / y) v /\
    (vx / vy * (1 - eps64) <= v <= vx / vy * (1 + eps64))%R.
Proof.
  intros [Mx [Ex [Px [Bx ->]]]] [My [Ey [Py [By ->]]]] HY.
  destruct (SFdiv_R prec emax prec_pos prec_lt_emax Mx My Ex Ey HY)
    as [M [E [R1 [R2 R3]]]].
  eexists. split; [|exact R3].
  exists M, E. split; [|split; [exact R2 | reflexivity]].
  rewrite FloatAxioms.div_spec, Px, Py. exact R1.
Qed.

Lemma ltb_R (x y : float) (vx vy : R) :
  pos_finite x vx -> pos_finite y vy ->
  ((x <? y)%float = true <-> (vx < vy)%R).
Proof.
  intros [Mx [Ex [Px [Bx ->]]]] [My [Ey [Py [By ->]]]].
  rewrite FloatAxioms.ltb_spec, Px, Py. unfold SFltb.
  pose proof (SFcompare_R prec emax Mx My Ex Ey Bx By) as C.
  destruct (SFcompare _ _) as [[]|]; split; intros H; try discriminate; try lra; auto.
Qed.

Lemma pos_finite_nonzero (x : float) (v : R) :
  pos_finite x v -> (x =? 0)%float = false.
Proof.
  intros [M [E [P _]]]. rewrite FloatAxioms.eqb_spec, P. reflexivity.
Qed.

Lemma bpow_neg_val (n : Z) : 0 <= n -> bpow (- n) = (/ IZR (2 ^ n))%R.
Proof.
  intros Hn. unfold bpow. rewrite powerRZ_neg'. f_equal.
  change (powerRZ 2 n) with (bpow n). apply bpow_IZR. exact Hn.
Qed.

Lemma pos_finite_literal (x : float) (M : positive) (n : Z) :
  Prim2SF x = S754_finite false M (- n) -> 0 <= n ->
  bounded prec emax M (- n) = true ->
  pos_finite x (IZR (Zpos M) / IZR (2 ^ n)).
Proof.
  intros P Hn B. exists M, (- n). split; [exact P|]. split; [exact B|].
  rewrite bpow_neg_val by exact Hn. reflexivity.
Qed.

Lemma pf_0_4 : pos_finite 0.4 (7205759403792794 / 18014398509481984).
Proof. apply (pos_finite_literal 0.4 7205759403792794 54); [reflexivity | lia | reflexivity]. Qed.

Lemma pf_0_6 : pos_finite 0.6 (5404319552844595 / 9007199254740992).
Proof. apply (pos_finite_literal 0.6 5404319552844595 53); [reflexivity | lia | reflexivity]. Qed.

Lemma pf_0_9 : pos_finite 0.9 (8106479329266893 / 9007199254740992).
Proof. apply (pos_finite_literal 0.9 8106479329266893 53); [reflexivity | lia | reflexivity]. Qed.

Lemma pf_0_5 : pos_finite 0.5 (4503599627370496 / 9007199254740992).
Proof. apply (pos_finite_literal 0.5 4503599627370496 53); [reflexivity | lia | reflexivity]. Qed.

Lemma pf_0_75 : pos_finite 0.75 (6755399441055744 / 9007199254740992).
Proof. apply (pos_finite_literal 0.75 6755399441055744 53); [reflexivity | lia | reflexivity]. Qed.

Lemma bpow_m1022_le : (bpow (-1022) <= / 8)%R.
Proof.
  replace (/ 8)%R with (bpow (- (3))).
  - apply bpow_le. lia.
  - rewrite bpow_neg_val by lia. reflexivity.
Qed.

Lemma bpow_1023_ge : (2 <= bpow 1023)%R.
Proof. rewrite <- bpow_1. apply bpow_le. lia. Qed.

(** [(c * f) / f], for a constant [c] of moderate size and [f = float(E)]:
    within two roundings of [c]. *)
Lemma scaled_quotient_R (c : float) (vc : R) (E : Z) :
  pos_finite c vc -> (1 / 4 <= vc <= 19 / 20)%R ->
  0 < E < 2 ^ 1023 ->
  exists f vq, Py.float_of_int E = Ok f /\ (f =? 0)%float = false /\
    pos_finite (c * f / f) vq /\
    (vc * (1 - eps64) * (1 - eps64) <= vq <= vc * (1 + eps64) * (1 + eps64))%R.
Proof.
  intros Hc Hvc HE.
  destruct (float_of_int_R E HE) as [f [F [Ef [Hf HF]]]].
  exists f.
  pose proof (pos_finite_pos f F Hf) as PF.
  pose proof eps64_val as Ee.
  pose proof bpow_m1022_le as Blo. pose proof bpow_1023_ge as Bhi.
  assert (HE1 : (1 <= IZR E)%R) by (apply IZR_le; lia).
  assert (HE2 : (IZR E < bpow 1023)%R) by (rewrite bpow_IZR by lia; apply IZR_lt; lia).
  assert (He0 : (0 < eps64 < / 1000)%R) by (rewrite Ee; lra).
  destruct (mul_R c f vc F Hc Hf) as [T [Ht HT]].
  { split; nra. }
  pose proof (pos_finite_pos _ T Ht) as PT.
  set (Y := (T / F)%R) in *.
  assert (EY : (Y * F = T)%R) by (unfold Y; field; lra).
  assert (HY : (vc * (1 - eps64) <= Y <= vc * (1 + eps64))%R).
  { split.
    - apply Rmult_le_reg_r with F; [exact PF|]. rewrite EY. nra.
    - apply Rmult_le_reg_r with F; [exact PF|]. rewrite EY. nra. }
  destruct (div_R (c * f) f T F Ht Hf) as [Q [Hq HQ]].
  { fold Y. split; nra. }
  fold Y in HQ.
  exists Q. split; [exact Ef|]. split; [eapply pos_finite_nonzero; exact Hf|].
  split; [exact Hq|]. split; nra.
Qed.

(** ** Order on floats *)

Lemma SFcompare_antisym (x y : spec_float) :
  SFcompare y x = option_map CompOpp (SFcompare x y).
Proof.
  destruct x as [sx | sx | | sx mx ex], y as [sy | sy | | sy my ey];
    try reflexivity;
    try (destruct sx; reflexivity); try (destruct sy; reflexivity);
    try (destruct sx, sy; reflexivity).
  cbn [SFcompare option_map]. f_equal.
  destruct sx, sy; try reflexivity.
  - rewrite (Z.compare_antisym ey ex).
    destruct (ey ?= ex); cbn [CompOpp]; try reflexivity.
    rewrite (Pos.compare_cont_antisym mx my Eq). reflexivity.
  - rewrite (Z.compare_antisym ey ex).
    destruct (ey ?= ex); cbn [CompOpp]; try reflexivity.
    rewrite (Pos.compare_cont_antisym mx my Eq). reflexivity.
Qed.

Lemma leb_ltb_false (x y : float) :
  (x <=? y)%float = true -> (y <? x)%float = false.
Proof.
  rewrite FloatAxioms.leb_spec, FloatAxioms.ltb_spec. unfold SFleb, SFltb.
  rewrite (SFcompare_antisym (Prim2SF x) (Prim2SF y)).
  destruct (SFcompare (Prim2SF x) (Prim2SF y)) as [[]|]; cbn; congruence.
Qed.

Lemma SFcompare_None (x y : spec_float) :
  SFcompare x y = None -> x = S754_nan \/ y = S754_nan.
Proof.
  destruct x as [sx | sx | | sx mx ex], y as [sy | sy | | sy my ey]; cbn; auto;
    discriminate.
Qed.

Lemma ltb_not_nan (x y : float) :
  (x <? y)%float = true -> Prim2SF x <> S754_nan.
Proof.
  rewrite FloatAxioms.ltb_spec. unfold SFltb. intros H E. rewrite E in H.
  cbn in H. discriminate.
Qed.

Lemma not_ltb_leb (x y : float) :
  Prim2SF x <> S754_nan -> Prim2SF y <> S754_nan ->
  (x <? y)%float = false -> (y <=? x)%float = true.
Proof.
  intros Nx Ny. rewrite FloatAxioms.leb_spec, FloatAxioms.ltb_spec. unfold SFleb, SFltb.
  rewrite (SFcompare_antisym (Prim2SF x) (Prim2SF y)).
  destruct (SFcompare (Prim2SF x) (Prim2SF y)) as [[]|] eqn:C; cbn; try congruence.
  apply SFcompare_None in C. tauto.
Qed.

(** ** The piecewise schedule *)

Lemma piecewise_unfold (a : Args) (f t : float) :
  Py.float_of_int (epochs a) = Ok f -> (f =? 0)%float = false ->
  piecewise a t =
    Ok (if (t / f <? 0.5)%float then lr_max a
        else if (t / f <? 0.75)%float then (lr_max a / 10)%float
        else (lr_max a / 100)%float).
Proof.
  intros Ef Nz. unfold piecewise, Py.truediv_fi, Py.truediv.
  rewrite Ef. cbn [rbind]. rewrite Nz. cbn [rbind].
  destruct (t / f <? 0.5)%float; [reflexivity|].
  destruct (t / f <? 0.75)%float; reflexivity.
Qed.

(** C5. The piecewise schedule is a function of [t], the number of epochs
    [E] and [lr_max] alone.  For every [E] with [0 < E < 2 ^ 1023] (beyond
    which [float(E)] overflows) the division [t / E] is carried out, and the
    schedule returns [lr_max] when [t / E < 0.5], [lr_max / 10] when
    [0.5 <= t / E < 0.75] and [lr_max / 100] otherwise (also when [t / E] is
    not a number); the quotient is the binary64 one.  In particular
    [piecewise(0.4 * E)] is [lr_max], [piecewise(0.6 * E)] is [lr_max / 10]
    and [piecewise(0.9 * E)] is [lr_max / 100], and equal arguments give
    equal results. *)
Theorem piecewise_spec (a : Args) :
  0 < epochs a < 2 ^ 1023 ->
  exists fE : float,
    Py.float_of_int (epochs a) = Ok fE /\
    (forall t : float,
       let q := (t / fE)%float in
       ((q <? 0.5)%float = true -> piecewise a t = Ok (lr_max a)) /\
       ((0.5 <=? q)%float = true -> (q <? 0.75)%float = true ->
          piecewise a t = Ok (lr_max a / 10)%float) /\
       ((q <? 0.5)%float = false ->
        ~ ((0.5 <=? q)%float = true /\ (q <? 0.75)%float = true) ->
          piecewise a t = Ok (lr_max a / 100)%float)) /\
    piecewise a (0.4 * fE)%float = Ok (lr_max a) /\
    piecewise a (0.6 * fE)%float = Ok (lr_max a / 10)%float /\
    piecewise a (0.9 * fE)%float = Ok (lr_max a / 100)%float /\
    (forall t t' : float, t = t' -> piecewise a t = piecewise a t').
Proof.
  intros HE.
  pose proof eps64_val as Ee.
  destruct (scaled_quotient_R 0.4 _ (epochs a) pf_0_4 ltac:(lra) HE)
    as [f [q4 [Ef [Nz [H4 B4]]]]].
  destruct (scaled_quotient_R 0.6 _ (epochs a) pf_0_6 ltac:(lra) HE)
    as [f6 [q6 [Ef6 [_ [H6 B6]]]]].
  destruct (scaled_quotient_R 0.9 _ (epochs a) pf_0_9 ltac:(lra) HE)
    as [f9 [q9 [Ef9 [_ [H9 B9]]]]].
  rewrite Ef in Ef6, Ef9. inversion Ef6; subst f6. inversion Ef9; subst f9.
  exists f. split; [exact Ef|]. split; [|split; [|split; [|split]]].
  - intros t q. rewrite (piecewise_unfold a f t Ef Nz). fold q.
    split; [|split].
    + intros ->. reflexivity.
    + intros L1 L2. rewrite (leb_ltb_false _ _ L1), L2. reflexivity.
    + intros L1 N. rewrite L1.
      destruct (q <? 0.75)%float eqn:L2; [|reflexivity].
      exfalso. apply N. split; [|reflexivity].
      apply not_ltb_leb; auto.
      * eapply ltb_not_nan. exact L2.
      * discriminate.
  - rewrite (piecewise_unfold a f _ Ef Nz).
    assert ((0.4 * f / f <? 0.5)%float = true) as ->; [|reflexivity].
    apply (ltb_R _ _ _ _ H4 pf_0_5). rewrite Ee in B4. lra.
  - rewrite (piecewise_unfold a f _ Ef Nz).
    assert ((0.6 * f / f <? 0.5)%float = false) as ->.
    { destruct (0.6 * f / f <? 0.5)%float eqn:L; [|reflexivity].
      apply (ltb_R _ _ _ _ H6 pf_0_5) in L. rewrite Ee in B6. lra. }
    assert ((0.6 * f / f <? 0.75)%float = true) as ->; [|reflexivity].
    apply (ltb_R _ _ _ _ H6 pf_0_75). rewrite Ee in B6. lra.
  - rewrite (piecewise_unfold a f _ Ef Nz).
    assert ((0.9 * f / f <? 0.5)%float = false) as ->.
    { destruct (0.9 * f / f <? 0.5)%float eqn:L; [|reflexivity].
      apply (ltb_R _ _ _ _ H9 pf_0_5) in L. rewrite Ee in B9. lra. }
    assert ((0.9 * f / f <? 0.75)%float = false) as ->; [|reflexivity].
    destruct (0.9 * f / f <? 0.75)%float eqn:L; [|reflexivity].
    apply (ltb_R _ _ _ _ H9 pf_0_75) in L. rewrite Ee in B9. lra.
  - intros t t' ->. reflexivity.
Qed.

(** ** The balanced sizes *)

Lemma sum_ints_cons (x : Z) (l : list Z) : sum_ints (x :: l) = x + sum_ints l.
Proof.
  unfold sum_ints. cbn [fold_left].
  assert (G : forall l a b, fold_left Z.add l (a + b) = a + fold_left Z.add l b).
  { clear. induction l as [|y l IH]; intros a b; cbn [fold_left]; [reflexivity|].
    rewrite <- IH. f_equal. lia. }
  rewrite <- (G l x 0). f_equal. lia.
Qed.

Lemma sum_ints_nil : sum_ints [] = 0.
Proof. reflexivity. Qed.

Lemma sum_ints_pos_le (l : list Z) (x : Z) :
  Forall (fun y => 0 < y) l -> In x l -> x <= sum_ints l.
Proof.
  induction 1 as [|y l Hy Hl IH]; intros Hin; [destruct Hin|].
  rewrite sum_ints_cons.
  assert (0 <= sum_ints l).
  { clear -Hl. induction Hl as [|z l Hz Hl IH]; [cbn; lia|].
    rewrite sum_ints_cons. lia. }
  destruct Hin as [-> | Hin]; [lia|]. specialize (IH Hin). lia.
Qed.


Lemma bpow_1000_val : bpow 1000 = IZR (2 ^ 1000).
Proof. apply bpow_IZR. lia. Qed.

Lemma quotient_ok (x S : Z) :
  0 < x <= S -> S < 2 ^ 1000 ->
  exists a b, Py.float_of_int x = Ok a /\ Py.float_of_int S = Ok b /\
    Py.truediv a b = Ok (a / b)%float /\ proportion_ok (a / b)%float.
Proof.
  intros Hx HS.
  assert (P1000 : 2 ^ 1000 < 2 ^ 1023) by (apply Z.pow_lt_mono_r; lia).
  destruct (float_of_int_R x ltac:(lia)) as [a [va [Ea [Ha Va]]]].
  destruct (float_of_int_R S ltac:(lia)) as [b [vb [Eb [Hb Vb]]]].
  exists a, b. split; [exact Ea|]. split; [exact Eb|].
  split.
  { unfold Py.truediv. rewrite (pos_finite_nonzero b vb Hb). reflexivity. }
  pose proof eps64_val as Ee.
  assert (He0 : (0 < eps64 < / 1000)%R) by (rewrite Ee; lra).
  pose proof (pos_finite_pos a va Ha) as Pa.
  pose proof (pos_finite_pos b vb Hb) as Pb.
  assert (X1 : (1 <= IZR x)%R) by (apply IZR_le; lia).
  assert (X2 : (IZR x <= IZR S)%R) by (apply IZR_le; lia).
  assert (X3 : (IZR S < bpow 1000)%R) by (rewrite bpow_1000_val; apply IZR_lt; lia).
  pose proof (bpow_pos 1000) as PB.
  assert (B1 : (bpow (-1002) * (4 * bpow 1000) = 1)%R).
  { replace 4%R with (bpow 2) by (rewrite bpow_IZR by lia; reflexivity).
    rewrite <- !bpow_add. reflexivity. }
  pose proof (bpow_pos (-1002)) as PB2.
  set (Y := (va / vb)%R).
  assert (EY : (Y * vb = va)%R) by (unfold Y; field; lra).
  assert (PY : (0 < Y)%R) by (unfold Y; apply Rdiv_lt_0_compat; assumption).
  assert (HY : (bpow (-1002) <= Y <= 3 / 2)%R).
  { split.
    - apply Rmult_le_reg_r with (4 * bpow 1000)%R; [lra|].
      rewrite B1.
      assert (vb <= 2 * bpow 1000)%R by nra.
      assert (Y * vb <= Y * (2 * bpow 1000))%R by (apply Rmult_le_compat_l; lra).
      assert (/ 2 <= va)%R by nra.
      lra.
    - apply Rmult_le_reg_r with vb; [exact Pb|]. rewrite EY. nra. }
  destruct (div_R a b va vb Ha Hb) as [q [Hq Vq]].
  { fold Y. split.
    - pose proof (bpow_le (-1022) (-1002) ltac:(lia)). lra.
    - pose proof bpow_1023_ge. lra. }
  fold Y in Vq.
  exists q. split; [exact Hq|].
  split.
  - assert (bpow (-1010) * 2 <= bpow (-1002))%R.
    { replace 2%R with (bpow 1) by apply bpow_1. rewrite <- bpow_add.
      apply bpow_le. lia. }
    pose proof (bpow_pos (-1010)). nra.
  - nra.
Qed.

Lemma float_total : exists fT, Py.float_of_int total = Ok fT /\ pos_finite fT 50000.
Proof.
  exists 50000%float. split; [reflexivity|].
  exists 6871947673600000%positive, (-37). split; [reflexivity|]. split; [reflexivity|].
  replace (bpow (-37)) with (/ IZR (2 ^ 37))%R
    by (symmetry; apply (bpow_neg_val 37); lia).
  change (2 ^ 37) with 137438953472. apply Rmult_eq_reg_r with 137438953472%R; [|lra].
  rewrite Rmult_assoc, Rinv_l by lra. rewrite Rmult_1_r.
  rewrite <- mult_IZR. reflexivity.
Qed.

Lemma count_ok (p : float) :
  proportion_ok p ->
  exists scaled n, Py.mul_fi p total = Ok scaled /\
    Py.int scaled = Ok n /\ Py.floor scaled = Ok n.
Proof.
  intros [v [Hp [V1 V2]]].
  destruct float_total as [fT [ET HT]].
  pose proof (pos_finite_pos p v Hp) as Pv.
  destruct (mul_R p fT v 50000 Hp HT) as [w [Hw _]].
  { split.
    - pose proof (bpow_le (-1022) (-1010) ltac:(lia)). nra.
    - assert (bpow 17 <= bpow 1023)%R by (apply bpow_le; lia).
      assert (bpow 17 = 131072)%R by (rewrite bpow_IZR by lia; reflexivity).
      nra. }
  exists (p * fT)%float.
  destruct Hw as [M [E [PM _]]].
  exists (Z.shiftl (Zpos M) E).
  unfold Py.mul_fi. rewrite ET. cbn [rbind].
  split; [reflexivity|].
  unfold Py.int, Py.floor. rewrite PM. cbn. split; reflexivity.
Qed.


Lemma normalise_by_ok (S : Z) (l : list Z) :
  Forall (fun x => 0 < x <= S) l -> S < 2 ^ 1000 ->
  exists ps, normalise_by S l = Ok ps /\
    Forall2 (normalised_from S) l ps /\ Forall proportion_ok ps.
Proof.
  intros Hl HS. induction Hl as [|x l Hx Hl IH].
  - exists []. cbn. auto.
  - destruct IH as [ps [E [F2 Fo]]].
    destruct (quotient_ok x S Hx HS) as [a [b [Ea [Eb [Ed Hp]]]]].
    exists ((a / b)%float :: ps). cbn [normalise_by].
    rewrite Ea. cbn [rbind]. rewrite Eb. cbn [rbind]. rewrite Ed. cbn [rbind].
    rewrite E. cbn [rbind]. split; [reflexivity|]. split.
    + constructor; [|exact F2]. exists a, b. auto.
    + constructor; assumption.
Qed.


Lemma sum_ints_app (l1 l2 : list Z) : sum_ints (l1 ++ l2) = sum_ints l1 + sum_ints l2.
Proof.
  induction l1 as [|x l1 IH]; [cbn [app]; rewrite sum_ints_nil; lia|].
  cbn [app]. rewrite !sum_ints_cons, IH. lia.
Qed.

Lemma sum_ints_removelast (l : list Z) :
  l <> [] -> sum_ints l = sum_ints (removelast l) + last l 0.
Proof.
  intros H. rewrite (app_removelast_last 0 H) at 1.
  rewrite sum_ints_app, sum_ints_cons, sum_ints_nil. lia.
Qed.

Lemma balanced_counts_from_ok (proportion : list float) :
  forall (ps pre : list float) (sum_samples : Z),
    proportion = pre ++ ps -> ps <> [] -> Forall proportion_ok ps ->
    exists counts,
      balanced_counts_from proportion (List.length proportion) (List.length ps)
        (List.length pre) sum_samples = Ok counts /\
      List.length counts = List.length ps /\
      Forall2 floor_share (removelast ps) (removelast counts) /\
      last counts 0 = total - sum_samples - sum_ints (removelast counts).
Proof.
  induction ps as [|p ps IH]; intros pre sum_samples Ep Hne Hok; [congruence|].
  inversion Hok as [|p0 ps0 Hp Hps]; subst p0 ps0.
  assert (Hlen : List.length proportion = (List.length pre + S (List.length ps))%nat)
    by (rewrite Ep, length_app; reflexivity).
  destruct ps as [|p' rest].
  - (* the last attack *)
    exists [total - sum_samples]. cbn [List.length balanced_counts_from].
    unfold n_samples_at.
    replace (Nat.eqb (List.length pre) (List.length proportion - 1)) with true
      by (symmetry; apply Nat.eqb_eq; cbn [List.length] in Hlen; lia).
    cbn. repeat split; try constructor. lia.
  - destruct (count_ok p Hp) as [scaled [c [Es [Ei Ef]]]].
    destruct (IH (pre ++ [p]) (sum_samples + c)) as [counts [Ec [Lc [F2 La]]]].
    + rewrite Ep, <- app_assoc. reflexivity.
    + discriminate.
    + exact Hps.
    + exists (c :: counts).
      change (List.length (p :: p' :: rest)) with (S (List.length (p' :: rest))).
      cbn [balanced_counts_from]. unfold n_samples_at.
      replace (Nat.eqb (List.length pre) (List.length proportion - 1)) with false
        by (symmetry; apply Nat.eqb_neq; cbn [List.length] in Hlen; lia).
      cbn [negb].
      assert (nth_error proportion (List.length pre) = Some p) as ->.
      { rewrite Ep, nth_error_app2, Nat.sub_diag by lia. reflexivity. }
      rewrite Es. cbn [rbind]. rewrite Ei. cbn [rbind fst snd].
      rewrite length_app in Ec. change (List.length [p]) with 1%nat in Ec.
      replace (List.length pre + 1)%nat with (S (List.length pre)) in Ec by lia.
      rewrite Ec. cbn [rbind].
      assert (counts <> []) as Hcn by (intros ->; discriminate).
      split; [reflexivity|]. split; [cbn [List.length] in *; lia|].
      split.
      * change (removelast (p :: p' :: rest)) with (p :: removelast (p' :: rest)).
        destruct counts as [|c0 counts0]; [congruence|].
        change (removelast (c :: c0 :: counts0)) with (c :: removelast (c0 :: counts0)).
        constructor; [|exact F2]. exists scaled. auto.
      * destruct counts as [|c0 counts0]; [congruence|].
        change (last (c :: c0 :: counts0) 0) with (last (c0 :: counts0) 0).
        change (removelast (c :: c0 :: counts0)) with (c :: removelast (c0 :: counts0)).
        rewrite sum_ints_cons, La. lia.
Qed.

(** ** Exact roundings *)

Section Exact.
Variables prec emax : Z.
Hypothesis Hprec : 0 < prec.
Hypothesis Hmax : prec < emax.

Lemma shr_1_even (K : Z) :
  0 <= K ->
  shr_1 {| shr_m := 2 * K; shr_r := false; shr_s := false |}
    = {| shr_m := K; shr_r := false; shr_s := false |}.
Proof.
  intros HK. destruct K as [|k|k]; try lia; reflexivity.
Qed.

Lemma iter_pos_shr_1_exact (p : positive) :
  forall M, 0 <= M ->
    iter_pos shr_1 p {| shr_m := M * 2 ^ Zpos p; shr_r := false; shr_s := false |}
      = {| shr_m := M; shr_r := false; shr_s := false |}.
Proof.
  induction p as [p IH | p IH |]; intros M HM; cbn [iter_pos].
  - replace (M * 2 ^ Zpos p~1) with (2 * ((M * 2 ^ Zpos p) * 2 ^ Zpos p)).
    + pose proof (pow2_pos (Zpos p) ltac:(lia)).
      rewrite shr_1_even by nia. rewrite IH by nia. apply IH. exact HM.
    + rewrite <- Z.mul_assoc, pow2_double, Pos2Z.inj_xI, Z.pow_add_r, Z.pow_1_r by lia.
      generalize (2 ^ (2 * Zpos p)). intros X. ring.
  - replace (M * 2 ^ Zpos p~0) with ((M * 2 ^ Zpos p) * 2 ^ Zpos p).
    + pose proof (pow2_pos (Zpos p) ltac:(lia)).
      rewrite IH by nia. apply IH. exact HM.
    + rewrite <- Z.mul_assoc, pow2_double, Pos2Z.inj_xO by lia. reflexivity.
  - replace (M * 2 ^ 1) with (2 * M) by lia. apply shr_1_even. exact HM.
Qed.

(** A canonical number given with [n] extra low zero bits rounds to
    itself. *)
Lemma binary_round_aux_exact (s : bool) (M : positive) (E n : Z) :
  0 <= n -> bounded prec emax M E = true ->
  binary_round_aux prec emax s (Zpos M * 2 ^ n) (E - n) loc_Exact = S754_finite s M E.
Proof.
  intros Hn HB.
  destruct (bounded_canonical prec emax M E HB) as [C L].
  unfold binary_round_aux, shr_fexp.
  rewrite Zdigits2_mul_pow2 by lia.
  replace (Zdigits2 (Zpos M) + n + (E - n)) with (Zdigits2 (Zpos M) + E) by lia.
  rewrite C. replace (E - (E - n)) with n by lia.
  cbn [shr_record_of_loc]. unfold shr.
  assert (Hfst : (match n with
                  | Zpos p => (iter_pos shr_1 p {| shr_m := Zpos M * 2 ^ n; shr_r := false; shr_s := false |}, E - n + n)
                  | _ => ({| shr_m := Zpos M * 2 ^ n; shr_r := false; shr_s := false |}, E - n)
                  end) = ({| shr_m := Zpos M; shr_r := false; shr_s := false |}, E)).
  { destruct n as [|p|p]; try lia.
    - rewrite Z.pow_0_r, Z.mul_1_r, Z.sub_0_r. reflexivity.
    - rewrite iter_pos_shr_1_exact by lia. f_equal. lia. }
  rewrite Hfst. cbn [shr_m loc_of_shr_record round_nearest_even].
  rewrite C, Z.sub_diag. cbn [shr_record_of_loc shr_m].
  apply Z.leb_le in L. rewrite L. reflexivity.
Qed.
End Exact.

(** ** Binary32 entries *)

Lemma f32_one : F32.of_int 1 = S754_finite false 8388608 (-23).
Proof. reflexivity. Qed.

Lemma f32_zero : F32.of_int 0 = S754_zero false.
Proof. reflexivity. Qed.

Lemma f32_mul_one (a : spec_float) :
  F32.is_finite a = true -> F32.valid a = true ->
  F32.mul (F32.of_int 1) a = a.
Proof.
  intros Hf Hv. rewrite f32_one. destruct a as [s | s | | s m e]; try discriminate.
  - reflexivity.
  - unfold F32.mul. cbn [SFmul xorb].
    change (Zpos (8388608 * m)) with (Zpos 8388608 * Zpos m).
    replace (Zpos 8388608 * Zpos m) with (Zpos m * 2 ^ 23) by lia.
    replace (-23 + e) with (e - 23) by lia.
    apply binary_round_aux_exact; [lia | exact Hv].
Qed.

Lemma f32_mul_zero (b : spec_float) :
  F32.is_finite b = true -> exists s, F32.mul (F32.of_int 0) b = S754_zero s.
Proof.
  intros Hf. rewrite f32_zero. destruct b as [s | s | | s m e]; try discriminate;
    eexists; reflexivity.
Qed.

Lemma SFcompare_refl_finite (a : spec_float) :
  F32.is_finite a = true -> SFcompare a a = Some Eq.
Proof.
  destruct a as [s | s | | s m e]; try discriminate; intros _; cbn [SFcompare].
  - reflexivity.
  - rewrite Z.compare_refl, Pos.compare_cont_refl. destruct s; reflexivity.
Qed.

(** The entry [1 * a + 0 * b] of the mixed batch. *)
Lemma f32_mix_entry (a b : spec_float) :
  F32.is_finite a = true -> F32.valid a = true -> F32.is_finite b = true ->
  F32.eqb (F32.add (F32.mul (F32.of_int 1) a) (F32.mul (F32.of_int 0) b)) a = true.
Proof.
  intros Fa Va Fb. rewrite (f32_mul_one a Fa Va).
  destruct (f32_mul_zero b Fb) as [s' ->].
  unfold F32.eqb, SFeqb, F32.add.
  destruct a as [s | s | | s m e]; try discriminate.
  - destruct s, s'; reflexivity.
  - cbn [SFadd]. rewrite SFcompare_refl_finite by reflexivity. reflexivity.
Qed.

(** ** Mixup with [alpha <= 0] *)


Lemma row_add_identity (a : list spec_float) :
  forall b, List.length a = List.length b ->
    Forall entry_ok a -> Forall entry_ok b ->
    exists r, row_add (map (F32.mul (F32.of_int 1)) a) (map (F32.mul (F32.of_int 0)) b) = Ok r /\
              row_eqb r a = true.
Proof.
  induction a as [|u a IH]; intros [|v b] Hlen Ha Hb; try discriminate.
  - exists []. split; reflexivity.
  - inversion Ha as [|? ? [Fu Vu] Ha']; subst.
    inversion Hb as [|? ? [Fv Vv] Hb']; subst.
    destruct (IH b ltac:(cbn in Hlen; lia) Ha' Hb') as [r [Er Hr]].
    eexists. cbn [map row_add]. rewrite Er. cbn [rbind]. split; [reflexivity|].
    unfold row_eqb in *. apply andb_prop in Hr. destruct Hr as [H1 H2].
    cbn [List.length combine forallb fst snd].
    rewrite (f32_mix_entry u v Fu Vu Fv). cbn [andb].
    apply andb_true_intro. split; [|exact H2].
    apply Nat.eqb_eq in H1. apply Nat.eqb_eq. cbn. lia.
Qed.

Lemma tensor_add_identity (x : Tensor) :
  forall p : Tensor,
    Forall2 (fun rx rp => List.length rx = List.length rp /\
                          Forall entry_ok rx /\ Forall entry_ok rp) x p ->
    exists m, tensor_add (tensor_scale (PyInt 1) x) (tensor_scale (PyInt 0) p) = Ok m /\
              tensor_eqb m x = true.
Proof.
  induction x as [|rx x IH]; intros p H; inversion H as [|? rp ? p' [Hl [Fx Fp]] H']; subst.
  - exists []. split; reflexivity.
  - destruct (IH p' H') as [m [Em Hm]].
    destruct (row_add_identity rx rp Hl Fx Fp) as [r [Er Hr]].
    exists (r :: m). unfold tensor_scale in *. cbn [map tensor_add f32_of_num] in *.
    rewrite Er. cbn [rbind]. rewrite Em. cbn [rbind]. split; [reflexivity|].
    unfold tensor_eqb in *. apply andb_prop in Hm. destruct Hm as [H1 H2].
    cbn [List.length combine forallb fst snd]. rewrite Hr. cbn [andb].
    apply andb_true_intro. split; [|exact H2].
    apply Nat.eqb_eq in H1. apply Nat.eqb_eq. cbn. lia.
Qed.

Lemma gather_ok {A : Type} (x : list A) (index : list nat) :
  Forall (fun i => (i < List.length x)%nat) index ->
  exists picked, gather x index = Ok picked /\
                 List.length picked = List.length index /\
                 Forall (fun a => In a x) picked.
Proof.
  induction 1 as [|i index Hi Hrest IH].
  - exists []. repeat split. constructor.
  - destruct IH as [picked [E [L F]]].
    destruct (nth_error x i) as [a|] eqn:N.
    + exists (a :: picked). cbn [gather]. rewrite N, E. cbn [rbind].
      repeat split; [cbn; lia|]. constructor; [|exact F].
      eapply nth_error_In. exact N.
    + apply nth_error_None in N. lia.
Qed.

Lemma Forall2_of_Forall {A B : Type} (P : A -> Prop) (Q : B -> Prop) (l1 : list A) :
  forall l2 : list B, List.length l1 = List.length l2 ->
    Forall P l1 -> Forall Q l2 -> Forall2 (fun a b => P a /\ Q b) l1 l2.
Proof.
  induction l1 as [|a l1 IH]; intros [|b l2] Hl H1 H2; try discriminate; constructor.
  - inversion H1; inversion H2; auto.
  - apply IH; [cbn in Hl; lia | inversion H1; auto | inversion H2; auto].
Qed.

Lemma leb_zero_not_gt (alpha : float) :
  (alpha <=? 0)%float = true -> Py.gt_fi alpha 0 = false.
Proof.
  rewrite FloatAxioms.leb_spec. unfold SFleb, Py.gt_fi.
  change (Prim2SF 0) with (S754_zero false).
  destruct (Prim2SF alpha) as [s | s | | s m e]; cbn [SFcompare Py.compare_SF_int].
  - reflexivity.
  - destruct s; intros H; [reflexivity | discriminate].
  - discriminate.
  - destruct s; intros H; [|discriminate].
    cbn [cond_Zopp]. destruct (0 <=? e) eqn:He.
    + apply Z.leb_le in He. pose proof (pow2_pos e He).
      destruct (Z.compare_spec (- Zpos m * 2 ^ e) 0); try reflexivity; nia.
    + destruct (Z.compare_spec (- Zpos m) (0 * 2 ^ (- e))); try reflexivity; lia.
Qed.

(** C6.  For [alpha <= 0] and a batch [x] of images (a tensor whose entries
    are finite, as pixel values are, and whose rows have one length) with
    one label per row, [mixup_data] returns: its first label set is [y],
    [lam] is the int [1], and the mixed batch equals [x] entry by entry (for
    the equality of floats), whatever permutation the generator draws. *)
Theorem mixup_identity_finite
  (Rng : Type) (random_beta : float -> float -> Rng -> float * Rng)
  (randperm : nat -> Rng -> list nat * Rng)
  (x : Tensor) (y : Labels) (alpha : float) (g : Rng) :
  (forall n g0, Permutation (fst (randperm n g0)) (seq 0 n)) ->
  (alpha <=? 0)%float = true ->
  tensor_finite x -> rectangular x -> List.length y = List.length x ->
  exists mixed_x y_b g',
    mixup_data Rng random_beta randperm x y (Some alpha) g
      = Ok (mixed_x, y, y_b, PyInt 1, g') /\
    tensor_eqb mixed_x x = true.
Proof.
  intros Hperm Halpha Hfin [d Hrect] Hy.
  unfold mixup_data. rewrite (leb_zero_not_gt alpha Halpha).
  specialize (Hperm (List.length x) g).
  destruct (randperm (List.length x) g) as [index g2]. cbn [fst] in Hperm.
  assert (Hidx : Forall (fun i => (i < List.length x)%nat) index).
  { apply Forall_forall. intros i Hi.
    apply (Permutation_in _ Hperm) in Hi. apply in_seq in Hi. lia. }
  assert (Hlen : List.length index = List.length x).
  { rewrite (Permutation_length Hperm). apply length_seq. }
  destruct (gather_ok x index Hidx) as [picked [Ep [Lp Fp]]].
  destruct (gather_ok y index ltac:(rewrite Hy; exact Hidx)) as [y_b [Ey _]].
  rewrite Ep. cbn [rbind one_minus]. change (1 - 1) with 0.
  assert (H2 : Forall2 (fun rx rp => List.length rx = List.length rp /\
                                     Forall entry_ok rx /\ Forall entry_ok rp) x picked).
  { assert (Hx : Forall (fun rx => List.length rx = d /\ Forall entry_ok rx) x).
    { unfold tensor_finite in Hfin.
      apply Forall_forall. intros r Hr. split.
      - rewrite Forall_forall in Hrect. apply Hrect. exact Hr.
      - rewrite Forall_forall in Hfin. apply Hfin. exact Hr. }
    assert (Hp : Forall (fun rp => List.length rp = d /\ Forall entry_ok rp) picked).
    { apply Forall_forall. intros r Hr.
      rewrite Forall_forall in Hx, Fp. apply Hx. apply Fp. exact Hr. }
    pose proof (Forall2_of_Forall _ _ x picked ltac:(lia) Hx Hp) as F.
    eapply Forall2_impl; [|exact F]. cbn. intros a b [[L1 F1] [L2 F2]].
    split; [congruence | auto]. }
  destruct (tensor_add_identity x picked H2) as [m [Em Hm]].
  rewrite Em. cbn [rbind]. rewrite Ey. cbn [rbind].
  exists m, y_b, g2. split; [reflexivity | exact Hm].
Qed.


(** ** The counts against the exact shares *)

(** [int(x)] of a positive float is the floor of its value. *)
Lemma int_floor_R (x : float) (v : R) :
  pos_finite x v ->
  exists c, Py.int x = Ok c /\ Py.floor x = Ok c /\ (IZR c <= v < IZR c + 1)%R.
Proof.
  intros [M [E [P [_ ->]]]]. exists (Z.shiftl (Zpos M) E).
  unfold Py.int, Py.floor. rewrite P. cbn [Py.int_of_SF Py.floor_of_SF cond_Zopp].
  split; [reflexivity|]. split; [reflexivity|].
  destruct (Z_le_gt_dec 0 E) as [HE | HE].
  - rewrite Z.shiftl_mul_pow2 by lia. rewrite mult_IZR, <- bpow_IZR by lia. lra.
  - assert (Hs : Z.shiftl (Zpos M) E = Zpos M / 2 ^ (- E)).
    { rewrite <- (Z.opp_involutive E) at 1. rewrite Z.shiftl_opp_r.
      apply Z.shiftr_div_pow2. lia. }
    rewrite Hs.
    replace (bpow E) with (/ IZR (2 ^ (- E)))%R
      by (rewrite <- (bpow_neg_val (- E)) by lia; f_equal; lia).
    set (k := 2 ^ (- E)).
    assert (Hk : 0 < k) by (apply Z.pow_pos_nonneg; lia).
    pose proof (Z.div_mod (Zpos M) k ltac:(lia)) as Hd.
    pose proof (Z.mod_pos_bound (Zpos M) k Hk) as Hm.
    set (c := Zpos M / k) in *.
    assert (Rk : (0 < IZR k)%R) by (apply IZR_lt; lia).
    assert (H1 : (IZR k * IZR c <= IZR (Zpos M))%R)
      by (rewrite <- mult_IZR; apply IZR_le; lia).
    assert (H2 : (IZR (Zpos M) < IZR k * (IZR c + 1))%R).
    { rewrite <- (plus_IZR c 1), <- mult_IZR. apply IZR_lt. lia. }
    split.
    + apply Rmult_le_reg_l with (IZR k); [exact Rk|].
      rewrite <- Rmult_assoc, (Rmult_comm (IZR k) (IZR (Zpos M))), Rmult_assoc.
      rewrite Rinv_r, Rmult_1_r by lra. exact H1.
    + apply Rmult_lt_reg_l with (IZR k); [exact Rk|].
      rewrite <- Rmult_assoc, (Rmult_comm (IZR k) (IZR (Zpos M))), Rmult_assoc.
      rewrite Rinv_r, Rmult_1_r by lra. exact H2.
Qed.

(** Three roundings and the conversion of the two ints move the product
    [r / S * total] by less than [1 / S]. *)
Lemma share_error (N S va vb vq vs r : R) :
  (1 <= r)%R -> (r <= S)%R -> (N = r * 50000)%R -> (N <= 281474976710656)%R ->
  (r * (1 - eps64) <= va <= r * (1 + eps64))%R ->
  (S * (1 - eps64) <= vb <= S * (1 + eps64))%R ->
  (va / vb * (1 - eps64) <= vq <= va / vb * (1 + eps64))%R ->
  (vq * 50000 * (1 - eps64) <= vs <= vq * 50000 * (1 + eps64))%R ->
  (N - 1 < S * vs < N + 1)%R.
Proof.
  intros Hr HrS HN HNb Ha Hb Hq Hs.
  pose proof eps64_val as Ee. set (E := eps64) in *.
  assert (He : (0 < E < / 1000)%R) by (rewrite Ee; lra).
  assert (Pva : (0 < va)%R) by nra.
  assert (Pvb : (0 < vb)%R) by nra.
  set (Y := (va / vb)%R) in *.
  assert (EY : (Y * vb = va)%R) by (unfold Y; field; lra).
  assert (PY : (0 < Y)%R) by (unfold Y; apply Rdiv_lt_0_compat; assumption).
  assert (Pvq : (0 < vq)%R) by nra.
  (* vq * S against r *)
  assert (U1 : (vq * vb <= va * (1 + E))%R).
  { destruct Hq as [_ Hq]. apply Rmult_le_compat_r with (r := vb) in Hq; [|lra].
    replace (Y * (1 + E) * vb)%R with (Y * vb * (1 + E))%R in Hq by ring.
    rewrite EY in Hq. exact Hq. }
  assert (L1 : (va * (1 - E) <= vq * vb)%R).
  { destruct Hq as [Hq _]. apply Rmult_le_compat_r with (r := vb) in Hq; [|lra].
    replace (Y * (1 - E) * vb)%R with (Y * vb * (1 - E))%R in Hq by ring.
    rewrite EY in Hq. exact Hq. }
  set (T := (vq * S)%R).
  assert (PT : (0 < T)%R) by (unfold T; nra).
  assert (U2 : (T * (1 - E) <= r * ((1 + E) * (1 + E)))%R).
  { assert (vq * (S * (1 - E)) <= vq * vb)%R by (apply Rmult_le_compat_l; lra).
    assert (va * (1 + E) <= r * (1 + E) * (1 + E))%R by (apply Rmult_le_compat_r; lra).
    unfold T. lra. }
  assert (L2 : (r * ((1 - E) * (1 - E)) <= T * (1 + E))%R).
  { assert (vq * vb <= vq * (S * (1 + E)))%R by (apply Rmult_le_compat_l; lra).
    assert (r * (1 - E) * (1 - E) <= va * (1 - E))%R by (apply Rmult_le_compat_r; lra).
    unfold T. lra. }
  assert (ES : (S * vs <= T * 50000 * (1 + E))%R).
  { destruct Hs as [_ Hs]. apply Rmult_le_compat_l with (r := S) in Hs; [|lra].
    unfold T. lra. }
  assert (LS : (T * 50000 * (1 - E) <= S * vs)%R).
  { destruct Hs as [Hs _]. apply Rmult_le_compat_l with (r := S) in Hs; [|lra].
    unfold T. lra. }
  set (X := (S * vs)%R) in *.
  (* N E is small *)
  set (NE := (N * E)%R).
  assert (HNE : (0 <= NE <= / 16)%R).
  { unfold NE. split; [nra|].
    assert (N * E <= 281474976710656 * E)%R by (apply Rmult_le_compat_r; lra).
    rewrite Ee in *. lra. }
  assert (PN : (50000 <= N)%R) by lra.
  split.
  - (* N - 1 < X *)
    assert (A1 : (N * ((1 - E) * (1 - E) * (1 - E)) <= X * (1 + E))%R).
    { assert (r * ((1 - E) * (1 - E)) * (50000 * (1 - E)) <= T * (1 + E) * (50000 * (1 - E)))%R
        by (apply Rmult_le_compat_r; nra).
      assert (T * 50000 * (1 - E) * (1 + E) <= X * (1 + E))%R
        by (apply Rmult_le_compat_r; lra).
      rewrite HN. lra. }
    assert (A2 : ((N - 1) * (1 + E) < N * ((1 - E) * (1 - E) * (1 - E)))%R).
    { replace (N * ((1 - E) * (1 - E) * (1 - E)))%R
        with (N - 3 * NE + 3 * NE * E - NE * E * E)%R by (unfold NE; ring).
      replace ((N - 1) * (1 + E))%R with (N + NE - 1 - E)%R by (unfold NE; ring).
      assert (0 <= NE * E)%R by nra.
      assert (NE * E * E <= NE * E)%R by nra.
      assert (NE * E <= NE)%R by nra.
      lra. }
    apply Rmult_lt_reg_r with (1 + E)%R; lra.
  - assert (A1 : (X * (1 - E) <= N * ((1 + E) * (1 + E) * (1 + E)))%R).
    { assert (T * (1 - E) * (50000 * (1 + E)) <= r * ((1 + E) * (1 + E)) * (50000 * (1 + E)))%R
        by (apply Rmult_le_compat_r; nra).
      assert (X * (1 - E) <= T * 50000 * (1 + E) * (1 - E))%R
        by (apply Rmult_le_compat_r; lra).
      rewrite HN. lra. }
    assert (A2 : (N * ((1 + E) * (1 + E) * (1 + E)) < (N + 1) * (1 - E))%R).
    { replace (N * ((1 + E) * (1 + E) * (1 + E)))%R
        with (N + 3 * NE + 3 * NE * E + NE * E * E)%R by (unfold NE; ring).
      replace ((N + 1) * (1 - E))%R with (N - NE + 1 - E)%R by (unfold NE; ring).
      assert (0 <= NE * E)%R by nra.
      assert (NE * E * E <= NE * E)%R by nra.
      assert (NE * E <= NE)%R by nra.
      lra. }
    apply Rmult_lt_reg_r with (1 - E)%R; lra.
Qed.

Lemma share_of_floor (S r c : Z) (p : float) :
  0 < r <= S -> S < 2 ^ 32 ->
  normalised_from S r p -> floor_share p c -> share_of S r c.
Proof.
  intros Hr HS [a [b [Ea [Eb ->]]]] [scaled [Es Ec]].
  assert (P32 : 2 ^ 32 < 2 ^ 1023) by (apply Z.pow_lt_mono_r; lia).
  destruct (float_of_int_R r ltac:(lia)) as [a' [va [Ea' [Ha Va]]]].
  destruct (float_of_int_R S ltac:(lia)) as [b' [vb [Eb' [Hb Vb]]]].
  rewrite Ea in Ea'. rewrite Eb in Eb'. inversion Ea'; inversion Eb'; subst a' b'.
  clear Ea' Eb'.
  pose proof eps64_val as Ee.
  assert (He0 : (0 < eps64 < / 1000)%R) by (rewrite Ee; lra).
  pose proof (pos_finite_pos a va Ha) as Pa.
  pose proof (pos_finite_pos b vb Hb) as Pb.
  assert (R1 : (1 <= IZR r)%R) by (apply IZR_le; lia).
  assert (R2 : (IZR r <= IZR S)%R) by (apply IZR_le; lia).
  assert (R3 : (IZR S <= 4294967296)%R) by (apply IZR_le; change (2 ^ 32) with 4294967296 in HS; lia).
  set (Y := (va / vb)%R).
  assert (EY : (Y * vb = va)%R) by (unfold Y; field; lra).
  assert (PY : (0 < Y)%R) by (unfold Y; apply Rdiv_lt_0_compat; assumption).
  assert (HY : (/ 8589934592 <= Y <= 3 / 2)%R).
  { split.
    - apply Rmult_le_reg_r with vb; [exact Pb|]. rewrite EY. nra.
    - apply Rmult_le_reg_r with vb; [exact Pb|]. rewrite EY. nra. }
  assert (B40 : (bpow (-1022) <= / 8589934592)%R).
  { replace (/ 8589934592)%R with (bpow (- (33))).
    - apply bpow_le. lia.
    - rewrite bpow_neg_val by lia. reflexivity. }
  pose proof bpow_1023_ge as B1023.
  destruct (div_R a b va vb Ha Hb) as [vq [Hq Vq]]; [fold Y; lra|].
  fold Y in Vq.
  destruct float_total as [fT [ET HT]].
  pose proof (pos_finite_pos _ vq Hq) as Pq.
  assert (B17 : (131072 <= bpow 1023)%R).
  { replace 131072%R with (bpow 17) by (rewrite bpow_IZR by lia; reflexivity).
    apply bpow_le. lia. }
  destruct (mul_R (a / b) fT vq 50000 Hq HT) as [vs [Hs Vs]]; [nra|].
  unfold Py.mul_fi in Es. rewrite ET in Es. cbn [rbind] in Es. inversion Es; subst scaled.
  destruct (int_floor_R _ vs Hs) as [c' [_ [Ec' Hc]]].
  rewrite Ec in Ec'. inversion Ec'; subst c'. clear Ec'.
  set (N := r * total).
  assert (HN : (IZR N = IZR r * 50000)%R) by (unfold N, total; rewrite mult_IZR; reflexivity).
  assert (HNb : (IZR N <= 281474976710656)%R).
  { apply IZR_le. unfold N, total. change (2 ^ 32) with 4294967296 in HS. nia. }
  destruct (share_error (IZR N) (IZR S) va vb vq vs (IZR r) R1 R2 HN HNb Va Vb Vq Vs)
    as [Lo Hi].
  assert (PS : (0 < IZR S)%R) by lra.
  (* back to the integers *)
  assert (Z1 : S * c <= N).
  { assert (IZR (S * c) < IZR (N + 1))%R.
    { rewrite mult_IZR, plus_IZR.
      assert (IZR S * IZR c <= IZR S * vs)%R by (apply Rmult_le_compat_l; lra). lra. }
    apply lt_IZR in H. lia. }
  assert (Z2 : N <= S * (c + 1)).
  { assert (IZR (N - 1) < IZR (S * (c + 1)))%R.
    { rewrite mult_IZR, minus_IZR, plus_IZR.
      assert (IZR S * vs < IZR S * (IZR c + 1))%R by (apply Rmult_lt_compat_l; lra). lra. }
    apply lt_IZR in H. lia. }
  fold N. unfold share_of. fold N.
  assert (HSp : 0 < S) by lia.
  pose proof (Z.div_mod N S ltac:(lia)) as Hd.
  pose proof (Z.mod_pos_bound N S HSp) as Hm.
  split.
  - split; nia.
  - intros Hnz. nia.
Qed.
(** * Facts about the script *)

Section ScriptFacts.
Context {C : Collaborators}.

(** *** Running the monad *)

Lemma bind_ok {A B : Type} (m : M A) (k : A -> M B) (w w1 : World) (a : A) :
  m w = (Ok a, w1) -> bind m k w = k a w1.
Proof. intros H. unfold bind. rewrite H. reflexivity. Qed.

Lemma bind_raise {A B : Type} (m : M A) (k : A -> M B) (w w1 : World) (e : py_exception) :
  m w = (Raise e, w1) -> bind m k w = (Raise e, w1).
Proof. intros H. unfold bind. rewrite H. reflexivity. Qed.

Lemma world_eta (w : World) : {| fs := fs w; trace := trace w; rng := rng w |} = w.
Proof. destruct w; reflexivity. Qed.

(** *** Quiet computations *)

Lemma quiet_ret {A : Type} (P : event -> bool) (a : A) : quiet P (ret a).
Proof. intros w. cbn. split; [reflexivity|]. exists []. rewrite app_nil_r. auto. Qed.

Lemma quiet_raise {A : Type} (P : event -> bool) (e : py_exception) :
  quiet P (raise e : M A).
Proof. intros w. cbn. split; [reflexivity|]. exists []. rewrite app_nil_r. auto. Qed.

Lemma quiet_lift {A : Type} (P : event -> bool) (r : result A) : quiet P (lift r).
Proof. intros w. cbn. split; [reflexivity|]. exists []. rewrite app_nil_r. auto. Qed.

Lemma quiet_emit (P : event -> bool) (e : event) : P e = true -> quiet P (emit e).
Proof.
  intros H w. cbn. split; [reflexivity|]. exists [e]. split; [reflexivity|].
  cbn. rewrite H. reflexivity.
Qed.

Lemma quiet_with_rng {A : Type} (P : event -> bool) (draw : Rng -> A * Rng) :
  quiet P (with_rng draw).
Proof.
  intros w. unfold with_rng. destruct (draw (rng w)) as [a g]. cbn.
  split; [reflexivity|]. exists []. rewrite app_nil_r. auto.
Qed.

Lemma quiet_set_rng (P : event -> bool) (g : Rng) : quiet P (set_rng g).
Proof. intros w. cbn. split; [reflexivity|]. exists []. rewrite app_nil_r. auto. Qed.

Lemma quiet_torch_load (P : event -> bool) (path : string) :
  P (TorchLoad path) = true -> quiet P (torch_load path).
Proof.
  intros H w. unfold torch_load. destruct (fs w path); cbn.
  - split; [reflexivity|]. exists [TorchLoad path]. split; [reflexivity|].
    cbn. rewrite H. reflexivity.
  - split; [reflexivity|]. exists []. rewrite app_nil_r. auto.
Qed.

Lemma quiet_bind {A B : Type} (P : event -> bool) (m : M A) (k : A -> M B) :
  quiet P m -> (forall a, quiet P (k a)) -> quiet P (bind m k).
Proof.
  intros Hm Hk w. unfold bind. specialize (Hm w).
  destruct (m w) as [[a | e] w1]; cbn [snd] in *.
  - destruct Hm as [F1 [evs1 [T1 P1]]]. specialize (Hk a w1).
    destruct (k a w1) as [r w2]. cbn [snd] in *.
    destruct Hk as [F2 [evs2 [T2 P2]]].
    split; [congruence|]. exists (evs1 ++ evs2).
    rewrite T2, T1, <- app_assoc, forallb_app, P1, P2. auto.
  - exact Hm.
Qed.

Lemma quiet_for_each {A S : Type} (P : event -> bool) (l : list A) (body : A -> S -> M S) :
  (forall x s, quiet P (body x s)) -> forall s, quiet P (for_each l body s).
Proof.
  intros Hb. induction l as [|x l IH]; intros s; cbn [for_each].
  - apply quiet_ret.
  - apply quiet_bind; [apply Hb | exact IH].
Qed.

Lemma quiet_weaken {A : Type} (P Q : event -> bool) (m : M A) :
  (forall e, P e = true -> Q e = true) -> quiet P m -> quiet Q m.
Proof.
  intros HPQ Hm w. destruct (Hm w) as [F [evs [T Pe]]].
  split; [exact F|]. exists evs. split; [exact T|].
  rewrite forallb_forall in *. auto.
Qed.

Ltac quiet_step :=
  first
    [ apply quiet_ret | apply quiet_raise | apply quiet_lift
    | apply quiet_emit; reflexivity
    | apply quiet_with_rng | apply quiet_set_rng
    | apply quiet_torch_load; reflexivity
    | apply quiet_for_each; intros
    | apply quiet_bind; [| intros ?]
    | match goal with
      | |- quiet _ (if ?b then _ else _) => destruct b
      | |- quiet _ (match ?x with _ => _ end) => destruct x
      end ].

Ltac quiet_auto := repeat quiet_step.

Lemma quiet_load_adv (P : event -> bool) (path : string) :
  (forall p, P (TorchLoad p) = true) -> quiet P (load_adv path).
Proof.
  intros H. unfold load_adv. apply quiet_bind; [apply quiet_torch_load, H|].
  intros f. destruct f; quiet_auto.
Qed.

Lemma quiet_subsample (P : event -> bool) (args : Args) (set : list Sample) :
  quiet P (subsample args set).
Proof. unfold subsample. quiet_auto. Qed.

Lemma quiet_setup (args : Args) : quiet data_event (setup args).
Proof.
  unfold setup, clean_train_set. quiet_auto; apply quiet_subsample.
Qed.

Lemma quiet_assemble_adv (args : Args) : quiet data_event (assemble_adv args).
Proof.
  unfold assemble_adv, load_and_concat, balanced_body, unwrap_sets.
  quiet_auto; try (apply quiet_load_adv; reflexivity).
Qed.

Lemma quiet_prepare (args : Args) (d : Data) (sets : AdvSets) :
  quiet prep_event (prepare args d sets).
Proof.
  unfold prepare, resume_state.
  destruct sets as [[[a b] c] e].
  quiet_auto; apply quiet_subsample.
Qed.

Lemma quiet_preparation (args : Args) : quiet prep_event (preparation args).
Proof.
  unfold preparation.
  apply quiet_bind.
  - apply (quiet_weaken data_event); [|apply quiet_setup].
    intros e He. destruct e; try discriminate; reflexivity.
  - intros d. apply quiet_bind.
    + apply (quiet_weaken data_event); [|apply quiet_assemble_adv].
      intros e He. destruct e; try discriminate; reflexivity.
    + intros sets. apply quiet_prepare.
Qed.

(** *** An unknown attack *)

Lemma assemble_adv_unknown (args : Args) (w : World) :
  known_attack (attack args) = false ->
  assemble_adv args w = (Raise (ValueError "Unknown adversarial data"), w).
Proof.
  unfold known_attack. intros H.
  apply orb_false_elim in H. destruct H as [H H4].
  apply orb_false_elim in H. destruct H as [H H3].
  apply orb_false_elim in H. destruct H as [H1 H2].
  unfold assemble_adv. rewrite H1, H2, H3, H4. reflexivity.
Qed.

(** C8. An [--attack] value that is none of the eleven names of
    [ATTACK_LIST], none of [ffgsm], [mifgsm], [tpgd], and neither [all] nor
    [combine] makes [main] raise: no file is written, and the events of the
    run are those of the data setup only, so neither the classifier nor the
    optimiser is created; whenever the setup before the assembly goes
    through, the exception is [ValueError("Unknown adversarial data")],
    raised by the assembly in the world the setup left. *)
Theorem unknown_attack_is_fatal (args : Args) (w : World) :
  ~ In (attack args) ATTACK_LIST ->
  ~ In (attack args) TUPLE_ATTACKS ->
  attack args <> "all"%string -> attack args <> "combine"%string ->
  exists (e : py_exception) (w' : World),
    main args w = (Raise e, w') /\
    fs w' = fs w /\
    (exists evs, trace w' = trace w ++ evs /\ forallb data_event evs = true) /\
    (forall d w1, setup args w = (Ok d, w1) ->
       e = ValueError "Unknown adversarial data" /\ w' = w1).
Proof.
  intros N1 N2 N3 N4.
  assert (K : known_attack (attack args) = false).
  { unfold known_attack, in_strings.
    assert (E : forall l, ~ In (attack args) l -> existsb (String.eqb (attack args)) l = false).
    { intros l Hl. destruct (existsb (String.eqb (attack args)) l) eqn:X; [|reflexivity].
      apply existsb_exists in X. destruct X as [x [Hx Ex]].
      apply String.eqb_eq in Ex. subst x. contradiction. }
    rewrite (E _ N1), (E _ N2).
    apply String.eqb_neq in N3. apply String.eqb_neq in N4. rewrite N3, N4. reflexivity. }
  pose proof (quiet_setup args w) as Q.
  unfold main, preparation.
  destruct (setup args w) as [[d | e] w1] eqn:S; cbn [snd] in Q.
  - exists (ValueError "Unknown adversarial data"), w1.
    split.
    + erewrite bind_raise; [reflexivity|].
      erewrite bind_ok by exact S.
      erewrite bind_raise; [reflexivity|].
      apply assemble_adv_unknown. exact K.
    + destruct Q as [F T]. split; [exact F|]. split; [exact T|].
      intros d' w1' E. inversion E; subst. split; reflexivity.
  - exists e, w1. split.
    + erewrite bind_raise; [reflexivity|].
      erewrite bind_raise; [reflexivity|]. exact S.
    + destruct Q as [F T]. split; [exact F|]. split; [exact T|].
      intros d' w1' E. discriminate.
Qed.

(** *** [--eval] without [--resume] *)

(** C9. With [--eval] and without [--resume], once the preparation has gone
    through, [main] logs one informational message and returns normally:
    nothing else happens after the preparation, which itself writes no file
    and runs no evaluation or training step. *)
Theorem eval_without_resume_returns (args : Args) (w w1 : World) (c : Context) :
  eval_only args = true -> resume args = 0 ->
  preparation args w = (Ok c, w1) ->
  main args w
    = (Ok tt, {| fs := fs w1;
                 trace := trace w1
                   ++ [LogInfo "No model loaded to evaluate, specify with --resume FNAME"];
                 rng := rng w1 |}) /\
  fs w1 = fs w /\
  exists evs, trace w1 = trace w ++ evs /\ forallb prep_event evs = true.
Proof.
  intros He Hr Hp.
  pose proof (quiet_preparation args w) as Q. rewrite Hp in Q. cbn [snd] in Q.
  split; [|exact Q].
  unfold main. erewrite bind_ok by exact Hp.
  unfold run. rewrite He, Hr. reflexivity.
Qed.

(** *** The training step *)

Lemma train_step_plain (args : Args) (epoch n_batches : Z) (i : nat)
  (batch adv_batch : Batch) (ts : TrainState) (sums : TrainSums) (w : World) :
  mixup args = false -> matched batch adv_batch ->
  train_step args epoch n_batches i batch adv_batch (ts, sums) w =
    match scheduled_lr args epoch n_batches i with
    | Raise e => (Raise e, w)
    | Ok new_lr =>
        match set_lr_of_first_group new_lr (param_groups (opt ts)) with
        | Raise e => (Raise e, w)
        | Ok groups =>
            let ro := forward true (params ts) (normalize (input adv_batch)) in
            let robust_loss := add_l1 args (snd ro) (criterion (fst ro) (target batch)) in
            let stepped := backward_step groups (opt_state (opt ts)) (snd ro) robust_loss in
            let co := forward true (fst stepped) (normalize (input batch)) in
            let loss := criterion (fst co) (target batch) in
            let w' := {| fs := fs w; trace := trace w ++ step_events; rng := rng w |} in
            match Py.mul_fi (item robust_loss) (size0 (target adv_batch)) with
            | Raise e => (Raise e, w')
            | Ok rl =>
                match Py.mul_fi (item loss) (size0 (target batch)) with
                | Raise e => (Raise e, w')
                | Ok cl =>
                    (Ok ({| params := snd co;
                            opt := {| param_groups := groups; opt_state := snd stepped |};
                            lr := Some new_lr;
                            best_test_robust_acc := best_test_robust_acc ts;
                            best_val_robust_acc := best_val_robust_acc ts |},
                         {| train_loss := (train_loss sums + cl)%float;
                            train_acc := train_acc sums + count_correct (fst co) (target batch);
                            train_robust_loss := (train_robust_loss sums + rl)%float;
                            train_robust_acc :=
                              train_robust_acc sums + count_correct (fst ro) (target adv_batch);
                            train_n := train_n sums + size0 (target batch) |}), w')
                end
            end
        end
    end.
Proof.
  intros Hm [Ha Hb]. unfold train_step. rewrite Hm.
  cbv beta iota zeta delta
    [bind lift ret model_forward emit batch_loss apply_criterion step_events].
  destruct (scheduled_lr args epoch n_batches i) as [new_lr | e]; [|reflexivity].
  cbn [fst snd].
  destruct (set_lr_of_first_group new_lr (param_groups (opt ts))) as [groups | e];
    [|reflexivity].
  cbn [fst snd fs trace rng]. rewrite Ha, Hb, !Nat.eqb_refl.
  rewrite <- !app_assoc. cbn [app].
  destruct (Py.mul_fi _ (size0 (target adv_batch))) as [rl | e]; [|reflexivity].
  destruct (Py.mul_fi _ (size0 (target batch))) as [cl | e]; reflexivity.
Qed.

Lemma train_step_matched (args : Args) (epoch n_batches : Z) (i : nat)
  (batch adv_batch : Batch) (st st' : TrainState * TrainSums) (w w' : World) :
  mixup args = false ->
  train_step args epoch n_batches i batch adv_batch st w = (Ok st', w') ->
  matched batch adv_batch.
Proof.
  intros Hm. destruct st as [ts sums]. unfold train_step. rewrite Hm.
  cbv beta iota zeta delta [bind lift ret model_forward emit batch_loss apply_criterion].
  destruct (scheduled_lr args epoch n_batches i) as [new_lr | e]; [|discriminate].
  cbn [fst snd].
  destruct (set_lr_of_first_group new_lr (param_groups (opt ts))) as [groups | e];
    [|discriminate].
  cbn [fst snd fs trace rng].
  destruct (Nat.eqb_spec (List.length (input adv_batch)) (List.length (target batch)))
    as [Ha | _]; [|discriminate].
  cbn [fst snd fs trace rng].
  destruct (Nat.eqb_spec (List.length (input batch)) (List.length (target batch)))
    as [Hb | _]; [|discriminate].
  intros _. split; assumption.
Qed.

(** C2. In a training step without mixup that returns, the loss that is
    differentiated for the optimiser step is the criterion of the
    adversarial batch's output against the labels [y] of the clean batch (to
    which the L1 terms are added when [--l1] is given), the loss sum is
    advanced by that loss times the adversarial batch size, and the robust
    accuracy counter is advanced by the number of adversarial outputs that
    agree with the adversarial batch's own labels [y_adv]; the updated
    classifier and optimiser do not depend on [y_adv]. *)
Theorem robust_loss_pairs_clean_labels (args : Args) (epoch n_batches : Z) (i : nat)
  (batch adv_batch : Batch) (ts ts' : TrainState) (sums sums' : TrainSums) (w w' : World) :
  mixup args = false ->
  train_step args epoch n_batches i batch adv_batch (ts, sums) w = (Ok (ts', sums'), w') ->
  let ro := forward true (params ts) (normalize (input adv_batch)) in
  let robust_loss := add_l1 args (snd ro) (criterion (fst ro) (target batch)) in
  (Py.truthy (l1 args) = false -> robust_loss = criterion (fst ro) (target batch)) /\
  (exists groups rl,
      let stepped := backward_step groups (opt_state (opt ts)) (snd ro) robust_loss in
      opt ts' = {| param_groups := groups; opt_state := snd stepped |} /\
      params ts' = snd (forward true (fst stepped) (normalize (input batch))) /\
      Py.mul_fi (item robust_loss) (size0 (target adv_batch)) = Ok rl /\
      train_robust_loss sums' = (train_robust_loss sums + rl)%float) /\
  train_robust_acc sums'
    = train_robust_acc sums + count_correct (fst ro) (target adv_batch) /\
  (forall (y_adv' : Labels) ts'' sums'' w'',
      train_step args epoch n_batches i batch
        {| input := input adv_batch; target := y_adv' |} (ts, sums) w
        = (Ok (ts'', sums''), w'') ->
      params ts'' = params ts' /\ opt ts'' = opt ts').
Proof.
  intros Hm H ro robust_loss.
  split.
  { intros Hl1. unfold robust_loss, add_l1. rewrite Hl1. reflexivity. }
  pose proof (train_step_matched _ _ _ _ _ _ _ _ _ _ Hm H) as Hmt.
  rewrite (train_step_plain _ _ _ _ _ _ _ _ _ Hm Hmt) in H.
  destruct (scheduled_lr args epoch n_batches i) as [new_lr | e] eqn:Elr; [|discriminate].
  destruct (set_lr_of_first_group new_lr (param_groups (opt ts))) as [groups | e] eqn:Eg;
    [|discriminate].
  cbv zeta in H. fold ro in H. fold robust_loss in H.
  destruct (Py.mul_fi (item robust_loss) (size0 (target adv_batch))) as [rl | e] eqn:Erl;
    [|discriminate].
  destruct (Py.mul_fi _ (size0 (target batch))) as [cl | e] eqn:Ecl; [|discriminate].
  inversion H; subst; clear H. cbn [params opt train_robust_loss train_robust_acc].
  split; [|split].
  - exists groups, rl. cbv zeta. repeat split; reflexivity.
  - reflexivity.
  - intros y_adv' ts'' sums'' w'' H'.
    assert (Hmt' : matched batch {| input := input adv_batch; target := y_adv' |})
      by exact Hmt.
    rewrite (train_step_plain _ _ _ _ _ _ _ _ _ Hm Hmt') in H'.
    rewrite Elr, Eg in H'.
    cbv zeta in H'. cbn [input target] in H'. fold ro in H'. fold robust_loss in H'.
    destruct (Py.mul_fi (item robust_loss) (size0 y_adv')) as [rl' | e]; [|discriminate].
    rewrite Ecl in H'. inversion H'; subst; clear H'.
    cbn [params opt]. split; reflexivity.
Qed.

(** *** The steps of the training loop *)






Lemma train_loop_eval (args : Args) (epoch n_batches : Z) (i : nat)
  (pairs : list (Batch * Batch)) (st : TrainState * TrainSums) (w : World) :
  eval_only args = true -> train_loop args epoch n_batches i pairs st w = (Ok st, w).
Proof. intros He. destruct pairs as [|[b a] rest]; cbn [train_loop]; [|rewrite He]; reflexivity. Qed.

(** *** Steps that go through *)







(** *** What a step that returns has done *)

Lemma train_step_inv (args : Args) (epoch n_batches : Z) (i : nat)
  (batch adv_batch : Batch) (ts ts' : TrainState) (sums sums' : TrainSums) (w w' : World) :
  train_step args epoch n_batches i batch adv_batch (ts, sums) w = (Ok (ts', sums'), w') ->
  exists new_lr groups,
    scheduled_lr args epoch n_batches i = Ok new_lr /\
    set_lr_of_first_group new_lr (param_groups (opt ts)) = Ok groups /\
    param_groups (opt ts') = groups /\ lr ts' = Some new_lr.
Proof.
  unfold train_step.
  cbv beta iota zeta delta [bind lift ret model_forward emit batch_loss].
  destruct (_ w) as [[xm | e] w0]; [|discriminate].
  destruct (scheduled_lr args epoch n_batches i) as [new_lr | e] eqn:E1; [|discriminate].
  destruct (set_lr_of_first_group new_lr (param_groups (opt ts))) as [groups | e] eqn:E2;
    [|discriminate].
  cbn [fst snd fs trace rng].
  match goal with |- context [match ?r with Ok _ => _ | Raise _ => _ end] =>
    destruct r as [robust_loss | e] end; [|discriminate].
  cbn [fst snd fs trace rng].
  match goal with |- context [match ?r with Ok _ => _ | Raise _ => _ end] =>
    destruct r as [loss | e] end; [|discriminate].
  cbn [fst snd fs trace rng].
  destruct (Py.mul_fi _ (size0 (target adv_batch))) as [rl | e]; [|discriminate].
  destruct (Py.mul_fi _ (size0 (target batch))) as [cl | e]; [|discriminate].
  intros H. inversion H; subst; clear H. exists new_lr, groups.
  repeat split; auto.
Qed.

(** C3. A training step that returns has computed the rate
    [lr_schedule(epoch + (i + 1) / len(train_batches))] and written it into
    the first parameter group of the optimiser only: the groups after the
    first are the ones the step found, with the learning rate they had. *)
Theorem scheduled_lr_reaches_first_group_only (args : Args) (epoch n_batches : Z) (i : nat)
  (batch adv_batch : Batch) (ts ts' : TrainState) (sums sums' : TrainSums) (w w' : World) :
  train_step args epoch n_batches i batch adv_batch (ts, sums) w = (Ok (ts', sums'), w') ->
  exists new_lr g rest,
    scheduled_lr args epoch n_batches i = Ok new_lr /\
    lr ts' = Some new_lr /\
    param_groups (opt ts) = g :: rest /\
    param_groups (opt ts') = update_lr new_lr g :: rest /\
    map pg_lr (param_groups (opt ts')) = new_lr :: map pg_lr rest.
Proof.
  intros H. destruct (train_step_inv _ _ _ _ _ _ _ _ _ _ _ _ H) as [new_lr [groups [E1 [E2 [E3 E4]]]]].
  destruct (param_groups (opt ts)) as [|g rest]; [discriminate|].
  cbn [set_lr_of_first_group] in E2. inversion E2 as [E5]. rewrite <- E5 in E3.
  exists new_lr, g, rest. rewrite E3. repeat split; auto.
Qed.

(** *** Schedules without a definition *)

Lemma lr_schedule_undefined (args : Args) :
  lr_schedule_name args = "piecewisesmoothed"%string \/
  lr_schedule_name args = "piecewisezoom"%string ->
  lr_schedule np_interp np_cos float_floordiv args = None.
Proof. intros [E | E]; unfold lr_schedule; rewrite E; reflexivity. Qed.

(** C10. Of the eight values [--lr-schedule] accepts, [piecewisesmoothed]
    and [piecewisezoom] leave the name [lr_schedule] unbound: every training
    step then raises before any event, with [UnboundLocalError] unless
    mixup raised first, and so does an epoch with a batch on either side,
    right after [model.train()]; for each of the other six values the
    schedule is defined and its lookup returns it. *)
Theorem undefined_lr_schedules (args : Args) :
  In (lr_schedule_name args) lr_schedule_choices ->
  (lr_schedule_name args = "piecewisesmoothed"%string \/
   lr_schedule_name args = "piecewisezoom"%string ->
     lookup_lr_schedule np_interp np_cos float_floordiv args
       = Raise (UnboundLocalError "lr_schedule") /\
     (forall epoch n_batches i batch adv_batch st w,
        exists e w',
          train_step args epoch n_batches i batch adv_batch st w = (Raise e, w') /\
          fs w' = fs w /\ trace w' = trace w /\
          (e = UnboundLocalError "lr_schedule" \/
           (mixup args = true /\
            mixup_data Rng random_beta randperm (input batch) (target batch)
              (mixup_alpha args) (rng w) = Raise e))) /\
     (forall epoch batch batches adv_batch adv_batches ts w,
        eval_only args = false ->
        exists e w',
          train_epoch args epoch (batch :: batches) (adv_batch :: adv_batches) ts w
            = (Raise e, w') /\
          fs w' = fs w /\ trace w' = trace w ++ [SetMode true])) /\
  (lr_schedule_name args <> "piecewisesmoothed"%string ->
   lr_schedule_name args <> "piecewisezoom"%string ->
     exists f, lr_schedule np_interp np_cos float_floordiv args = Some f /\
               lookup_lr_schedule np_interp np_cos float_floordiv args = Ok f).
Proof.
  intros Hin.
  assert (Step : lr_schedule np_interp np_cos float_floordiv args = None ->
            forall epoch n_batches i batch adv_batch st w,
            exists e w',
              train_step args epoch n_batches i batch adv_batch st w = (Raise e, w') /\
              fs w' = fs w /\ trace w' = trace w /\
              (e = UnboundLocalError "lr_schedule" \/
               (mixup args = true /\
                mixup_data Rng random_beta randperm (input batch) (target batch)
                  (mixup_alpha args) (rng w) = Raise e))).
  { intros Hnone epoch n_batches i batch adv_batch [ts sums] w.
    unfold train_step. cbv beta iota zeta delta [bind lift ret].
    unfold scheduled_lr, lookup_lr_schedule. rewrite Hnone. cbn [rbind].
    destruct (mixup args).
    - destruct (mixup_data _ _ _ _ _ _ _) as [[[[[mixed_x y_a] y_b] lam] g] | e] eqn:Em.
      + eexists. eexists. split; [reflexivity|]. cbn [fs trace].
        split; [reflexivity|]. split; [reflexivity|]. left. reflexivity.
      + exists e, w. split; [reflexivity|]. split; [reflexivity|]. split; [reflexivity|].
        right. split; reflexivity.
    - eexists. eexists. split; [reflexivity|].
      split; [reflexivity|]. split; [reflexivity|]. left. reflexivity. }
  split.
  - intros Hname. pose proof (lr_schedule_undefined args Hname) as Hnone.
    split; [unfold lookup_lr_schedule; rewrite Hnone; reflexivity|].
    split; [exact (Step Hnone)|].
    intros epoch batch batches adv_batch adv_batches ts w He.
    unfold train_epoch. cbn [combine train_loop]. rewrite He.
    unfold bind at 1. unfold emit at 1.
    set (w0 := {| fs := fs w; trace := trace w ++ [SetMode true]; rng := rng w |}).
    destruct (Step Hnone epoch (Z.of_nat (List.length (batch :: batches))) 0%nat batch adv_batch
                (ts, zero_sums) w0) as [e [w' [E [F [T _]]]]].
    exists e, w'. rewrite (bind_raise _ _ _ _ _ E). auto.
  - intros N1 N2. unfold lookup_lr_schedule, lr_schedule.
    cbn [In lr_schedule_choices] in Hin.
    destruct Hin as [E | [E | [E | [E | [E | [E | [E | [E | []]]]]]]]];
      try (symmetry in E; contradiction);
      rewrite <- E; cbn; eexists; split; reflexivity.
Qed.

(** *** The best checkpoint *)

(** C1. The tracker of the best accuracy is not set to the accuracy that
    was compared and stored.  With an adversarial test set of 11000 samples
    and a clean one of 1000, an epoch with 5500 adversarial samples right
    (accuracy 0.5) is saved as best, and the tracker becomes 5500/1000 = 5.5;
    the next epoch with 9900 right (accuracy 0.9 > 0.5) is not saved. *)
Theorem save_best_tracker_mismatch (dir : string) (ts : TrainState) (w : World) :
  best_test_robust_acc ts = 0%float ->
  exists ts1 w1,
    save_best dir sums_epoch_1 ts w = (Ok ts1, w1) /\
    fs w1 (best_path dir)
      = Some (BestFile {| state_dict := params ts; test_robust_acc := 0.5;
                          test_robust_loss := 0; test_loss := 0; test_acc := 0.5 |}) /\
    best_test_robust_acc ts1 = 5.5%float /\
    Py.truediv_ii (sum_test_robust_acc sums_epoch_2) (test_robust_n sums_epoch_2)
      = Ok 0.9%float /\
    save_best dir sums_epoch_2 ts1 w1 = (Ok ts1, w1).
Proof.
  intros Hbest. unfold save_best, bind, lift. cbn. rewrite Hbest.
  eexists. eexists. split; [reflexivity|]. cbn. rewrite String.eqb_refl.
  repeat split; reflexivity.
Qed.
End ScriptFacts.

(** * The balanced assembly *)

(** [split] returns at least one piece. *)
Lemma split_underscore_aux_cons (s cur : string) :
  exists name names, split_underscore_aux s cur = name :: names.
Proof.
  revert cur. induction s as [|c s IH]; intros cur; cbn [split_underscore_aux].
  - eexists. eexists. reflexivity.
  - destruct (Ascii.eqb c "_"); [eexists; eexists; reflexivity | apply IH].
Qed.

Section BalancedAssembly.
Context {C : Collaborators}.

Variables (tr_x te_x : string -> Tensor) (tr_y te_y : string -> Labels).

Lemma resampled_ok (A : Type) (l : list A) (n : Z) (r : list A) :
  resample A l n = Ok r -> resampled l n = r.
Proof. unfold resampled. intros ->. reflexivity. Qed.

(** The loop of [main] computes the sizes that [balanced_counts_from]
    lists, hands each to [resample] and prints it. *)
Lemma balanced_loop (proportion : list float) (n_attacks : nat) (names : list string) :
  forall (counts : list Z) (i : nat) (s : Z) (acc : option AdvSets) (w : World),
    balanced_counts_from proportion n_attacks (List.length names) i s = Ok counts ->
    holds_attacks w names tr_x tr_y te_x te_y ->
    (forall name, In name names ->
       tr_x name <> [] /\ tr_y name <> [] /\ te_x name <> [] /\ te_y name <> []) ->
    (forall (A : Type) (l : list A) (k : Z),
       l <> [] -> In k counts -> is_ok (resample A l k) = true) ->
    exists s',
      for_each names (balanced_body proportion n_attacks) (i, s, acc) w
        = (Ok ((i + List.length names)%nat, s',
               fold_left (fun acc nc =>
                            concat_sets acc
                              (resampled (tr_x (fst nc)) (snd nc),
                               resampled (tr_y (fst nc)) (snd nc))
                              (resampled (te_x (fst nc)) (snd nc),
                               resampled (te_y (fst nc)) (snd nc)))
                         (combine names counts) acc),
           {| fs := fs w; trace := trace w ++ balanced_events names counts; rng := rng w |}).
Proof.
  induction names as [|name names IH]; intros counts i s acc w Hc Hf Hne Hr.
  - cbn in Hc. inversion Hc; subst. exists s. cbn. rewrite app_nil_r, Nat.add_0_r.
    destruct w; reflexivity.
  - cbn [List.length balanced_counts_from] in Hc.
    destruct (n_samples_at proportion n_attacks i s) as [[c s1] | e] eqn:En; [|discriminate].
    cbn [rbind fst snd] in Hc.
    destruct (balanced_counts_from proportion n_attacks (List.length names) (S i) s1)
      as [rest | e] eqn:Er; [|discriminate].
    cbn [rbind] in Hc. inversion Hc; subst counts; clear Hc.
    destruct (Hf name (or_introl eq_refl)) as [Htr Hte].
    cbn [for_each]. unfold bind at 1. unfold balanced_body at 1.
    cbv beta iota zeta delta [bind ret lift emit load_adv torch_load].
    rewrite Htr. cbn [fs trace rng]. rewrite Hte. cbn [fs trace rng fst snd].
    rewrite En. cbn [fst snd fs trace rng].
    destruct (Hne name (or_introl eq_refl)) as [N1 [N2 [N3 N4]]].
    pose proof (Hr Image (tr_x name) c N1 (or_introl eq_refl)) as R1.
    pose proof (Hr Z (tr_y name) c N2 (or_introl eq_refl)) as R2.
    pose proof (Hr Image (te_x name) c N3 (or_introl eq_refl)) as R3.
    pose proof (Hr Z (te_y name) c N4 (or_introl eq_refl)) as R4.
    change (resample (list spec_float)) with (resample Image).
    destruct (resample Image (tr_x name) c) as [a1 | e] eqn:E1; [|discriminate].
    destruct (resample Z (tr_y name) c) as [a2 | e] eqn:E2; [|discriminate].
    destruct (resample Image (te_x name) c) as [a3 | e] eqn:E3; [|discriminate].
    destruct (resample Z (te_y name) c) as [a4 | e] eqn:E4; [|discriminate].
    cbn [fst snd fs trace rng].
    destruct (IH rest (S i) s1 (concat_sets acc (a1, a2) (a3, a4))
                {| fs := fs w;
                   trace := ((((trace w ++ [TorchLoad (train_path name)])
                                ++ [TorchLoad (test_path name)])
                               ++ [Print "Sample"]) ++ [PrintInt c]);
                   rng := rng w |} Er) as [s' Es'].
    { intros n Hn. cbn [fs]. apply Hf. right. exact Hn. }
    { intros n Hn. apply Hne. right. exact Hn. }
    { intros A l k Hl Hk. apply Hr; [exact Hl | right; exact Hk]. }
    exists s'. etransitivity; [exact Es'|]. cbn [fs trace rng combine fold_left fst snd List.length].
    assert (Q1 : resampled (tr_x name) c = a1) by (apply resampled_ok; exact E1).
    assert (Q2 : resampled (tr_y name) c = a2) by (apply resampled_ok; exact E2).
    assert (Q3 : resampled (te_x name) c = a3) by (apply resampled_ok; exact E3).
    assert (Q4 : resampled (te_y name) c = a4) by (apply resampled_ok; exact E4).
    clear E1 E2 E3 E4 R1 R2 R3 R4 N1 N2 N3 N4 Es'. subst a1 a2 a3 a4.
    replace (i + S (List.length names))%nat with (S i + List.length names)%nat by lia.
    cbn [balanced_events combine flat_map fst snd app].
    rewrite <- !app_assoc. reflexivity.
Qed.

Lemma fold_resampled (l : list (string * Z)) :
  forall a b c d,
    fold_left (fun acc nc =>
                 concat_sets acc
                   (resampled (tr_x (fst nc)) (snd nc), resampled (tr_y (fst nc)) (snd nc))
                   (resampled (te_x (fst nc)) (snd nc), resampled (te_y (fst nc)) (snd nc)))
      l (Some (a, b, c, d))
    = Some (a ++ flat_map (fun nc => resampled (tr_x (fst nc)) (snd nc)) l,
            b ++ flat_map (fun nc => resampled (tr_y (fst nc)) (snd nc)) l,
            c ++ flat_map (fun nc => resampled (te_x (fst nc)) (snd nc)) l,
            d ++ flat_map (fun nc => resampled (te_y (fst nc)) (snd nc)) l).
Proof.
  induction l as [|nc l IH]; intros a b c d.
  - cbn. rewrite !app_nil_r. reflexivity.
  - cbn [fold_left concat_sets fst snd flat_map]. rewrite IH, <- !app_assoc. reflexivity.
Qed.

Lemma fold_resampled_none (name : string) (names : list string) (c : Z) (counts : list Z) :
  fold_left (fun acc nc =>
               concat_sets acc
                 (resampled (tr_x (fst nc)) (snd nc), resampled (tr_y (fst nc)) (snd nc))
                 (resampled (te_x (fst nc)) (snd nc), resampled (te_y (fst nc)) (snd nc)))
    (combine (name :: names) (c :: counts)) None
  = Some (balanced_sets tr_x tr_y te_x te_y (name :: names) (c :: counts)).
Proof.
  unfold balanced_sets. cbn [combine fold_left concat_sets fst snd flat_map].
  apply fold_resampled.
Qed.

Lemma Forall2_removelast {A B : Type} (R : A -> B -> Prop) (l1 : list A) (l2 : list B) :
  Forall2 R l1 l2 -> Forall2 R (removelast l1) (removelast l2).
Proof.
  induction 1 as [|x y l1 l2 Hxy H IH]; [constructor|].
  destruct H as [|x' y' l1 l2 Hxy' H]; [constructor|].
  change (removelast (x :: x' :: l1)) with (x :: removelast (x' :: l1)).
  change (removelast (y :: y' :: l2)) with (y :: removelast (y' :: l2)).
  constructor; assumption.
Qed.

Lemma Forall2_chain {A B D : Type} (P : A -> Prop) (R1 : A -> B -> Prop) (R2 : B -> D -> Prop)
  (Q : A -> D -> Prop) :
  (forall a b d, P a -> R1 a b -> R2 b d -> Q a d) ->
  forall l1 l2 l3, Forall P l1 -> Forall2 R1 l1 l2 -> Forall2 R2 l2 l3 -> Forall2 Q l1 l3.
Proof.
  intros H l1 l2 l3 HP H1. revert l3 HP.
  induction H1 as [|a b l1 l2 Hab H1 IH]; intros l3 HP H2.
  - inversion H2. constructor.
  - inversion H2 as [|b' d l2' l3' Hbd H2']; subst.
    inversion HP as [|a' l1' Pa HP']; subst.
    constructor; [eapply H; eassumption | apply IH; assumption].
Qed.

Lemma Forall_removelast {A : Type} (P : A -> Prop) (l : list A) :
  Forall P l -> Forall P (removelast l).
Proof.
  induction 1 as [|x l Hx H IH]; [constructor|].
  destruct l as [|y l]; [constructor|].
  change (removelast (x :: y :: l)) with (x :: removelast (y :: l)).
  constructor; assumption.
Qed.

(** Counts that are shares of [total] are between 0 and [total], and add
    up to no more than their ratios' share. *)
Lemma shares_sum (S : Z) (rs cs : list Z) :
  0 < S ->
  Forall2 (fun r c => 0 < r <= S /\ share_of S r c) rs cs ->
  Forall (fun c => 0 <= c <= total) cs /\
  S * sum_ints cs <= total * sum_ints rs.
Proof.
  intros HS. induction 1 as [|r c rs cs [Hr [[Lo Hi] Hm]] H [IH1 IH2]].
  - split; [constructor|]. rewrite !sum_ints_nil. lia.
  - assert (T : 0 < total) by reflexivity.
    set (N := r * total) in *.
    assert (HN : 0 < N) by (unfold N; nia).
    pose proof (Z.mul_div_le N S HS) as Q1.
    assert (Q2 : N / S <= total).
    { apply Z.div_le_upper_bound; [exact HS|]. unfold N. nia. }
    assert (Q3 : 0 <= c).
    { destruct (Z.eq_dec (N mod S) 0) as [E | E].
      - pose proof (Z.div_mod N S ltac:(lia)) as D. rewrite E in D.
        assert (0 < N / S) by nia. lia.
      - rewrite (Hm E). apply Z.div_pos; lia. }
    split.
    + constructor; [lia | exact IH1].
    + rewrite !sum_ints_cons. fold N. nia.
Qed.

(** C4, amended.  With [--attack combine] and [--balanced], for positive
    ratios, one for each attack of [--list], of sum [S] below [2 ^ 32],
    when the files of the attacks hold arrays that are not empty and
    [resample] returns for the sizes from 0 to [total], [main] resamples
    the arrays of each attack to a count that it prints:
    for every attack but the last the count is the ratio's share
    [floor(r_i * total / S)] of [total = 50000], or one less than it,
    which happens only when [r_i * total] is a multiple of [S] (the
    proportion and its product with [total] are rounded binary64
    numbers); the last attack is given [total] minus the sum of the
    earlier counts; the counts are between 0 and [total] and add up to
    [total]. *)
Theorem balanced_assembly_counts (args : Args) (w : World) (ratio_words : string)
  (ratios : list Z) :
  let names := split_underscore (attack_names args) in
  attack args = "combine"%string ->
  balanced args = Some ratio_words ->
  ints_of_strings (split_underscore ratio_words) = Ok ratios ->
  List.length ratios = List.length names ->
  Forall (fun r => 0 < r) ratios ->
  sum_ints ratios < 2 ^ 32 ->
  holds_attacks w names tr_x tr_y te_x te_y ->
  (forall name, In name names ->
     tr_x name <> [] /\ tr_y name <> [] /\ te_x name <> [] /\ te_y name <> []) ->
  (forall (A : Type) (l : list A) (k : Z),
     l <> [] -> 0 <= k <= total -> is_ok (resample A l k) = true) ->
  exists counts : list Z,
    assemble_adv args w
      = (Ok (balanced_sets tr_x tr_y te_x te_y names counts),
         {| fs := fs w;
            trace := trace w ++ Print "Attacks" :: Print (attack_names args)
                                :: balanced_events names counts;
            rng := rng w |}) /\
    List.length counts = List.length ratios /\
    Forall2 (share_of (sum_ints ratios)) (removelast ratios) (removelast counts) /\
    last counts 0 = total - sum_ints (removelast counts) /\
    Forall (fun c => 0 <= c <= total) counts /\
    sum_ints counts = total.
Proof.
  intros names Ha Hb Hi Hlen Hpos Hsum Hf Hne Hr.
  set (S := sum_ints ratios) in *.
  assert (Hl : Forall (fun x => 0 < x <= S) ratios).
  { apply Forall_forall. intros x Hx. split.
    - rewrite Forall_forall in Hpos. apply Hpos. exact Hx.
    - apply sum_ints_pos_le; assumption. }
  assert (P32 : 2 ^ 32 < 2 ^ 1000) by (apply Z.pow_lt_mono_r; lia).
  destruct (normalise_by_ok S ratios Hl ltac:(lia)) as [ps [En [F2 Fo]]].
  assert (Lps : List.length ps = List.length ratios)
    by (symmetry; eapply Forall2_length; exact F2).
  destruct (split_underscore_aux_cons (attack_names args) EmptyString) as [n0 [ns En0]].
  fold (split_underscore (attack_names args)) in En0. fold names in En0.
  assert (Hrne : ratios <> []).
  { intros E. rewrite E, En0 in Hlen. discriminate. }
  assert (Hpsne : ps <> []).
  { intros E. rewrite E in Lps. destruct ratios; [congruence | discriminate]. }
  destruct (balanced_counts_from_ok ps ps [] 0 eq_refl Hpsne Fo)
    as [counts [Ec [Lc [Fc La]]]].
  cbn [List.length] in Ec.
  assert (Hcn : counts <> []).
  { intros E. rewrite E in Lc. destruct ps; [congruence | discriminate]. }
  assert (HS : 0 < S).
  { destruct ratios as [|r0 rs]; [congruence|].
    inversion Hl; subst. lia. }
  assert (Fs : Forall2 (fun r c => 0 < r <= S /\ share_of S r c)
                 (removelast ratios) (removelast counts)).
  { apply (Forall2_chain (fun x => 0 < x <= S) (normalised_from S) floor_share)
      with (l2 := removelast ps).
    - intros r p c Hr' Hn Hfl. split; [exact Hr'|].
      apply (share_of_floor S r c p); assumption.
    - apply Forall_removelast, Hl.
    - apply Forall2_removelast, F2.
    - exact Fc. }
  destruct (shares_sum S _ _ HS Fs) as [Rg Sm].
  pose proof (sum_ints_removelast ratios Hrne) as Sr.
  fold S in Sr.
  assert (Hlast : 0 < last ratios 0).
  { rewrite Forall_forall in Hpos. apply Hpos.
    destruct ratios as [|r0 rs]; [congruence|]. apply exists_last in Hrne.
    destruct Hrne as [l' [a E]]. rewrite E, last_last. apply in_or_app. right. left.
    reflexivity. }
  assert (T : 0 < total) by reflexivity.
  assert (Hle : sum_ints (removelast counts) < total) by nia.
  assert (Rall : Forall (fun c => 0 <= c <= total) counts).
  { rewrite (app_removelast_last 0 Hcn). apply Forall_app. split; [exact Rg|].
    constructor; [|constructor]. rewrite La.
    assert (0 <= sum_ints (removelast counts)).
    { clear -Rg. induction Rg as [|c cs Hc _ IH]; [rewrite sum_ints_nil; lia|].
      rewrite sum_ints_cons. lia. }
    lia. }
  exists counts.
  split.
  - assert (Lcn : List.length counts = List.length names) by lia.
    rewrite Lps, Hlen in Ec.
    destruct (balanced_loop ps (List.length names) names counts O 0 None
                {| fs := fs w;
                   trace := (trace w ++ [Print "Attacks"]) ++ [Print (attack_names args)];
                   rng := rng w |} Ec) as [s' Es'].
    { intros n Hn. cbn [fs]. apply Hf, Hn. }
    { exact Hne. }
    { intros A l k Hne' Hk. apply Hr; [exact Hne'|].
      rewrite Forall_forall in Rall. apply Rall, Hk. }
    unfold assemble_adv. rewrite Ha, Hb.
    cbn [in_strings existsb ATTACK_LIST TUPLE_ATTACKS String.eqb Ascii.eqb Bool.eqb orb andb].
    fold names. cbv beta iota zeta delta [bind emit lift].
    rewrite Hi. unfold normalise. fold S. rewrite En.
    cbn [fs trace rng]. rewrite Es'. cbn [snd fs trace rng].
    destruct counts as [|c0 counts0]; [congruence|].
    rewrite En0 at 1. rewrite fold_resampled_none. rewrite <- En0.
    cbn [unwrap_sets ret]. rewrite <- !app_assoc. reflexivity.
  - split; [lia|]. split.
    + eapply Forall2_impl; [|exact Fs]. intros r c [_ H]. exact H.
    + split; [lia|]. split; [exact Rall|].
      rewrite (sum_ints_removelast counts Hcn). lia.
Qed.
End BalancedAssembly.

(** * The theorems at concrete inputs *)

(** ** The balanced assembly *)

Lemma balanced_assembly_counts_witness :
  Forall (fun r => 0 < r) [9; 1; 1] /\ sum_ints [9; 1; 1] < 2 ^ 32 /\
  exists counts : list Z,
    fst (@assemble_adv toy args_9_1_1 (attacks_world ["pgd"; "fgsm"; "bim"]%string))
      = Ok (@balanced_sets toy (fun _ => two_pixels) (fun _ => [0; 1])
              (fun _ => two_pixels) (fun _ => [0; 1]) ["pgd"; "fgsm"; "bim"]%string counts) /\
    Forall2 (share_of 11) [9; 1] (removelast counts) /\
    last counts 0 = total - sum_ints (removelast counts) /\
    sum_ints counts = total.
Proof.
  assert (H1 : Forall (fun r => 0 < r) [9; 1; 1]) by (repeat constructor).
  assert (H2 : sum_ints [9; 1; 1] < 2 ^ 32) by reflexivity.
  split; [exact H1|]. split; [exact H2|].
  destruct (@balanced_assembly_counts toy (fun _ => two_pixels) (fun _ => two_pixels)
              (fun _ => [0; 1]) (fun _ => [0; 1])
              args_9_1_1 (attacks_world ["pgd"; "fgsm"; "bim"]%string) "9_1_1" [9; 1; 1]
              eq_refl eq_refl eq_refl eq_refl H1 H2)
    as [counts [E [_ [F [L [_ S]]]]]].
  - intros name Hn. cbv in Hn. destruct Hn as [<- | [<- | [<- | []]]]; split; reflexivity.
  - intros name _. repeat split; discriminate.
  - intros A l k Hl Hk. destruct l as [|x l]; [congruence|].
    cbn [resample toy]. unfold draw_samples.
    destruct (Z.ltb_spec k 0); [lia | reflexivity].
  - exists counts. rewrite E. split; [reflexivity|]. split; [exact F|]. split; [exact L | exact S].
Defined.

Example balanced_run_9_1_1 :
  printed_counts
    (trace (snd (@assemble_adv toy args_9_1_1 (attacks_world ["pgd"; "fgsm"; "bim"]%string))))
    = [40909; 4545; 4546].
Proof. vm_compute. reflexivity. Qed.

(** With the ratios 29 and 71 the first attack is given 14499 samples:
    [float(29)/float(100)] is below 0.29 and its product with 50000 is
    rounded to the float below 14500, while the share
    [floor(29 * 50000 / 100)] is 14500. *)
Lemma balanced_29_71_below_share :
  is_ok (fst (@assemble_adv toy args_29_71 (attacks_world ["pgd"; "fgsm"]%string))) = true /\
  printed_counts
    (trace (snd (@assemble_adv toy args_29_71 (attacks_world ["pgd"; "fgsm"]%string))))
    = [14499; 35501] /\
  29 * total / (29 + 71) = 14500.
Proof. vm_compute. repeat split; reflexivity. Qed.

(** ** The piecewise schedule *)

Lemma piecewise_spec_witness :
  0 < epochs default_args < 2 ^ 1023 /\
  exists fE : float,
    Py.float_of_int (epochs default_args) = Ok fE /\
    piecewise default_args (0.4 * fE)%float = Ok (lr_max default_args) /\
    piecewise default_args (0.6 * fE)%float = Ok (lr_max default_args / 10)%float /\
    piecewise default_args (0.9 * fE)%float = Ok (lr_max default_args / 100)%float.
Proof.
  assert (H : 0 < epochs default_args < 2 ^ 1023) by (split; reflexivity).
  split; [exact H|].
  destruct (piecewise_spec default_args H) as [fE [E [_ [P1 [P2 [P3 _]]]]]].
  exists fE. split; [exact E|]. split; [exact P1|]. split; [exact P2 | exact P3].
Defined.

(** ** Mixup *)

Lemma mixup_identity_finite_witness :
  (-1 <=? 0)%float = true /\
  exists mixed_x y_b g',
    mixup_data Z (fun _ _ g => (0.5%float, g + 1)) swapping two_rows [7; 8]
      (Some (-1)%float) 0
      = Ok (mixed_x, [7; 8], y_b, PyInt 1, g') /\
    tensor_eqb mixed_x two_rows = true.
Proof.
  split; [reflexivity|].
  apply (mixup_identity_finite Z (fun _ _ g => (0.5%float, g + 1)) swapping two_rows [7; 8]
           (-1)%float 0).
  - intros n g0. cbn [swapping fst]. apply Permutation_sym, Permutation_rev.
  - reflexivity.
  - repeat constructor.
  - exists 2%nat. repeat constructor.
  - reflexivity.
Defined.

(** Why the entries are taken to be finite: for a batch of one infinite
    entry the second term is [0 * inf], which is not a number. *)
Example mixup_infinite_entry :
  mixup_data unit (fun _ _ g => (0%float, g)) (fun n g => (seq 0 n, g))
    [[S754_infinity false]] [0] (Some 0%float) tt
    = Ok ([[S754_nan]], [0], [0], PyInt 1, tt) /\
  tensor_eqb [[S754_nan]] [[S754_infinity false]] = false.
Proof. split; reflexivity. Qed.

(** ** The best checkpoint *)

Lemma save_best_tracker_mismatch_witness :
  exists ts1 w1,
    @save_best toy "out/" sums_epoch_1 (first_state one_group) empty_world = (Ok ts1, w1) /\
    fs w1 (best_path "out/")
      = Some (BestFile {| state_dict := params (first_state one_group); test_robust_acc := 0.5;
                          test_robust_loss := 0; test_loss := 0; test_acc := 0.5 |}) /\
    best_test_robust_acc ts1 = 5.5%float /\
    Py.truediv_ii (sum_test_robust_acc sums_epoch_2) (test_robust_n sums_epoch_2)
      = Ok 0.9%float /\
    save_best "out/" sums_epoch_2 ts1 w1 = (Ok ts1, w1).
Proof.
  exact (@save_best_tracker_mismatch toy "out/" (first_state one_group) empty_world eq_refl).
Defined.

(** ** A training step *)

Lemma first_step_result : first_step = (Ok (after_first_step, sums_first_step), world_first_step).
Proof. reflexivity. Qed.

(** The loss of the step is that against the clean label (0: no mistake),
    the accuracy that against the adversarial label (none correct). *)
Lemma robust_loss_pairs_clean_labels_witness :
  mixup default_args = false /\
  first_step = (Ok (after_first_step, sums_first_step), world_first_step) /\
  (exists rl,
     Py.mul_fi (@item toy (@criterion toy [0] (target tiny_batch))) (size0 (target tiny_batch_1))
       = Ok rl /\
     train_robust_loss sums_first_step = (train_robust_loss zero_sums + rl)%float) /\
  train_robust_acc sums_first_step
    = train_robust_acc zero_sums + @count_correct toy [0] (target tiny_batch_1).
Proof.
  assert (H1 : mixup default_args = false) by reflexivity.
  assert (H2 : first_step = (Ok (after_first_step, sums_first_step), world_first_step))
    by reflexivity.
  split; [exact H1|]. split; [exact H2|].
  destruct (@robust_loss_pairs_clean_labels toy default_args 0 1 0%nat tiny_batch tiny_batch_1
              (first_state one_group) after_first_step zero_sums sums_first_step
              empty_world world_first_step H1 H2)
    as [_ [[groups [rl [_ [_ [Erl El]]]]] [Ea _]]].
  split; [|exact Ea].
  exists rl. split; [exact Erl | exact El].
Defined.

(** ** The learning rate of the parameter groups *)

Lemma scheduled_lr_reaches_first_group_only_witness :
  l2_step = (Ok (after_l2_step, sums_l2_step), world_first_step) /\
  exists new_lr g rest,
    @scheduled_lr toy args_l2 100 1 0 = Ok new_lr /\
    lr after_l2_step = Some new_lr /\
    param_groups (opt (first_state two_groups)) = g :: rest /\
    param_groups (opt after_l2_step) = update_lr new_lr g :: rest /\
    map pg_lr (param_groups (opt after_l2_step)) = new_lr :: map pg_lr rest.
Proof.
  assert (H : l2_step = (Ok (after_l2_step, sums_l2_step), world_first_step)) by reflexivity.
  split; [exact H|].
  exact (@scheduled_lr_reaches_first_group_only toy args_l2 100 1 0%nat tiny_batch tiny_batch
           (first_state two_groups) after_l2_step zero_sums sums_l2_step
           empty_world world_first_step H).
Defined.

(** With [--l2] the optimiser has two groups, both created at [lr_max];
    after a step whose scheduled rate is 0.001 the second is still at 0.1. *)
Lemma no_decay_group_keeps_lr_max :
  sgd_param_groups args_l2 (@param_names toy) = Ok two_groups /\
  @scheduled_lr toy args_l2 100 1 0 = Ok 0.001%float /\
  l2_step = (Ok (after_l2_step, sums_l2_step), world_first_step) /\
  map pg_lr (param_groups (opt after_l2_step)) = [0.001; 0.1]%float.
Proof. repeat split; reflexivity. Qed.

(** ** The steps of an epoch *)



(** ** An unknown attack *)

Lemma unknown_attack_is_fatal_witness :
  ~ In (attack args_bogus) ATTACK_LIST /\ ~ In (attack args_bogus) TUPLE_ATTACKS /\
  exists (e : py_exception) (w' : @World toy),
    @main toy args_bogus empty_world = (Raise e, w') /\ fs w' = fs empty_world /\
    (exists evs, trace w' = trace empty_world ++ evs /\ forallb data_event evs = true) /\
    (forall d w1, @setup toy args_bogus empty_world = (Ok d, w1) ->
       e = ValueError "Unknown adversarial data" /\ w' = w1).
Proof.
  assert (H1 : ~ In (attack args_bogus) ATTACK_LIST) by (cbn; intuition discriminate).
  assert (H2 : ~ In (attack args_bogus) TUPLE_ATTACKS) by (cbn; intuition discriminate).
  split; [exact H1|]. split; [exact H2|].
  apply (@unknown_attack_is_fatal toy args_bogus empty_world H1 H2); discriminate.
Defined.

Example unknown_attack_run :
  fst (@main toy args_bogus empty_world) = Raise (ValueError "Unknown adversarial data") /\
  trace (snd (@main toy args_bogus empty_world))
    = [EnsureDir "../trained_models/default/bogus/";
       OpenLog "../trained_models/default/bogus/output.log";
       LogInfo "args"; Seed 0; LoadCifar true; LoadCifar false;
       Print "Train Original Data: "; PrintInt 2].
Proof. split; reflexivity. Qed.

(** ** [--eval] without [--resume] *)

Lemma eval_without_resume_returns_witness :
  eval_only args_eval = true /\ resume args_eval = 0 /\
  prepared = (Ok prepared_context, prepared_world) /\
  @main toy args_eval pgd_world
    = (Ok tt,
       @Build_World toy pgd_files
         (prepared_trace ++ [LogInfo "No model loaded to evaluate, specify with --resume FNAME"])
         0).
Proof.
  assert (H : prepared = (Ok prepared_context, prepared_world)) by reflexivity.
  split; [reflexivity|]. split; [reflexivity|]. split; [exact H|].
  exact (proj1 (@eval_without_resume_returns toy args_eval pgd_world prepared_world
                  prepared_context eq_refl eq_refl H)).
Defined.

(** ** A schedule without a definition *)

Lemma undefined_lr_schedules_witness :
  In (lr_schedule_name args_zoom) lr_schedule_choices /\
  lookup_lr_schedule (@np_interp toy) (@np_cos toy) (@float_floordiv toy) args_zoom
    = Raise (UnboundLocalError "lr_schedule") /\
  exists e w',
    @train_epoch toy args_zoom 0 [tiny_batch] [tiny_batch_1] (first_state one_group) empty_world
      = (Raise e, w') /\
    fs w' = fs empty_world /\ trace w' = trace empty_world ++ [SetMode true].
Proof.
  assert (H : In (lr_schedule_name args_zoom) lr_schedule_choices)
    by (cbn; intuition congruence).
  split; [exact H|].
  destruct (proj1 (@undefined_lr_schedules toy args_zoom H) (or_intror eq_refl))
    as [L [_ E]].
  split; [exact L|].
  exact (E 0 tiny_batch [] tiny_batch_1 [] (first_state one_group) empty_world eq_refl).
Defined.

Example undefined_schedule_run :
  fst (@train_epoch toy args_zoom 0 [tiny_batch] [tiny_batch_1] (first_state one_group)
         empty_world)
    = Raise (UnboundLocalError "lr_schedule").
Proof. reflexivity. Qed.

(** * Further facts about the script *)

Section EpochFacts.
Context {C : Collaborators}.

(** *** Evaluation *)

Lemma total_size_cons (b : Batch) (bs : list Batch) :
  total_size (b :: bs) = size0 (target b) + total_size bs.
Proof. unfold total_size. cbn [map]. rewrite sum_ints_cons. reflexivity. Qed.

Lemma eval_pass (bs : list Batch) :
  forall (p p' : Params) (l l' : float) (a a' n n' : Z) (w w' : World),
    for_each bs eval_batch (p, (l, a, n)) w = (Ok (p', (l', a', n')), w') ->
    p' = after_batches p bs /\
    n' = n + total_size bs /\
    Forall labelled bs /\
    fs w' = fs w /\
    trace w' = trace w ++ repeat (Forward false) (List.length bs).
Proof.
  induction bs as [|b bs IH]; intros p p' l l' a a' n n' w w' H.
  - cbn in H. inversion H; subst. unfold total_size. cbn. rewrite app_nil_r.
    repeat split; try constructor; lia.
  - cbn [for_each] in H. unfold bind at 1 in H. unfold eval_batch at 1 in H.
    cbv beta iota zeta delta [bind lift ret model_forward emit apply_criterion] in H.
    destruct (Nat.eqb_spec (List.length (input b)) (List.length (target b))) as [Hb | _];
      [|discriminate].
    destruct (Py.mul_fi _ (size0 (target b))) as [v | e]; [|discriminate].
    apply IH in H. destruct H as [Hp [Hn [Hl [F T]]]]. cbn [fs trace rng] in *.
    rewrite total_size_cons. split; [exact Hp|]. split; [lia|].
    split; [constructor; [exact Hb | exact Hl]|]. split; [exact F|].
    rewrite T. cbn [List.length repeat]. rewrite <- app_assoc. reflexivity.
Qed.

(** X1. An evaluation pass that returns has put the classifier in
    evaluation mode and run it once on each test batch, on the clean
    batches in their order and then on the adversarial ones: the state it
    leaves the classifier in is that of these passes in this order;
    [test_n] and [test_robust_n] are the numbers of samples of the clean
    and of the adversarial test batches; every batch had one label for
    each input; nothing is saved. *)
Theorem evaluate_counts_samples (test_batches test_robust_batches : list Batch)
  (p p' : Params) (te : TestSums) (w w' : World) :
  evaluate test_batches test_robust_batches p w = (Ok (p', te), w') ->
  p' = after_batches p (test_batches ++ test_robust_batches) /\
  test_n te = total_size test_batches /\
  test_robust_n te = total_size test_robust_batches /\
  Forall labelled (test_batches ++ test_robust_batches) /\
  fs w' = fs w /\
  trace w' = trace w ++ SetMode false
               :: repeat (Forward false)
                    (List.length test_batches + List.length test_robust_batches).
Proof.
  unfold evaluate. unfold bind at 1. unfold emit at 1.
  unfold bind at 1.
  destruct (for_each test_batches eval_batch _ _) as [[[p1 [[l1 a1] n1]] | e] w1] eqn:E1;
    [|discriminate].
  unfold bind at 1.
  destruct (for_each test_robust_batches eval_batch _ _) as [[[p2 [[l2 a2] n2]] | e] w2] eqn:E2;
    [|discriminate].
  cbn [fst snd]. unfold ret. intros H. inversion H; subst; clear H.
  apply eval_pass in E1. apply eval_pass in E2.
  destruct E1 as [P1 [N1 [L1 [F1 T1]]]]. destruct E2 as [P2 [N2 [L2 [F2 T2]]]].
  cbn [fs trace rng test_n test_robust_n] in *.
  split; [unfold after_batches in *; rewrite fold_left_app; cbn [fst] in P2; congruence|].
  split; [lia|]. split; [lia|].
  split; [apply Forall_app; split; assumption|]. split; [congruence|].
  rewrite T2, T1, repeat_app, <- !app_assoc. reflexivity.
Qed.

(** *** An epoch under [--eval] *)

Lemma quiet_eval_batch (b : Batch) (st : Params * (float * Z * Z)) :
  quiet eval_event (eval_batch b st).
Proof.
  destruct st as [p [[l a] n]]. unfold eval_batch, model_forward.
  repeat first [ apply quiet_ret | apply quiet_lift | apply quiet_emit; reflexivity
               | apply quiet_bind; [| intros ?] ].
Qed.

Lemma quiet_evaluate (test_batches test_robust_batches : list Batch) (p : Params) :
  quiet eval_event (evaluate test_batches test_robust_batches p).
Proof.
  unfold evaluate.
  apply quiet_bind; [apply quiet_emit; reflexivity | intros _].
  apply quiet_bind; [apply quiet_for_each; intros; apply quiet_eval_batch | intros c].
  apply quiet_bind; [apply quiet_for_each; intros; apply quiet_eval_batch | intros r].
  destruct (snd c) as [[cl ca] cn]. destruct (snd r) as [[rl ra] rn]. apply quiet_ret.
Qed.

Lemma log_row_without_training (epoch : Z) (ts : TrainState) (te : TestSums) (w : World) :
  log_row epoch ts zero_sums te w
    = (Raise (match lr ts with
              | None => UnboundLocalError "lr"
              | Some _ => ZeroDivisionError
              end), w).
Proof. unfold log_row, bind, ret, raise, lift. destruct (lr ts); reflexivity. Qed.

(** X2. Under [--eval] no epoch completes: the training loop is left at
    once, the evaluation runs, and the log line raises, on the name [lr]
    that no training step has bound (or on a division by [train_n = 0] if
    it were bound); nothing is saved. *)
Theorem eval_epoch_never_completes (args : Args) (dirname : string) (epochs_ : Z)
  (train_batches train_robust_batches test_batches test_robust_batches : list Batch)
  (epoch : Z) (ts : TrainState) (w : World) :
  eval_only args = true ->
  exists (e : py_exception) (w' : World),
    epoch_body args dirname epochs_ train_batches train_robust_batches
      test_batches test_robust_batches epoch ts w = (Raise e, w') /\
    fs w' = fs w /\
    (exists evs, trace w' = trace w ++ SetMode true :: evs /\ forallb eval_event evs = true) /\
    (is_ok (fst (evaluate test_batches test_robust_batches (params ts) (in_train_mode w))) = true ->
     e = match lr ts with
         | None => UnboundLocalError "lr"
         | Some _ => ZeroDivisionError
         end).
Proof.
  intros He. unfold epoch_body, train_epoch.
  unfold bind at 1. unfold bind at 1. unfold emit at 1.
  fold (in_train_mode w).
  rewrite (train_loop_eval args epoch _ 0 _ (ts, zero_sums) (in_train_mode w) He).
  cbv iota beta. unfold bind at 1.
  destruct (quiet_evaluate test_batches test_robust_batches (params ts) (in_train_mode w))
    as [F [evs [T P]]].
  destruct (evaluate test_batches test_robust_batches (params ts) (in_train_mode w))
    as [[ev | e] w1]; cbn [fst snd] in *.
  - unfold bind at 1. rewrite log_row_without_training. cbn [lr].
    eexists. eexists. split; [reflexivity|]. split; [exact F|]. split.
    + exists evs. rewrite T. cbn [in_train_mode trace]. rewrite <- app_assoc.
      split; [reflexivity | exact P].
    + intros _. reflexivity.
  - exists e, w1. split; [reflexivity|]. split; [exact F|]. split.
    + exists evs. rewrite T. cbn [in_train_mode trace]. rewrite <- app_assoc.
      split; [reflexivity | exact P].
    + discriminate.
Qed.

(** *** The sums and events of a training epoch *)

Lemma train_step_effects (args : Args) (epoch n_batches : Z) (i : nat)
  (batch adv_batch : Batch) (ts ts' : TrainState) (sums sums' : TrainSums) (w w' : World) :
  train_step args epoch n_batches i batch adv_batch (ts, sums) w = (Ok (ts', sums'), w') ->
  (exists v, scheduled_lr args epoch n_batches i = Ok v /\ lr ts' = Some v) /\
  train_n sums' = train_n sums + size0 (target batch) /\
  fs w' = fs w /\
  trace w' = trace w ++ step_events /\
  best_test_robust_acc ts' = best_test_robust_acc ts /\
  best_val_robust_acc ts' = best_val_robust_acc ts.
Proof.
  unfold train_step.
  cbv beta iota zeta delta [bind lift ret model_forward emit batch_loss].
  set (mx := if mixup args then _ else _).
  assert (Hmx : fs (snd (mx w)) = fs w /\ trace (snd (mx w)) = trace w).
  { subst mx. destruct (mixup args); [|split; reflexivity].
    destruct (mixup_data _ _ _ _ _ _ _) as [[[[[mixed_x y_a] y_b] lam] g] | e];
      split; reflexivity. }
  destruct (mx w) as [[xm | e] w0]; cbn [fst snd] in Hmx; destruct Hmx as [F0 T0];
    [|discriminate].
  destruct (scheduled_lr args epoch n_batches i) as [new_lr | e]; [|discriminate].
  destruct (set_lr_of_first_group new_lr (param_groups (opt ts))) as [groups | e];
    [|discriminate].
  cbn [fst snd fs trace rng].
  match goal with |- context [match ?r with Ok _ => _ | Raise _ => _ end] =>
    destruct r as [robust_loss | e] end; [|discriminate].
  cbn [fst snd fs trace rng].
  match goal with |- context [match ?r with Ok _ => _ | Raise _ => _ end] =>
    destruct r as [loss | e] end; [|discriminate].
  cbn [fst snd fs trace rng].
  destruct (Py.mul_fi _ (size0 (target adv_batch))) as [rl | e]; [|discriminate].
  destruct (Py.mul_fi _ (size0 (target batch))) as [cl | e]; [|discriminate].
  intros H. inversion H; subst; clear H.
  cbn [lr train_n fs trace best_test_robust_acc best_val_robust_acc].
  split; [exists new_lr; split; reflexivity|]. split; [reflexivity|].
  split; [exact F0|]. split; [|split; reflexivity].
  rewrite T0. unfold step_events. rewrite <- !app_assoc. reflexivity.
Qed.

Lemma train_loop_effects (args : Args) (epoch n_batches : Z) :
  eval_only args = false ->
  forall (pairs : list (Batch * Batch)) (i : nat) (ts ts' : TrainState)
         (sums sums' : TrainSums) (w w' : World),
    train_loop args epoch n_batches i pairs (ts, sums) w = (Ok (ts', sums'), w') ->
    train_n sums' = train_n sums + total_size (map fst pairs) /\
    fs w' = fs w /\
    trace w' = trace w ++ List.concat (repeat step_events (List.length pairs)) /\
    best_test_robust_acc ts' = best_test_robust_acc ts /\
    match pairs with
    | [] => ts' = ts /\ sums' = sums
    | _ :: rest =>
        exists v, scheduled_lr args epoch n_batches (i + List.length rest) = Ok v /\
                  lr ts' = Some v
    end.
Proof.
  intros He pairs. induction pairs as [|[batch adv_batch] rest IH];
    intros i ts ts' sums sums' w w' H.
  - cbn in H. inversion H; subst. unfold total_size. cbn. rewrite app_nil_r.
    repeat split; lia.
  - cbn [train_loop] in H. rewrite He in H. unfold bind at 1 in H.
    destruct (train_step args epoch n_batches i batch adv_batch (ts, sums) w)
      as [[[ts1 sums1] | e] w1] eqn:E1; [|discriminate].
    apply train_step_effects in E1. destruct E1 as [[v [Ev Lv]] [N1 [F1 [T1 [B1 _]]]]].
    apply IH in H. destruct H as [N2 [F2 [T2 [B2 L2]]]].
    cbn [map fst]. rewrite total_size_cons.
    split; [lia|]. split; [congruence|]. split.
    { rewrite T2, T1. cbn [List.length repeat List.concat]. rewrite <- app_assoc. reflexivity. }
    split; [congruence|].
    destruct rest as [|q rest'].
    + destruct L2 as [-> _]. exists v. rewrite Nat.add_0_r. auto.
    + destruct L2 as [v' [Ev' Lv']]. exists v'. cbn [List.length].
      replace (i + S (List.length rest'))%nat with (S i + List.length rest')%nat by lia.
      auto.
Qed.

Lemma map_fst_combine {A B : Type} (l : list A) (l' : list B) :
  map fst (combine l l') = firstn (Nat.min (List.length l) (List.length l')) l.
Proof.
  revert l'. induction l as [|x l IH]; intros [|y l']; cbn; try reflexivity.
  rewrite IH. reflexivity.
Qed.

(** X3. A training epoch without [--eval] that returns has taken
    [min(clean batches, adversarial batches)] steps, each a forward pass,
    an optimiser step and a second forward pass; [train_n] counts the
    samples of the clean batches used; the best accuracy is untouched, and
    the learning rate left in [lr] is the schedule's value at the last
    step. *)
Theorem train_epoch_sums_and_events (args : Args) (epoch : Z)
  (train_batches train_robust_batches : list Batch)
  (ts ts' : TrainState) (sums' : TrainSums) (w w' : World) :
  eval_only args = false ->
  train_epoch args epoch train_batches train_robust_batches ts w = (Ok (ts', sums'), w') ->
  let n := Nat.min (List.length train_batches) (List.length train_robust_batches) in
  train_n sums' = total_size (firstn n train_batches) /\
  fs w' = fs w /\
  trace w' = trace w ++ SetMode true :: List.concat (repeat step_events n) /\
  best_test_robust_acc ts' = best_test_robust_acc ts /\
  (n = 0%nat -> ts' = ts) /\
  ((0 < n)%nat ->
   exists v, scheduled_lr args epoch (Z.of_nat (List.length train_batches)) (n - 1) = Ok v /\
             lr ts' = Some v).
Proof.
  intros He H n. unfold train_epoch in H. unfold bind at 1 in H. unfold emit at 1 in H.
  apply (train_loop_effects args epoch _ He) in H.
  destruct H as [N [F [T [B L]]]]. cbn [fs trace train_n zero_sums] in *.
  assert (Hlen : List.length (combine train_batches train_robust_batches) = n)
    by (apply length_combine).
  pose proof (map_fst_combine train_batches train_robust_batches) as Hfst. fold n in Hfst.
  rewrite Hfst, Hlen in *.
  split; [lia|]. split; [exact F|]. split; [rewrite T, <- app_assoc; reflexivity|].
  split; [exact B|].
  destruct (combine train_batches train_robust_batches) as [|q rest] eqn:Ec.
  - cbn in Hlen. split; [intros _; tauto | lia].
  - cbn [List.length] in Hlen. split; [lia|]. intros _.
    destruct L as [v [Ev Lv]]. exists v. split; [|exact Lv].
    replace (n - 1)%nat with (0 + List.length rest)%nat by lia. exact Ev.
Qed.

(** *** The best snapshot *)

(** X4. The best snapshot: when the accuracy does not exceed the tracker,
    neither the files nor the state change; when it does, only
    [model_best.pth] is written, it holds the parameters and that accuracy,
    and the tracker is set to that accuracy when the clean and the
    adversarial test sets have the same number of samples. *)
Theorem save_best_cases (dirname : string) (te : TestSums) (ts : TrainState) (w : World)
  (acc : float) :
  Py.truediv_ii (sum_test_robust_acc te) (test_robust_n te) = Ok acc ->
  ((best_test_robust_acc ts <? acc)%float = false ->
     save_best dirname te ts w = (Ok ts, w)) /\
  ((best_test_robust_acc ts <? acc)%float = true ->
     forall ts' w', save_best dirname te ts w = (Ok ts', w') ->
       (exists b, fs w' (best_path dirname) = Some (BestFile b) /\
                  state_dict b = params ts /\ test_robust_acc b = acc) /\
       (forall p, p <> best_path dirname -> fs w' p = fs w p) /\
       trace w' = trace w ++ [TorchSave (best_path dirname)] /\
       params ts' = params ts /\ opt ts' = opt ts /\ lr ts' = lr ts /\
       (test_n te = test_robust_n te -> best_test_robust_acc ts' = acc)).
Proof.
  intros Hacc. unfold save_best. split; intros Hlt.
  { unfold bind at 1. unfold lift at 1. rewrite Hacc, Hlt. reflexivity. }
  intros ts' w'.
  cbv beta iota zeta delta [bind lift ret torch_save]. rewrite Hacc, Hlt.
  destruct (Py.truediv_fi (sum_test_robust_loss te) (test_robust_n te)) as [b|e]; [|discriminate].
  destruct (Py.truediv_fi (sum_test_loss te) (test_n te)) as [c|e]; [|discriminate].
  destruct (Py.truediv_ii (sum_test_acc te) (test_n te)) as [d|e]; [|discriminate].
  destruct (Py.truediv_ii (sum_test_robust_acc te) (test_n te)) as [nb|e] eqn:Enb;
    [|discriminate].
  intros H. inversion H; subst; clear H.
  cbn [fs trace params opt lr best_test_robust_acc].
  split.
  { eexists. rewrite String.eqb_refl. split; [reflexivity|]. split; reflexivity. }
  split.
  { intros p Hp. destruct (String.eqb_spec p (best_path dirname)); [contradiction | reflexivity]. }
  split; [reflexivity|]. split; [reflexivity|]. split; [reflexivity|]. split; [reflexivity|].
  intros Hn. rewrite Hn in Enb. congruence.
Qed.

(** *** Checkpoints and [--resume] *)


End EpochFacts.

Section FileFacts.
Context {C : Collaborators}.

(** *** Where [main] saves *)

Lemma emits_quiet {A : Type} (P : event -> bool) (m : M A) : quiet P m -> emits P m.
Proof. intros H w. destruct (H w) as [_ E]. exact E. Qed.

Lemma emits_bind {A B : Type} (P : event -> bool) (Q : A -> Prop) (m : M A) (k : A -> M B) :
  emits P m -> returns Q m -> (forall a, Q a -> emits P (k a)) -> emits P (bind m k).
Proof.
  intros Hm HQ Hk w. unfold bind. specialize (Hm w). specialize (HQ w).
  destruct (m w) as [[a | e] w1]; cbn [snd] in *; [|exact Hm].
  destruct Hm as [evs1 [T1 P1]].
  specialize (Hk a (HQ w1 a eq_refl) w1).
  destruct (k a w1) as [r w2]. cbn [snd] in *. destruct Hk as [evs2 [T2 P2]].
  exists (evs1 ++ evs2). rewrite T2, T1, <- app_assoc, forallb_app, P1, P2. auto.
Qed.

Lemma returns_any {A : Type} (m : M A) : returns (fun _ => True) m.
Proof. intros w w' a _. exact I. Qed.

Lemma emits_seq {A B : Type} (P : event -> bool) (m : M A) (k : A -> M B) :
  emits P m -> (forall a, emits P (k a)) -> emits P (bind m k).
Proof.
  intros Hm Hk. apply (emits_bind P (fun _ => True)); auto using returns_any.
Qed.

Lemma emits_for_each {A S : Type} (P : event -> bool) (l : list A) (body : A -> S -> M S) :
  (forall x s, emits P (body x s)) -> forall s, emits P (for_each l body s).
Proof.
  intros Hb. induction l as [|x l IH]; intros s; cbn [for_each].
  - apply emits_quiet, quiet_ret.
  - apply emits_seq; [apply Hb | exact IH].
Qed.

Lemma emits_torch_save (P : event -> bool) (f : file) (path : string) :
  P (TorchSave path) = true -> emits P (torch_save f path).
Proof.
  intros H w. exists [TorchSave path]. split; [reflexivity|]. cbn. rewrite H. reflexivity.
Qed.

Lemma returns_bind {A B : Type} (Q : B -> Prop) (m : M A) (k : A -> M B) :
  (forall a, returns Q (k a)) -> returns Q (bind m k).
Proof.
  intros Hk w w' b. unfold bind. destruct (m w) as [[a | e] w1]; [|discriminate].
  apply Hk.
Qed.

Lemma returns_ret {A : Type} (Q : A -> Prop) (a : A) : Q a -> returns Q (ret a).
Proof. intros H w w' a' E. inversion E; subst. exact H. Qed.

Lemma prefix_append (d s : string) : String.prefix d (d ++ s) = true.
Proof.
  induction d as [|c d IH]; [destruct s; reflexivity|].
  cbn [String.append String.prefix]. destruct (Ascii.ascii_dec c c); [exact IH | contradiction].
Qed.

Ltac quiet_go :=
  repeat first
    [ apply quiet_ret | apply quiet_raise | apply quiet_lift
    | apply quiet_emit; reflexivity
    | apply quiet_for_each; intros
    | apply quiet_bind; [| intros ?]
    | match goal with
      | |- quiet _ (if ?b then _ else _) => destruct b
      | |- quiet _ (match ?x with _ => _ end) => destruct x
      end ].

Lemma quiet_log_row (dir : string) (epoch : Z) (ts : TrainState) (sums : TrainSums)
  (te : TestSums) :
  quiet (saves_under dir) (log_row epoch ts sums te).
Proof. unfold log_row. quiet_go. Qed.

Lemma quiet_initial_evaluation (dir : string) (test_batches test_robust_batches : list Batch)
  (p : Params) :
  quiet (saves_under dir) (initial_evaluation test_batches test_robust_batches p).
Proof.
  unfold initial_evaluation, initial_batch, model_forward. quiet_go.
Qed.

Lemma quiet_train_step (dir : string) (args : Args) (epoch n_batches : Z) (i : nat)
  (batch adv_batch : Batch) (st : TrainState * TrainSums) :
  quiet (saves_under dir) (train_step args epoch n_batches i batch adv_batch st).
Proof.
  destruct st as [ts sums]. unfold train_step, model_forward.
  apply quiet_bind.
  - destruct (mixup args); [|apply quiet_ret].
    intros w.
    destruct (mixup_data _ _ _ _ _ _ _) as [[[[[mixed_x y_a] y_b] lam] g] | e]; cbn;
      (split; [reflexivity|]); exists []; rewrite app_nil_r; auto.
  - intros xm. quiet_go.
Qed.

Lemma quiet_train_epoch (dir : string) (args : Args) (epoch : Z)
  (train_batches train_robust_batches : list Batch) (ts : TrainState) :
  quiet (saves_under dir) (train_epoch args epoch train_batches train_robust_batches ts).
Proof.
  unfold train_epoch. apply quiet_bind; [apply quiet_emit; reflexivity | intros _].
  generalize (ts, zero_sums) as st. generalize 0%nat as i.
  induction (combine train_batches train_robust_batches) as [|[batch adv_batch] rest IH];
    intros i st; cbn [train_loop]; [apply quiet_ret|].
  destruct (eval_only args); [apply quiet_ret|].
  apply quiet_bind; [apply quiet_train_step | intros st'; apply IH].
Qed.

Lemma emits_epoch_body (args : Args) (dirname : string) (epochs_ : Z)
  (train_batches train_robust_batches test_batches test_robust_batches : list Batch)
  (epoch : Z) (ts : TrainState) :
  emits (saves_under dirname)
    (epoch_body args dirname epochs_ train_batches train_robust_batches
       test_batches test_robust_batches epoch ts).
Proof.
  unfold epoch_body.
  apply emits_seq; [apply emits_quiet, quiet_train_epoch|]. intros [ts1 sums].
  apply emits_seq.
  { apply emits_quiet, (quiet_weaken eval_event); [|apply quiet_evaluate].
    intros e He. destruct e; try discriminate; reflexivity. }
  intros ev.
  apply emits_seq; [apply emits_quiet, quiet_log_row|]. intros _.
  apply emits_seq.
  - unfold save_checkpoint.
    apply emits_seq.
    + apply emits_quiet. destruct (chkpt_iters args =? 0); [apply quiet_raise | apply quiet_ret].
    + intros due. destruct due; [|apply emits_quiet, quiet_ret].
      apply emits_seq; [|intros _]; apply emits_torch_save; cbn [saves_under];
        apply prefix_append.
  - intros _. unfold save_best.
    apply emits_seq; [apply emits_quiet, quiet_lift|]. intros acc.
    destruct (_ <? acc)%float; [|apply emits_quiet, quiet_ret].
    repeat (apply emits_seq; [apply emits_quiet, quiet_lift|]; intros ?).
    apply emits_seq; [apply emits_torch_save, prefix_append|]. intros _.
    apply emits_seq; [apply emits_quiet, quiet_lift|]. intros ?.
    apply emits_quiet, quiet_ret.
Qed.

Lemma returns_setup (args : Args) :
  returns (fun d => dirname d = dirname_of args) (setup args).
Proof.
  unfold setup. repeat (apply returns_bind; intros ?). apply returns_ret. reflexivity.
Qed.

Lemma returns_prepare (args : Args) (d : Data) (sets : AdvSets) :
  returns (fun c => data c = d) (prepare args d sets).
Proof.
  unfold prepare. destruct sets as [[[a b] c] e].
  repeat (apply returns_bind; intros ?). apply returns_ret. reflexivity.
Qed.

Lemma returns_preparation (args : Args) :
  returns (fun c => dirname (data c) = dirname_of args) (preparation args).
Proof.
  unfold preparation. intros w w' c. unfold bind at 1.
  destruct (setup args w) as [[d | e] w1] eqn:Es; [|discriminate].
  apply returns_setup in Es. unfold bind at 1.
  destruct (assemble_adv args w1) as [[sets | e] w2]; [|discriminate].
  intros Ep. apply returns_prepare in Ep. rewrite Ep. exact Es.
Qed.

Lemma emits_train_and_test (args : Args) (c : Context) :
  emits (saves_under (dirname (data c))) (train_and_test args c).
Proof.
  unfold train_and_test.
  apply emits_seq; [apply emits_quiet, quiet_initial_evaluation|]. intros p.
  apply emits_seq; [apply emits_quiet, quiet_emit; reflexivity|]. intros _.
  apply emits_seq; [|intros; apply emits_quiet, quiet_ret].
  apply emits_for_each. intros epoch ts. apply emits_epoch_body.
Qed.

Lemma emits_run (args : Args) (c : Context) :
  emits (saves_under (dirname (data c))) (run args c).
Proof.
  unfold run. destruct (eval_only args); [destruct (resume args =? 0)|].
  - apply emits_quiet, quiet_emit. reflexivity.
  - apply emits_seq; [apply emits_quiet, quiet_emit; reflexivity|]. intros _.
    apply emits_train_and_test.
  - apply emits_train_and_test.
Qed.

(** X6. [main] saves only inside its run directory: whether the run
    returns or raises, the path of every [torch.save] it made starts with
    [dirname]. *)
Theorem main_saves_only_in_its_directory (args : Args) (w : World) :
  exists evs, trace (snd (main args w)) = trace w ++ evs /\
              forallb (saves_under (dirname_of args)) evs = true.
Proof.
  revert w. change (emits (saves_under (dirname_of args)) (main args)).
  unfold main.
  apply (emits_bind _ (fun c => dirname (data c) = dirname_of args)).
  - apply emits_quiet, (quiet_weaken prep_event); [|apply quiet_preparation].
    intros e He. destruct e as [| | | | | | | | | | |[|]|[|]| |]; try discriminate; reflexivity.
  - apply returns_preparation.
  - intros c Hc. rewrite <- Hc. apply emits_run.
Qed.

(** *** What a preparation that returns has checked *)

Lemma returns_bind_l {A B : Type} (P : Prop) (m : M A) (k : A -> M B) :
  returns (fun _ => P) m -> returns (fun _ => P) (bind m k).
Proof.
  intros Hm w w' b. unfold bind. destruct (m w) as [[a | e] w1] eqn:E; [|discriminate].
  intros _. exact (Hm w w1 a E).
Qed.

Lemma returns_raise {A : Type} (Q : A -> Prop) (e : py_exception) : returns Q (raise e).
Proof. intros w w' a E. discriminate. Qed.

Lemma known_attack_not_free (name : string) :
  known_attack name = true -> String.eqb name "free" = false.
Proof.
  intros H. destruct (String.eqb_spec name "free") as [-> | _]; [|reflexivity].
  discriminate.
Qed.

Lemma setup_checks (args : Args) :
  returns (fun _ => 0 <= seed args < 2 ^ 32 /\ 0 < batch_size args) (setup args).
Proof.
  intros w w' d E. split.
  - revert w w' d E. change (returns (fun _ => 0 <= seed args < 2 ^ 32) (setup args)).
    unfold setup. do 3 (apply returns_bind; intros ?). apply returns_bind_l.
    destruct ((seed args <? 0) || (2 ^ 32 <=? seed args)) eqn:Hs; [apply returns_raise|].
    apply returns_ret. apply orb_false_elim in Hs. destruct Hs as [H1 H2].
    apply Z.ltb_ge in H1. apply Z.leb_gt in H2. lia.
  - revert w w' d E. change (returns (fun _ => 0 < batch_size args) (setup args)).
    unfold setup. do 12 (apply returns_bind; intros ?). apply returns_bind_l.
    intros w w' trb. unfold lift, Batches.
    destruct (Z.leb_spec (batch_size args) 0); [discriminate | auto].
Qed.

(** X7. What a preparation that returns has checked and built: the attack
    is a known one, the seed fits 32 bits, the batch size is positive, the
    learning rate is not negative, the number of epochs is [--epochs] (the
    branch of the [free] attack is never taken), and without [--resume] the
    run starts at epoch 0 from the pretrained parameters. *)
Theorem preparation_validates (args : Args) (w w' : World) (c : Context) :
  preparation args w = (Ok c, w') ->
  known_attack (attack args) = true /\
  0 <= seed args < 2 ^ 32 /\
  0 < batch_size args /\
  (lr_max args <? 0)%float = false /\
  n_epochs c = epochs args /\
  dirname (data c) = dirname_of args /\
  (resume args = 0 ->
     start_epoch c = 0 /\ params (state c) = pretrained /\ lr (state c) = None /\
     best_test_robust_acc (state c) = 0%float /\
     param_groups (opt (state c)) <> []).
Proof.
  intros H. pose proof (returns_preparation args w w' c H) as Hdir.
  unfold preparation in H. unfold bind at 1 in H.
  destruct (setup args w) as [[d | e] w1] eqn:Es; [|discriminate].
  destruct (setup_checks args w w1 d Es) as [Hseed Hbs].
  unfold bind at 1 in H.
  destruct (assemble_adv args w1) as [[sets | e] w2] eqn:Ea; [|discriminate].
  assert (Hk : known_attack (attack args) = true).
  { destruct (known_attack (attack args)) eqn:K; [reflexivity|].
    rewrite (assemble_adv_unknown args w1 K) in Ea. discriminate. }
  split; [exact Hk|]. split; [exact Hseed|]. split; [exact Hbs|].
  unfold prepare in H. destruct sets as [[[a b] c0] e0].
  rewrite (known_attack_not_free _ Hk) in H.
  cbv beta iota zeta delta [bind lift ret emit] in H.
  destruct (subsample args (combine a b) w2) as [[tas | e] w3]; [|discriminate].
  cbn [fs trace rng] in H.
  destruct (Batches tas (batch_size args)) as [trb | e]; [|discriminate].
  destruct (Batches (combine c0 e0) (batch_size args)) as [teb | e]; [|discriminate].
  cbn [fs trace rng] in H.
  destruct (sgd_param_groups args param_names) as [groups | e] eqn:Eg; [|discriminate].
  cbn [fs trace rng] in H.
  match type of H with context [resume_state args ?d0 ?t0 ?w0] =>
    destruct (resume_state args d0 t0 w0) as [[rs | e] w4] eqn:Er end; [|discriminate].
  inversion H; subst; clear H. cbn [n_epochs data state start_epoch].
  assert (Hlr : (lr_max args <? 0)%float = false).
  { unfold sgd_param_groups in Eg. destruct (lr_max args <? 0)%float; [discriminate | reflexivity]. }
  assert (Hg : groups <> []).
  { unfold sgd_param_groups in Eg. rewrite Hlr in Eg.
    destruct (Py.truthy (l2 args)); [inversion Eg; discriminate|].
    destruct param_names; [discriminate | inversion Eg; discriminate]. }
  split; [exact Hlr|]. split; [reflexivity|]. split; [exact Hdir|].
  unfold resume_state in Er.
  intros Hr. rewrite Hr in Er. cbn in Er. inversion Er; subst. cbn. auto.
Qed.
End FileFacts.

Section EvalFacts.
Context {C : Collaborators}.

(** *** A run under [--eval] *)

Lemma quiet_evaluate_calm (test_batches test_robust_batches : list Batch) (p : Params) :
  quiet calm_event (evaluate test_batches test_robust_batches p).
Proof.
  apply (quiet_weaken eval_event); [|apply quiet_evaluate].
  intros e He. destruct e as [| | | | | | | | | | |[|]|[|]| |]; try discriminate; reflexivity.
Qed.

Lemma quiet_epoch_body_eval (args : Args) (dirname : string) (epochs_ : Z)
  (train_batches train_robust_batches test_batches test_robust_batches : list Batch)
  (epoch : Z) (ts : TrainState) :
  eval_only args = true ->
  quiet calm_event
    (epoch_body args dirname epochs_ train_batches train_robust_batches
       test_batches test_robust_batches epoch ts).
Proof.
  intros He w.
  remember (epoch_body args dirname epochs_ train_batches train_robust_batches
              test_batches test_robust_batches epoch ts w) as out eqn:Eo.
  unfold epoch_body, train_epoch in Eo.
  unfold bind at 1 in Eo. unfold bind at 1 in Eo. unfold emit at 1 in Eo.
  rewrite (train_loop_eval args epoch _ 0 _ (ts, zero_sums) _ He) in Eo.
  cbv iota beta in Eo. unfold bind at 1 in Eo.
  match type of Eo with context [evaluate ?a ?b ?p ?w0] =>
    destruct (quiet_evaluate_calm a b p w0) as [F [evs [T P]]];
    destruct (evaluate a b p w0) as [[ev | e] w1] end; cbn [fst snd fs trace] in *.
  - unfold bind at 1 in Eo. rewrite log_row_without_training in Eo.
    cbv beta iota zeta in Eo. subst out. cbn [snd].
    split; [exact F|]. exists (SetMode true :: evs). rewrite T, <- app_assoc.
    split; [reflexivity | exact P].
  - subst out. cbn [snd].
    split; [exact F|]. exists (SetMode true :: evs). rewrite T, <- app_assoc.
    split; [reflexivity | exact P].
Qed.

Lemma quiet_initial_evaluation_calm (test_batches test_robust_batches : list Batch)
  (p : Params) :
  quiet calm_event (initial_evaluation test_batches test_robust_batches p).
Proof.
  unfold initial_evaluation, initial_batch, model_forward.
  repeat first
    [ apply quiet_ret | apply quiet_lift | apply quiet_emit; reflexivity
    | apply quiet_for_each; intros
    | apply quiet_bind; [| intros ?]
    | match goal with
      | |- quiet _ (match ?x with _ => _ end) => destruct x
      end ].
Qed.

(** X8. A run under [--eval] takes no optimiser step, makes no forward pass
    in training mode and makes no [torch.save], whether it returns or
    raises. *)
Theorem eval_run_takes_no_step (args : Args) (w : World) :
  eval_only args = true ->
  exists evs, trace (snd (main args w)) = trace w ++ evs /\
              forallb calm_event evs = true.
Proof.
  intros He. revert w.
  assert (Q : quiet calm_event (main args)); [|intros w; exact (proj2 (Q w))].
  unfold main. apply quiet_bind.
  - apply (quiet_weaken prep_event); [|apply quiet_preparation].
    intros e H. destruct e as [| | | | | | | | | | |[|]|[|]| |]; try discriminate; reflexivity.
  - intros c. unfold run. rewrite He.
    destruct (resume args =? 0); [apply quiet_emit; reflexivity|].
    apply quiet_bind; [apply quiet_emit; reflexivity | intros _].
    unfold train_and_test.
    apply quiet_bind; [apply quiet_initial_evaluation_calm | intros p].
    apply quiet_bind; [apply quiet_emit; reflexivity | intros _].
    apply quiet_bind; [|intros; apply quiet_ret].
    apply quiet_for_each. intros epoch ts. apply quiet_epoch_body_eval, He.
Qed.
End EvalFacts.

(** * The optimiser's parameter groups *)

Lemma prefix_spec (p s : string) :
  String.prefix p s = true <-> exists r, s = (p ++ r)%string.
Proof.
  revert s. induction p as [|c p IH]; intros s.
  - split; [intros _; exists s; reflexivity | intros _; destruct s; reflexivity].
  - destruct s as [|c' s]; cbn [String.prefix String.append].
    + split; [discriminate | intros [r Hr]; cbn in Hr; discriminate Hr].
    + destruct (Ascii.ascii_dec c c') as [-> | Hne].
      * rewrite IH. split; intros [r Hr]; exists r; [rewrite Hr; reflexivity|].
        cbn in Hr. inversion Hr. reflexivity.
      * split; [discriminate|]. intros [r Hr]. cbn in Hr. inversion Hr. congruence.
Qed.

(** [contains sub s] is Python's [sub in s]. *)
Lemma contains_spec (sub s : string) : contains sub s = true <-> occurs_in sub s.
Proof.
  unfold occurs_in. induction s as [|c s IH].
  - cbn [contains]. rewrite orb_false_r, prefix_spec. split.
    + intros [r Hr]. exists EmptyString, r. exact Hr.
    + intros [a [b H]]. destruct a as [|c a]; [exists b; exact H | cbn in H; discriminate H].
  - cbn [contains]. rewrite orb_true_iff, prefix_spec, IH. split.
    + intros [[r Hr] | [a [b H]]].
      * exists EmptyString, r. exact Hr.
      * exists (String c a), b. rewrite H. reflexivity.
    + intros [a [b H]]. destruct a as [|c' a].
      * left. exists b. exact H.
      * right. exists a, b. cbn [String.append] in H. inversion H. reflexivity.
Qed.

Lemma decays_spec (name : string) :
  decays name = true <-> ~ occurs_in "bn" name /\ ~ occurs_in "bias" name.
Proof.
  unfold decays. rewrite andb_true_iff, !negb_true_iff, <- !contains_spec.
  split; intros [H1 H2]; split.
  - rewrite H1. discriminate.
  - rewrite H2. discriminate.
  - destruct (contains "bn" name); [exfalso; auto | reflexivity].
  - destruct (contains "bias" name); [exfalso; auto | reflexivity].
Qed.

Lemma filter_partition_perm {A : Type} (f : A -> bool) (l : list A) :
  Permutation (filter f l ++ filter (fun x => negb (f x)) l) l.
Proof.
  induction l as [|x l IH]; [constructor|].
  cbn [filter]. destruct (f x); cbn [negb app].
  - constructor. exact IH.
  - apply Permutation_sym, Permutation_cons_app, Permutation_sym. exact IH.
Qed.

(** X9. The parameter groups handed to SGD hold every parameter exactly
    once, all at [lr_max], and there is a first group for the learning-rate
    update; with [--l2] the first group holds the names without [bn] and
    [bias] and decays by [l2], the second holds the others and does not
    decay; without it there is one group decaying by [5e-4]. *)
Theorem sgd_param_groups_partition (args : Args) (names : list string)
  (groups : list ParamGroup) :
  sgd_param_groups args names = Ok groups ->
  Permutation (flat_map pg_params groups) names /\
  Forall (fun g => pg_lr g = lr_max args) groups /\
  (forall v, is_ok (set_lr_of_first_group v groups) = true) /\
  (Py.truthy (l2 args) = true ->
     exists g1 g2, groups = [g1; g2] /\
       pg_weight_decay g1 = l2 args /\ pg_weight_decay g2 = 0%float /\
       (forall name, In name (pg_params g1) <->
          In name names /\ ~ occurs_in "bn" name /\ ~ occurs_in "bias" name) /\
       (forall name, In name (pg_params g2) <->
          In name names /\ (occurs_in "bn" name \/ occurs_in "bias" name))) /\
  (Py.truthy (l2 args) = false ->
     exists g, groups = [g] /\ pg_params g = names /\ pg_weight_decay g = 5e-4%float).
Proof.
  unfold sgd_param_groups. destruct (lr_max args <? 0)%float; [discriminate|].
  destruct (Py.truthy (l2 args)).
  - intros H. inversion H; subst; clear H. cbn [flat_map pg_params app].
    rewrite app_nil_r. split; [apply filter_partition_perm|].
    split; [repeat constructor|]. split; [reflexivity|]. split; [|discriminate].
    intros _. eexists. eexists. split; [reflexivity|]. cbn [pg_params pg_weight_decay].
    split; [reflexivity|]. split; [reflexivity|]. split; intros name.
    + rewrite filter_In, decays_spec. reflexivity.
    + rewrite filter_In, negb_true_iff. split; intros [Hn Hd]; (split; [exact Hn|]).
      * unfold decays in Hd. apply andb_false_iff in Hd.
        destruct Hd as [Hd | Hd]; apply negb_false_iff in Hd;
          [left | right]; apply contains_spec; exact Hd.
      * destruct (decays name) eqn:E; [|reflexivity]. apply decays_spec in E. tauto.
  - destruct names as [|n names]; [discriminate|].
    intros H. inversion H; subst; clear H. cbn [flat_map pg_params app].
    rewrite app_nil_r. split; [apply Permutation_refl|].
    split; [repeat constructor|]. split; [reflexivity|]. split; [discriminate|].
    intros _. eexists. split; [reflexivity|]. split; reflexivity.
Qed.

(** * Mixup on any batch *)

Lemma row_add_shape (a : list spec_float) :
  forall b, List.length a = List.length b ->
    exists r, row_add a b = Ok r /\ List.length r = List.length a.
Proof.
  induction a as [|u a IH]; intros [|v b] Hl; try discriminate.
  - exists []. split; reflexivity.
  - destruct (IH b) as [r [E L]]; [cbn in Hl; lia|].
    exists (F32.add u v :: r). cbn [row_add]. rewrite E. cbn [rbind List.length].
    split; [reflexivity | lia].
Qed.

Lemma tensor_add_shape (x : Tensor) :
  forall y : Tensor,
    Forall2 (fun a b => List.length a = List.length b) x y ->
    exists r, tensor_add x y = Ok r /\
              Forall2 (fun c a => List.length c = List.length a) r x.
Proof.
  induction x as [|a x IH]; intros y H; inversion H as [|? b ? y' Hl H']; subst.
  - exists []. split; [reflexivity | constructor].
  - destruct (row_add_shape a b Hl) as [r [Er Lr]].
    destruct (IH y' H') as [t [Et Ft]].
    exists (r :: t). cbn [tensor_add]. rewrite Er. cbn [rbind]. rewrite Et. cbn [rbind].
    split; [reflexivity|]. constructor; assumption.
Qed.

Lemma map_nth_seq {A : Type} (d : A) (l : list A) :
  map (fun i => nth i l d) (seq 0 (List.length l)) = l.
Proof.
  induction l as [|a l IH]; [reflexivity|].
  cbn [List.length seq map nth]. f_equal.
  rewrite <- seq_shift, map_map. exact IH.
Qed.

Lemma gather_nth {A : Type} (d : A) (l : list A) (index : list nat) :
  forall r, gather l index = Ok r -> r = map (fun i => nth i l d) index.
Proof.
  induction index as [|i index IH]; intros r H; cbn [gather] in H.
  - inversion H. reflexivity.
  - destruct (nth_error l i) as [a|] eqn:N; [|discriminate].
    destruct (gather l index) as [t|e]; [|discriminate].
    cbn [rbind] in H. inversion H; subst. cbn [map].
    rewrite (nth_error_nth l i d N), <- (IH t eq_refl). reflexivity.
Qed.

Lemma gather_permutation {A : Type} (l : list A) (index : list nat) (r : list A) :
  Permutation index (seq 0 (List.length l)) -> gather l index = Ok r -> Permutation r l.
Proof.
  intros Hp Hg. destruct l as [|d l'] eqn:El.
  - apply Permutation_sym, Permutation_nil in Hp. subst index. inversion Hg. constructor.
  - rewrite <- El in *. rewrite (gather_nth d l index r Hg).
    eapply Permutation_trans; [apply Permutation_map, Hp|].
    rewrite map_nth_seq. apply Permutation_refl.
Qed.

(** X10. Mixup of a batch with one label per row returns, whatever
    [alpha] is: the mixed batch has the shape of the input, the first label
    set is [y], the second is a permutation of [y], and [lam] is the
    generator's draw for [alpha > 0] and the int [1] otherwise. *)
Theorem mixup_data_shape
  (Rng : Type) (random_beta : float -> float -> Rng -> float * Rng)
  (randperm : nat -> Rng -> list nat * Rng)
  (x : Tensor) (y : Labels) (alpha : float) (g : Rng) :
  (forall n g0, Permutation (fst (randperm n g0)) (seq 0 n)) ->
  rectangular x -> List.length y = List.length x ->
  exists mixed_x y_b lam g',
    mixup_data Rng random_beta randperm x y (Some alpha) g = Ok (mixed_x, y, y_b, lam, g') /\
    Forall2 (fun row' row => List.length row' = List.length row) mixed_x x /\
    Permutation y_b y /\
    lam = (if Py.gt_fi alpha 0 then PyFloat (fst (random_beta alpha alpha g)) else PyInt 1).
Proof.
  intros Hperm [d Hrect] Hy. unfold mixup_data.
  set (lg := if Py.gt_fi alpha 0 then _ else _).
  assert (Hlam : fst lg = if Py.gt_fi alpha 0 then PyFloat (fst (random_beta alpha alpha g))
                          else PyInt 1).
  { subst lg. destruct (Py.gt_fi alpha 0); [|reflexivity].
    destruct (random_beta alpha alpha g); reflexivity. }
  destruct lg as [lam g1]. cbn [fst] in Hlam.
  specialize (Hperm (List.length x) g1).
  destruct (randperm (List.length x) g1) as [index g2]. cbn [fst] in Hperm.
  assert (Hidx : Forall (fun i => (i < List.length x)%nat) index).
  { apply Forall_forall. intros i Hi.
    apply (Permutation_in _ Hperm) in Hi. apply in_seq in Hi. lia. }
  destruct (gather_ok x index Hidx) as [picked [Ep [Lp Fp]]].
  destruct (gather_ok y index ltac:(rewrite Hy; exact Hidx)) as [y_b [Ey _]].
  rewrite Ep. cbn [rbind].
  assert (Hw : exists w, one_minus lam = Ok w).
  { rewrite Hlam. destruct (Py.gt_fi alpha 0); eexists; reflexivity. }
  destruct Hw as [w Ew]. rewrite Ew. cbn [rbind].
  assert (Hlen : List.length index = List.length x).
  { rewrite (Permutation_length Hperm). apply length_seq. }
  assert (Hshape : Forall2 (fun a b => List.length a = List.length b)
                     (tensor_scale lam x) (tensor_scale w picked)).
  { unfold tensor_scale. rewrite Forall_forall in Hrect, Fp.
    assert (Hpd : Forall (fun row => List.length row = d) picked).
    { apply Forall_forall. intros row Hr. apply Hrect, Fp, Hr. }
    assert (Hxd : Forall (fun row => List.length row = d) x) by (apply Forall_forall, Hrect).
    assert (Hl : List.length x = List.length picked) by lia.
    clear - Hpd Hxd Hl. revert picked Hpd Hl.
    induction x as [|a x IH]; intros [|b picked] Hpd Hl; try discriminate; cbn [map].
    - constructor.
    - inversion Hxd; inversion Hpd; subst. constructor.
      + rewrite !length_map. congruence.
      + apply IH; auto. }
  destruct (tensor_add_shape _ _ Hshape) as [m [Em Fm]].
  rewrite Em. cbn [rbind]. rewrite Ey. cbn [rbind].
  exists m, y_b, lam, g2. split; [reflexivity|]. split.
  - clear - Fm. unfold tensor_scale in Fm. remember (map _ x) as sx eqn:Es.
    revert x Es. induction Fm as [|c a r sx' Hc Fm IH]; intros x Es.
    + destruct x; [constructor | discriminate].
    + destruct x as [|a0 x]; [discriminate|]. cbn [map] in Es. inversion Es; subst.
      constructor; [rewrite Hc, length_map; reflexivity | apply IH; reflexivity].
  - split; [|exact Hlam].
    apply (gather_permutation y index y_b); [rewrite Hy; exact Hperm | exact Ey].
Qed.

(** * Mixup without its parameter *)

Section MixupStep.
Context {C : Collaborators}.

(** X11. [--mixup] without [--mixup-alpha]: every training step raises
    [TypeError] at the comparison [alpha > 0] and leaves the world as it
    was, so the first epoch fails right after [model.train()]. *)
Theorem mixup_without_alpha_fails (args : Args) :
  mixup args = true -> mixup_alpha args = None ->
  (forall epoch n_batches i batch adv_batch st w,
     train_step args epoch n_batches i batch adv_batch st w = (Raise TypeError, w)) /\
  (forall epoch batch batches adv_batch adv_batches ts w,
     eval_only args = false ->
     train_epoch args epoch (batch :: batches) (adv_batch :: adv_batches) ts w
       = (Raise TypeError, in_train_mode w)).
Proof.
  intros Hm Ha.
  assert (Step : forall epoch n_batches i batch adv_batch st w,
             train_step args epoch n_batches i batch adv_batch st w = (Raise TypeError, w)).
  { intros epoch n_batches i batch adv_batch [ts sums] w.
    unfold train_step. rewrite Hm, Ha. reflexivity. }
  split; [exact Step|].
  intros epoch batch batches adv_batch adv_batches ts w He.
  unfold train_epoch. cbn [combine train_loop]. rewrite He.
  unfold bind at 1. unfold emit at 1. fold (in_train_mode w).
  unfold bind at 1. rewrite Step. reflexivity.
Qed.
End MixupStep.

Section ScheduleFacts.
Context {C : Collaborators}.

(** *** The multiple-decay schedule *)

(** X12. The multiple-decay schedule divides by [epochs // 10]: with fewer
    than ten epochs it raises [ZeroDivisionError] and no training step
    returns; with ten or more it returns
    [lr_max - (t // (epochs // 10)) * (lr_max / 10)]. *)
Theorem multipledecay_needs_ten_epochs (args : Args) :
  lr_schedule_name args = "multipledecay"%string ->
  (0 <= epochs args < 10 ->
     (forall t, multipledecay float_floordiv args t = Raise ZeroDivisionError) /\
     (forall epoch n_batches i batch adv_batch st w,
        is_ok (fst (train_step args epoch n_batches i batch adv_batch st w)) = false)) /\
  (10 <= epochs args < 2 ^ 1023 ->
     exists d s, Py.float_of_int (epochs args / 10) = Ok d /\
                 Py.truediv_fi (lr_max args) 10 = Ok s /\
                 forall t, multipledecay float_floordiv args t
                           = Ok (lr_max args - float_floordiv t d * s)%float).
Proof.
  intros Hname. split.
  - intros He.
    assert (Hd : epochs args / 10 = 0) by (apply Z.div_small; lia).
    assert (Hm : forall t, multipledecay float_floordiv args t = Raise ZeroDivisionError).
    { intros t. unfold multipledecay. rewrite Hd. reflexivity. }
    split; [exact Hm|].
    intros epoch n_batches i batch adv_batch [ts sums] w.
    destruct (train_step args epoch n_batches i batch adv_batch (ts, sums) w)
      as [[[ts' sums'] | e] w'] eqn:E; [|reflexivity].
    apply train_step_effects in E. destruct E as [[v [Ev _]] _].
    unfold scheduled_lr, lookup_lr_schedule, lr_schedule in Ev.
    rewrite Hname in Ev. cbn [String.eqb Ascii.eqb Bool.eqb andb rbind] in Ev.
    destruct (Py.truediv_ii (Z.of_nat i + 1) n_batches) as [frac | e]; [|discriminate].
    cbn [rbind] in Ev.
    destruct (Py.add_if epoch frac) as [t | e]; [|discriminate].
    cbn [rbind] in Ev. rewrite Hm in Ev. discriminate.
  - intros He.
    assert (Hd : 0 < epochs args / 10 < 2 ^ 1023).
    { split.
      - apply Z.div_str_pos. lia.
      - apply Z.le_lt_trans with (epochs args); [|lia].
        apply Z.div_le_upper_bound; lia. }
    destruct (float_of_int_R _ Hd) as [d [vd [Ed [Pd _]]]].
    exists d. eexists. split; [exact Ed|]. split; [reflexivity|].
    intros t. unfold multipledecay. rewrite Ed. cbn [rbind].
    rewrite (pos_finite_nonzero d vd Pd). reflexivity.
Qed.
End ScheduleFacts.

Section AssemblyFacts.
Context {C : Collaborators}.

(** *** The sets of [--attack all] and [--attack combine] *)

Variables (tr_x te_x : string -> Tensor) (tr_y te_y : string -> Labels).

Lemma load_and_concat_all (names : list string) :
  forall (acc : option AdvSets) (w : World),
    holds_attacks w names tr_x tr_y te_x te_y ->
    for_each names load_and_concat acc w
      = (Ok (fold_left (fun acc name =>
                          concat_sets acc (tr_x name, tr_y name) (te_x name, te_y name))
                       names acc),
         {| fs := fs w; trace := trace w ++ load_events names; rng := rng w |}).
Proof.
  induction names as [|name names IH]; intros acc w H.
  - cbn. rewrite app_nil_r. destruct w; reflexivity.
  - destruct (H name (or_introl eq_refl)) as [Htr Hte].
    cbn [for_each fold_left]. unfold bind at 1. unfold load_and_concat at 1.
    cbv beta iota zeta delta [bind ret load_adv torch_load].
    rewrite Htr. cbn [fs trace rng]. rewrite Hte. cbn [fs trace rng].
    rewrite IH.
    + cbn [fs trace rng load_events flat_map]. rewrite <- !app_assoc. reflexivity.
    + intros n Hn. cbn [fs]. apply H. right. exact Hn.
Qed.

Lemma fold_concat_sets (names : list string) :
  forall a b c d,
    fold_left (fun acc name =>
                 concat_sets acc (tr_x name, tr_y name) (te_x name, te_y name))
      names (Some (a, b, c, d))
    = Some (a ++ flat_map tr_x names, b ++ flat_map tr_y names,
            c ++ flat_map te_x names, d ++ flat_map te_y names).
Proof.
  induction names as [|name names IH]; intros a b c d.
  - cbn. rewrite !app_nil_r. reflexivity.
  - cbn [fold_left concat_sets fst snd flat_map]. rewrite IH, <- !app_assoc. reflexivity.
Qed.

Lemma fold_concat_sets_none (name : string) (names : list string) :
  fold_left (fun acc name =>
               concat_sets acc (tr_x name, tr_y name) (te_x name, te_y name))
    (name :: names) None
  = Some (flat_map tr_x (name :: names), flat_map tr_y (name :: names),
          flat_map te_x (name :: names), flat_map te_y (name :: names)).
Proof. cbn [fold_left concat_sets fst snd flat_map]. apply fold_concat_sets. Qed.

(** X13. With [--attack all] the adversarial sets are the arrays of the
    eleven attacks of [ATTACK_LIST], concatenated in that order; with
    [--attack combine] and no [--balanced], those of the attacks named in
    [--list], in the order given.  The two files of each attack are loaded
    once, train before test. *)
Theorem assemble_concatenates (args : Args) (w : World) :
  (attack args = "all"%string ->
   holds_attacks w ATTACK_LIST tr_x tr_y te_x te_y ->
   assemble_adv args w
     = (Ok (flat_map tr_x ATTACK_LIST, flat_map tr_y ATTACK_LIST,
            flat_map te_x ATTACK_LIST, flat_map te_y ATTACK_LIST),
        {| fs := fs w; trace := trace w ++ load_events ATTACK_LIST; rng := rng w |})) /\
  (attack args = "combine"%string -> balanced args = None ->
   let names := split_underscore (attack_names args) in
   holds_attacks w names tr_x tr_y te_x te_y ->
   assemble_adv args w
     = (Ok (flat_map tr_x names, flat_map tr_y names,
            flat_map te_x names, flat_map te_y names),
        {| fs := fs w;
           trace := trace w ++ Print "Attacks" :: Print (attack_names args) :: load_events names;
           rng := rng w |})).
Proof.
  split.
  - intros Ha H. unfold assemble_adv. rewrite Ha.
    cbn [in_strings existsb ATTACK_LIST TUPLE_ATTACKS String.eqb Ascii.eqb Bool.eqb orb andb].
    unfold bind. rewrite (load_and_concat_all _ None w H).
    change ATTACK_LIST with ("pixelattack"%string :: tl ATTACK_LIST) at 1.
    rewrite fold_concat_sets_none. reflexivity.
  - intros Ha Hb names H. unfold assemble_adv. rewrite Ha, Hb.
    cbn [in_strings existsb ATTACK_LIST TUPLE_ATTACKS String.eqb Ascii.eqb Bool.eqb orb andb].
    fold names. cbv beta iota zeta delta [bind emit].
    rewrite (load_and_concat_all names None).
    + destruct (split_underscore_aux_cons (attack_names args) EmptyString) as [n [ns E]].
      unfold names at 1, split_underscore. rewrite E.
      rewrite fold_concat_sets_none. fold (split_underscore (attack_names args)) in E.
      rewrite <- E. fold names. cbn [unwrap_sets ret fs trace rng].
      rewrite <- !app_assoc. reflexivity.
    + intros n Hn. cbn [fs]. apply H, Hn.
Qed.
End AssemblyFacts.

(** * Batches *)

Lemma chunks_aux_spec (bs : nat) (l : list Sample) :
  forall (cur : list Sample) (room : nat),
    (0 < bs)%nat -> (room + List.length cur = bs)%nat ->
    let cs := chunks_aux bs cur room l in
    List.concat cs = rev cur ++ l /\
    Forall (fun c => (0 < List.length c <= bs)%nat) cs /\
    Forall (fun c => List.length c = bs) (removelast cs) /\
    List.length cs = ((List.length cur + List.length l + bs - 1) / bs)%nat.
Proof.
  induction l as [|x l IH]; intros cur room Hbs Hinv; cbn zeta.
  - cbn [chunks_aux]. destruct cur as [|c cur].
    + cbn. repeat split; try constructor.
      symmetry. apply Nat.div_small. lia.
    + cbn [List.concat removelast List.length]. rewrite app_nil_r.
      split; [reflexivity|]. split.
      { constructor; [|constructor]. rewrite length_rev. cbn [List.length] in *. lia. }
      split; [constructor|].
      cbn [List.length] in *.
      replace (S (List.length cur) + 0 + bs - 1)%nat with (1 * bs + List.length cur)%nat by lia.
      rewrite Nat.div_add_l by lia. rewrite Nat.div_small by lia. reflexivity.
  - cbn [chunks_aux]. destruct room as [|r].
    + assert (Hc : List.length cur = bs) by lia.
      destruct (IH [x] (bs - 1)%nat Hbs) as [E [F [G L]]]; [cbn; lia|].
      cbn [List.concat]. rewrite E. cbn [rev app]. split; [reflexivity|].
      split; [constructor; [rewrite length_rev; lia | exact F]|].
      split.
      { cbn [removelast]. destruct (chunks_aux bs [x] (bs - 1) l) eqn:Ec.
        - constructor.
        - constructor; [rewrite length_rev; exact Hc | exact G]. }
      cbn [List.length] in *. rewrite L, Hc.
      replace (bs + S (List.length l) + bs - 1)%nat
        with (1 * bs + (1 + List.length l + bs - 1))%nat by lia.
      rewrite Nat.div_add_l by lia. reflexivity.
    + destruct (IH (x :: cur) r Hbs) as [E [F [G L]]]; [cbn [List.length]; lia|].
      rewrite E. cbn [rev]. rewrite <- app_assoc. split; [reflexivity|].
      split; [exact F|]. split; [exact G|].
      rewrite L. cbn [List.length]. f_equal. lia.
Qed.

Lemma removelast_map {A B : Type} (f : A -> B) (l : list A) :
  removelast (map f l) = map f (removelast l).
Proof.
  induction l as [|a l IH]; [reflexivity|].
  cbn [map removelast]. destruct l as [|b l]; [reflexivity|].
  cbn [map] in *. rewrite IH. reflexivity.
Qed.

(** X14. [Batches] refuses a batch size that is not positive; otherwise its
    batches, put end to end, are the data set in order, every batch holds
    between one and [batch_size] samples, all but the last hold
    [batch_size], and there are [ceil(len(dataset) / batch_size)] of
    them. *)
Theorem Batches_partition (dataset : list Sample) (batch_size : Z) :
  (batch_size <= 0 -> is_ok (Batches dataset batch_size) = false) /\
  (0 < batch_size ->
   exists batches,
     Batches dataset batch_size = Ok batches /\
     List.concat (map input batches) = map fst dataset /\
     List.concat (map target batches) = map snd dataset /\
     Forall (fun b => List.length (input b) = List.length (target b) /\
                      0 < Z.of_nat (List.length (target b)) <= batch_size) batches /\
     Forall (fun b => Z.of_nat (List.length (target b)) = batch_size) (removelast batches) /\
     Z.of_nat (List.length batches)
       = (Z.of_nat (List.length dataset) + batch_size - 1) / batch_size).
Proof.
  unfold Batches. split; intros Hb.
  - destruct (Z.leb_spec batch_size 0); [reflexivity | lia].
  - destruct (Z.leb_spec batch_size 0); [lia|].
    eexists. split; [reflexivity|].
    assert (Hbs : (0 < Z.to_nat batch_size)%nat) by lia.
    destruct (chunks_aux_spec (Z.to_nat batch_size) dataset [] (Z.to_nat batch_size) Hbs)
      as [E [F [G L]]]; [cbn; lia|].
    fold (chunks (Z.to_nat batch_size) dataset) in E, F, G, L.
    cbn [rev app List.length] in E, L.
    set (cs := chunks (Z.to_nat batch_size) dataset) in *.
    rewrite !map_map. cbn [batch_of input target].
    split; [rewrite <- E; symmetry; apply concat_map|].
    split; [rewrite <- E; symmetry; apply concat_map|].
    split.
    { apply Forall_map. eapply Forall_impl; [|exact F]. intros c Hc. cbv beta in Hc. cbn [batch_of input target].
      rewrite !length_map. clear - Hc Hb. unfold Sample in *. lia. }
    split.
    { rewrite removelast_map. apply Forall_map. eapply Forall_impl; [|exact G].
      intros c Hc. cbv beta in Hc. cbn [batch_of target]. rewrite length_map. clear - Hc Hb. unfold Sample in *. lia. }
    rewrite length_map, L.
    rewrite Nat2Z.inj_div. f_equal; lia.
Qed.

(** * The further facts at concrete inputs *)

Lemma evaluate_counts_samples_witness :
  @evaluate toy [tiny_batch; tiny_batch] [tiny_batch_1] 0 empty_world
    = (Ok (0, tiny_test_sums), evaluated_world) /\
  0 = @after_batches toy 0 ([tiny_batch; tiny_batch] ++ [tiny_batch_1]) /\
  test_n tiny_test_sums = total_size [tiny_batch; tiny_batch] /\
  test_robust_n tiny_test_sums = total_size [tiny_batch_1].
Proof.
  assert (H : @evaluate toy [tiny_batch; tiny_batch] [tiny_batch_1] 0 empty_world
              = (Ok (0, tiny_test_sums), evaluated_world)) by reflexivity.
  split; [exact H|].
  destruct (@evaluate_counts_samples toy _ _ _ _ _ _ _ H) as [P [N1 [N2 _]]].
  split; [exact P|]. split; [exact N1 | exact N2].
Defined.

Lemma eval_epoch_never_completes_witness :
  exists (e : py_exception) (w' : @World toy),
    @epoch_body toy args_eval "run/" 110 [tiny_batch] [tiny_batch_1] [tiny_batch] [tiny_batch_1]
      0 (first_state one_group) empty_world = (Raise e, w') /\
    fs w' = fs empty_world.
Proof.
  destruct (@eval_epoch_never_completes toy args_eval "run/" 110 [tiny_batch] [tiny_batch_1]
              [tiny_batch] [tiny_batch_1] 0 (first_state one_group) empty_world eq_refl)
    as [e [w' [E [F _]]]].
  exists e, w'. split; [exact E | exact F].
Defined.

Example eval_epoch_run :
  fst (@epoch_body toy args_eval "run/" 110 [tiny_batch] [tiny_batch_1] [tiny_batch]
         [tiny_batch_1] 0 (first_state one_group) empty_world)
    = Raise (UnboundLocalError "lr").
Proof. reflexivity. Qed.

Lemma train_epoch_sums_and_events_witness :
  @train_epoch toy default_args 0 [tiny_batch; tiny_batch] [tiny_batch_1]
    (first_state one_group) empty_world
    = (Ok (after_first_step, sums_first_step), world_first_epoch) /\
  train_n sums_first_step = total_size (firstn 1 [tiny_batch; tiny_batch]) /\
  trace world_first_epoch
    = trace empty_world ++ SetMode true :: List.concat (repeat step_events 1).
Proof.
  assert (H : @train_epoch toy default_args 0 [tiny_batch; tiny_batch] [tiny_batch_1]
                (first_state one_group) empty_world
              = (Ok (after_first_step, sums_first_step), world_first_epoch)) by reflexivity.
  split; [exact H|].
  destruct (@train_epoch_sums_and_events toy default_args 0 [tiny_batch; tiny_batch]
              [tiny_batch_1] _ _ _ _ _ eq_refl H) as [N [_ [T _]]].
  split; [exact N | exact T].
Defined.

Lemma save_best_cases_witness :
  Py.truediv_ii (sum_test_robust_acc sums_epoch_1) (test_robust_n sums_epoch_1) = Ok 0.5%float /\
  (best_test_robust_acc trained_state <? 0.5)%float = true /\
  forall ts' w',
    @save_best toy "run/" sums_epoch_1 trained_state empty_world = (Ok ts', w') ->
    (exists b, fs w' (best_path "run/") = Some (BestFile b) /\
               state_dict b = params trained_state /\ test_robust_acc b = 0.5%float) /\
    (forall p, p <> best_path "run/" -> fs w' p = fs empty_world p).
Proof.
  split; [reflexivity|]. split; [reflexivity|].
  intros ts' w' H.
  destruct (proj2 (@save_best_cases toy "run/" sums_epoch_1 trained_state empty_world
                     0.5%float eq_refl) eq_refl ts' w' H) as [B [Fr _]].
  split; [exact B | exact Fr].
Defined.


(** The last epoch of a run in [run/] saves the checkpoint and, the accuracy
    being above the best so far, the best snapshot. *)
Example last_epoch_saves :
  saved_paths
    (trace (snd (@epoch_body toy default_args "run/" 1 [tiny_batch] [tiny_batch] [tiny_batch]
                   [tiny_batch] 0 (first_state one_group) empty_world)))
    = ["run/model_0.pth"; "run/opt_0.pth"; "run/model_best.pth"]%string.
Proof. reflexivity. Qed.

Lemma preparation_validates_witness :
  prepared = (Ok prepared_context, prepared_world) /\
  known_attack (attack args_eval) = true /\
  n_epochs prepared_context = epochs args_eval.
Proof.
  assert (H : prepared = (Ok prepared_context, prepared_world)) by reflexivity.
  split; [exact H|].
  destruct (@preparation_validates toy args_eval pgd_world prepared_world prepared_context H)
    as [K [_ [_ [_ [N _]]]]].
  split; [exact K | exact N].
Defined.

Lemma sgd_param_groups_partition_witness :
  sgd_param_groups args_l2 (@param_names toy) = Ok two_groups /\
  Permutation (flat_map pg_params two_groups) (@param_names toy).
Proof.
  assert (H : sgd_param_groups args_l2 (@param_names toy) = Ok two_groups) by reflexivity.
  split; [exact H|].
  exact (proj1 (sgd_param_groups_partition args_l2 (@param_names toy) two_groups H)).
Defined.

Lemma mixup_data_shape_witness :
  exists mixed_x y_b lam g',
    mixup_data Z (fun _ _ g => (0.5%float, g + 1)) swapping two_rows [7; 8] (Some 0.5%float) 0
      = Ok (mixed_x, [7; 8], y_b, lam, g') /\
    Forall2 (fun row' row => List.length row' = List.length row) mixed_x two_rows /\
    Permutation y_b [7; 8] /\
    lam = (if Py.gt_fi 0.5 0 then PyFloat (fst (0.5%float, 0 + 1)) else PyInt 1).
Proof.
  apply (mixup_data_shape Z (fun _ _ g => (0.5%float, g + 1)) swapping two_rows [7; 8]
           0.5%float 0).
  - intros n g0. cbn [swapping fst]. apply Permutation_sym, Permutation_rev.
  - exists 2%nat. repeat constructor.
  - reflexivity.
Defined.

Lemma mixup_without_alpha_fails_witness :
  mixup args_mixup = true /\ mixup_alpha args_mixup = None /\
  @train_epoch toy args_mixup 0 [tiny_batch] [tiny_batch_1] (first_state one_group) empty_world
    = (Raise TypeError, in_train_mode empty_world).
Proof.
  split; [reflexivity|]. split; [reflexivity|].
  apply (proj2 (@mixup_without_alpha_fails toy args_mixup eq_refl eq_refl)). reflexivity.
Defined.

Lemma multipledecay_needs_ten_epochs_witness :
  lr_schedule_name args_decay = "multipledecay"%string /\
  exists d s, Py.float_of_int (epochs args_decay / 10) = Ok d /\
              Py.truediv_fi (lr_max args_decay) 10 = Ok s /\
              forall t, multipledecay (@float_floordiv toy) args_decay t
                        = Ok (lr_max args_decay - @float_floordiv toy t d * s)%float.
Proof.
  split; [reflexivity|].
  apply (proj2 (@multipledecay_needs_ten_epochs toy args_decay eq_refl)).
  change (epochs args_decay) with 110. split; [lia | reflexivity].
Defined.

(** With [--eval --resume 20] the run loads the checkpoint, evaluates and
    stops at the log line of its first epoch. *)
Lemma eval_run_takes_no_step_witness :
  eval_only args_eval_resume = true /\
  fst (@main toy args_eval_resume resumable_world) = Raise (UnboundLocalError "lr") /\
  exists evs, trace (snd (@main toy args_eval_resume resumable_world))
                = trace resumable_world ++ evs /\
              forallb calm_event evs = true.
Proof.
  split; [reflexivity|]. split; [reflexivity|].
  exact (@eval_run_takes_no_step toy args_eval_resume resumable_world eq_refl).
Defined.
